(** * Command application core of a replicated range: merge and apply

    A shallow embedding of [pkg/storage/replica_proposal.go]: the
    evaluation results ([LocalEvalResult], [EvalResult]), the merge of two
    results ([MergeAndDestroy]), the checksum bookkeeping
    ([gcOldChecksumEntriesLocked], [computeChecksumPostApply]), the lease
    hand-over ([leasePostApply]) and the three handlers
    ([handleReplicatedEvalResult], [handleLocalEvalResult],
    [handleEvalResult]).

    Conventions.  A Go pointer or interface field is an [option]: [None]
    is [nil].  Go integers are [Z].  A struct compared against its zero
    value ([x != T{}]) is decided with [decide (x = T_zero)].  Calls into
    collaborators that live outside the file (queues, gossip, engine,
    timestamp cache, metrics) are recorded as [Event]s in a trace, in
    program order; what those collaborators answer is read from an
    environment record [Env]. *)

From Stdlib Require Import ZArith Bool Lia.
From stdpp Require Import base tactics option list gmap strings.

Local Open Scope string_scope.
Local Open Scope Z_scope.
Local Open Scope list_scope.

(** ** Types declared in other packages *)

Module hlc.

(** Modelled from the spec: [hlc.Timestamp] and its [Forward] method are
    declared in pkg/util/hlc, outside the file.  The spec calls the
    thresholds "monotonic watermarks (accumulable via forward-only
    max)"; a timestamp is a wall time with a logical tie breaker,
    ordered lexicographically. *)
Record Timestamp := mkTimestamp { WallTime : Z; Logical : Z }.

Definition ZeroTimestamp : Timestamp := mkTimestamp 0 0.

Definition Less (t s : Timestamp) : bool :=
  (WallTime t <? WallTime s)
  || ((WallTime t =? WallTime s) && (Logical t <? Logical s)).

(** [t.Forward(s)]: replace [t] by [s] if that moves it forward. *)
Definition Forward (t s : Timestamp) : Timestamp :=
  if Less t s then s else t.

#[global] Instance Timestamp_eq_dec : EqDecision Timestamp.
Proof. solve_decision. Defined.

End hlc.

Module enginepb.

(** Go's int64 addition wraps around. *)
Definition wrap64 (z : Z) : Z := (z + 2 ^ 63) mod 2 ^ 64 - 2 ^ 63.

(** Modelled from the spec: [enginepb.MVCCStats] and its [Add] method are
    declared in pkg/storage/engine/enginepb, outside the file.  The spec
    describes a statistics record that is "accumulable, additive" and
    carries a "contains estimates" flag; the counters below stand for
    the byte and key counters of the real struct. *)
Record MVCCStats := mkMVCCStats {
  ContainsEstimates : bool;
  LiveBytes : Z;
  KeyBytes : Z;
  ValBytes : Z;
  IntentBytes : Z;
  SysBytes : Z
}.

Definition MVCCStats_zero : MVCCStats := mkMVCCStats false 0 0 0 0 0.

(** [ms.Add(oms)]: counters add up, the sum contains estimates if either
    side does. *)
Definition Add (ms oms : MVCCStats) : MVCCStats :=
  {| ContainsEstimates := ContainsEstimates ms || ContainsEstimates oms;
     LiveBytes := wrap64 (LiveBytes ms + LiveBytes oms);
     KeyBytes := wrap64 (KeyBytes ms + KeyBytes oms);
     ValBytes := wrap64 (ValBytes ms + ValBytes oms);
     IntentBytes := wrap64 (IntentBytes ms + IntentBytes oms);
     SysBytes := wrap64 (SysBytes ms + SysBytes oms) |}.

Definition set_ContainsEstimates (b : bool) (ms : MVCCStats) : MVCCStats :=
  {| ContainsEstimates := b;
     LiveBytes := LiveBytes ms; KeyBytes := KeyBytes ms;
     ValBytes := ValBytes ms; IntentBytes := IntentBytes ms;
     SysBytes := SysBytes ms |}.

#[global] Instance MVCCStats_eq_dec : EqDecision MVCCStats.
Proof. solve_decision. Defined.

End enginepb.

Module roachpb.

(** The records of pkg/roachpb that the file reads fields of.  Only the
    fields the file touches (and enough others to tell values apart)
    are kept. *)
Record ReplicaDescriptor := mkReplicaDescriptor {
  NodeID : Z; StoreID : Z; ReplicaID : Z
}.

Definition ReplicaDescriptor_zero : ReplicaDescriptor :=
  mkReplicaDescriptor 0 0 0.

Record RangeDescriptor := mkRangeDescriptor {
  RangeID : Z; StartKey : string; EndKey : string
}.

Record Lease := mkLease {
  Start : hlc.Timestamp;
  Expiration : hlc.Timestamp;
  Replica : ReplicaDescriptor
}.

Record RaftTruncatedState := mkRaftTruncatedState { Index : Z; Term : Z }.

Record Span := mkSpan { Key : string; SpanEndKey : string }.

Record ComputeChecksumRequest := mkComputeChecksumRequest {
  ChecksumID : Z;      (* uuid.UUID *)
  Snapshot : bool
}.

Inductive ReplicaChangeType := ADD_REPLICA | REMOVE_REPLICA.

Record SplitTrigger := mkSplitTrigger {
  LeftDesc : RangeDescriptor; RightDesc : RangeDescriptor
}.

(** [*roachpb.Error], [*roachpb.BatchResponse], [*roachpb.BatchRequest]
    are only ever compared with nil here; their contents are a text. *)
Definition Error := string.
Definition BatchResponse := string.
Definition BatchRequest := string.

#[global] Instance ReplicaDescriptor_eq_dec : EqDecision ReplicaDescriptor.
Proof. solve_decision. Defined.
#[global] Instance RangeDescriptor_eq_dec : EqDecision RangeDescriptor.
Proof. solve_decision. Defined.
#[global] Instance Lease_eq_dec : EqDecision Lease.
Proof. solve_decision. Defined.
#[global] Instance RaftTruncatedState_eq_dec : EqDecision RaftTruncatedState.
Proof. solve_decision. Defined.
#[global] Instance Span_eq_dec : EqDecision Span.
Proof. solve_decision. Defined.
#[global] Instance ComputeChecksumRequest_eq_dec :
  EqDecision ComputeChecksumRequest.
Proof. solve_decision. Defined.
#[global] Instance ReplicaChangeType_eq_dec : EqDecision ReplicaChangeType.
Proof. solve_decision. Defined.
#[global] Instance SplitTrigger_eq_dec : EqDecision SplitTrigger.
Proof. solve_decision. Defined.

End roachpb.

Module storagebase.

Definition CmdIDKey := string.

Inductive ReplicaState_FrozenEnum :=
| ReplicaState_FROZEN_UNSPECIFIED
| ReplicaState_FROZEN
| ReplicaState_UNFROZEN.

(** Modelled from the spec: [storagebase.ReplicaState] is declared in
    pkg/storage/storagebase, outside the file; its fields are those the
    file reads and writes, which are the ones the spec lists for the
    replicated part. *)
Record ReplicaState := mkReplicaState {
  RaftAppliedIndex : Z;                               (* uint64 *)
  LeaseAppliedIndex : Z;                              (* uint64 *)
  Desc : option roachpb.RangeDescriptor;
  Lease : option roachpb.Lease;
  TruncatedState : option roachpb.RaftTruncatedState;
  GCThreshold : hlc.Timestamp;
  Stats : enginepb.MVCCStats;
  Frozen : ReplicaState_FrozenEnum;
  TxnSpanGCThreshold : hlc.Timestamp
}.

(** [storagebase.Split]: the split trigger and the statistics of the new
    right-hand side.  (The type is called [Split_] because the field of
    [ReplicatedEvalResult] holding it is called [Split]; likewise
    [Merge_] and [ChangeReplicas_].) *)
Record Split_ := mkSplit {
  SplitTrigger : roachpb.SplitTrigger;
  RHSDelta : enginepb.MVCCStats
}.

Record Merge_ := mkMerge {
  LeftDesc : roachpb.RangeDescriptor;
  RightDesc : roachpb.RangeDescriptor
}.

Record ChangeReplicas_ := mkChangeReplicas {
  ChangeType : roachpb.ReplicaChangeType;
  Replica : roachpb.ReplicaDescriptor
}.

(** Modelled from the spec: [storagebase.ReplicatedEvalResult] is declared
    in pkg/storage/storagebase, outside the file; the fields are those
    the file handles (delta, state, blockReads, split, merge,
    changeReplicas, computeChecksum and the four markers that
    [handleReplicatedEvalResult] zeroes first). *)
Record ReplicatedEvalResult := mkReplicatedEvalResult {
  BlockReads : bool;
  State : ReplicaState;
  Split : option Split_;
  Merge : option Merge_;
  ComputeChecksum : option roachpb.ComputeChecksumRequest;
  IsLeaseRequest : bool;
  IsFreeze : bool;
  Timestamp : hlc.Timestamp;
  IsConsistencyRelated : bool;
  Delta : enginepb.MVCCStats;
  ChangeReplicas : option ChangeReplicas_
}.

(** [storagebase.WriteBatch]: the serialized batch. *)
Definition WriteBatch := string.

Definition ReplicaState_zero : ReplicaState :=
  {| RaftAppliedIndex := 0; LeaseAppliedIndex := 0; Desc := None;
     Lease := None; TruncatedState := None;
     GCThreshold := hlc.ZeroTimestamp;
     Stats := enginepb.MVCCStats_zero;
     Frozen := ReplicaState_FROZEN_UNSPECIFIED;
     TxnSpanGCThreshold := hlc.ZeroTimestamp |}.

Definition ReplicatedEvalResult_zero : ReplicatedEvalResult :=
  {| BlockReads := false; State := ReplicaState_zero; Split := None;
     Merge := None; ComputeChecksum := None; IsLeaseRequest := false;
     IsFreeze := false; Timestamp := hlc.ZeroTimestamp;
     IsConsistencyRelated := false; Delta := enginepb.MVCCStats_zero;
     ChangeReplicas := None |}.

#[global] Instance FrozenEnum_eq_dec : EqDecision ReplicaState_FrozenEnum.
Proof. solve_decision. Defined.
#[global] Instance ReplicaState_eq_dec : EqDecision ReplicaState.
Proof. solve_decision. Defined.
#[global] Instance Split_eq_dec : EqDecision Split_.
Proof. solve_decision. Defined.
#[global] Instance Merge_eq_dec : EqDecision Merge_.
Proof. solve_decision. Defined.
#[global] Instance ChangeReplicas_eq_dec : EqDecision ChangeReplicas_.
Proof. solve_decision. Defined.
#[global] Instance ReplicatedEvalResult_eq_dec :
  EqDecision ReplicatedEvalResult.
Proof. solve_decision. Defined.

(** Field assignments [s.F = v]. *)
Definition set_RaftAppliedIndex v (s : ReplicaState) : ReplicaState :=
  {| RaftAppliedIndex := v; LeaseAppliedIndex := LeaseAppliedIndex s;
     Desc := Desc s; Lease := Lease s; TruncatedState := TruncatedState s;
     GCThreshold := GCThreshold s; Stats := Stats s; Frozen := Frozen s;
     TxnSpanGCThreshold := TxnSpanGCThreshold s |}.
Definition set_LeaseAppliedIndex v (s : ReplicaState) : ReplicaState :=
  {| RaftAppliedIndex := RaftAppliedIndex s; LeaseAppliedIndex := v;
     Desc := Desc s; Lease := Lease s; TruncatedState := TruncatedState s;
     GCThreshold := GCThreshold s; Stats := Stats s; Frozen := Frozen s;
     TxnSpanGCThreshold := TxnSpanGCThreshold s |}.
Definition set_Desc v (s : ReplicaState) : ReplicaState :=
  {| RaftAppliedIndex := RaftAppliedIndex s;
     LeaseAppliedIndex := LeaseAppliedIndex s; Desc := v; Lease := Lease s;
     TruncatedState := TruncatedState s; GCThreshold := GCThreshold s;
     Stats := Stats s; Frozen := Frozen s;
     TxnSpanGCThreshold := TxnSpanGCThreshold s |}.
Definition set_Lease v (s : ReplicaState) : ReplicaState :=
  {| RaftAppliedIndex := RaftAppliedIndex s;
     LeaseAppliedIndex := LeaseAppliedIndex s; Desc := Desc s; Lease := v;
     TruncatedState := TruncatedState s; GCThreshold := GCThreshold s;
     Stats := Stats s; Frozen := Frozen s;
     TxnSpanGCThreshold := TxnSpanGCThreshold s |}.
Definition set_TruncatedState v (s : ReplicaState) : ReplicaState :=
  {| RaftAppliedIndex := RaftAppliedIndex s;
     LeaseAppliedIndex := LeaseAppliedIndex s; Desc := Desc s;
     Lease := Lease s; TruncatedState := v; GCThreshold := GCThreshold s;
     Stats := Stats s; Frozen := Frozen s;
     TxnSpanGCThreshold := TxnSpanGCThreshold s |}.
Definition set_GCThreshold v (s : ReplicaState) : ReplicaState :=
  {| RaftAppliedIndex := RaftAppliedIndex s;
     LeaseAppliedIndex := LeaseAppliedIndex s; Desc := Desc s;
     Lease := Lease s; TruncatedState := TruncatedState s; GCThreshold := v;
     Stats := Stats s; Frozen := Frozen s;
     TxnSpanGCThreshold := TxnSpanGCThreshold s |}.
Definition set_Stats v (s : ReplicaState) : ReplicaState :=
  {| RaftAppliedIndex := RaftAppliedIndex s;
     LeaseAppliedIndex := LeaseAppliedIndex s; Desc := Desc s;
     Lease := Lease s; TruncatedState := TruncatedState s;
     GCThreshold := GCThreshold s; Stats := v; Frozen := Frozen s;
     TxnSpanGCThreshold := TxnSpanGCThreshold s |}.
Definition set_Frozen v (s : ReplicaState) : ReplicaState :=
  {| RaftAppliedIndex := RaftAppliedIndex s;
     LeaseAppliedIndex := LeaseAppliedIndex s; Desc := Desc s;
     Lease := Lease s; TruncatedState := TruncatedState s;
     GCThreshold := GCThreshold s; Stats := Stats s; Frozen := v;
     TxnSpanGCThreshold := TxnSpanGCThreshold s |}.
Definition set_TxnSpanGCThreshold v (s : ReplicaState) : ReplicaState :=
  {| RaftAppliedIndex := RaftAppliedIndex s;
     LeaseAppliedIndex := LeaseAppliedIndex s; Desc := Desc s;
     Lease := Lease s; TruncatedState := TruncatedState s;
     GCThreshold := GCThreshold s; Stats := Stats s; Frozen := Frozen s;
     TxnSpanGCThreshold := v |}.

Definition set_BlockReads v (r : ReplicatedEvalResult) : ReplicatedEvalResult :=
  {| BlockReads := v; State := State r; Split := Split r; Merge := Merge r;
     ComputeChecksum := ComputeChecksum r;
     IsLeaseRequest := IsLeaseRequest r; IsFreeze := IsFreeze r;
     Timestamp := Timestamp r;
     IsConsistencyRelated := IsConsistencyRelated r; Delta := Delta r;
     ChangeReplicas := ChangeReplicas r |}.
Definition set_State v (r : ReplicatedEvalResult) : ReplicatedEvalResult :=
  {| BlockReads := BlockReads r; State := v; Split := Split r;
     Merge := Merge r; ComputeChecksum := ComputeChecksum r;
     IsLeaseRequest := IsLeaseRequest r; IsFreeze := IsFreeze r;
     Timestamp := Timestamp r;
     IsConsistencyRelated := IsConsistencyRelated r; Delta := Delta r;
     ChangeReplicas := ChangeReplicas r |}.
Definition set_Split v (r : ReplicatedEvalResult) : ReplicatedEvalResult :=
  {| BlockReads := BlockReads r; State := State r; Split := v;
     Merge := Merge r; ComputeChecksum := ComputeChecksum r;
     IsLeaseRequest := IsLeaseRequest r; IsFreeze := IsFreeze r;
     Timestamp := Timestamp r;
     IsConsistencyRelated := IsConsistencyRelated r; Delta := Delta r;
     ChangeReplicas := ChangeReplicas r |}.
Definition set_Merge v (r : ReplicatedEvalResult) : ReplicatedEvalResult :=
  {| BlockReads := BlockReads r; State := State r; Split := Split r;
     Merge := v; ComputeChecksum := ComputeChecksum r;
     IsLeaseRequest := IsLeaseRequest r; IsFreeze := IsFreeze r;
     Timestamp := Timestamp r;
     IsConsistencyRelated := IsConsistencyRelated r; Delta := Delta r;
     ChangeReplicas := ChangeReplicas r |}.
Definition set_ComputeChecksum v (r : ReplicatedEvalResult) : ReplicatedEvalResult :=
  {| BlockReads := BlockReads r; State := State r; Split := Split r;
     Merge := Merge r; ComputeChecksum := v;
     IsLeaseRequest := IsLeaseRequest r; IsFreeze := IsFreeze r;
     Timestamp := Timestamp r;
     IsConsistencyRelated := IsConsistencyRelated r; Delta := Delta r;
     ChangeReplicas := ChangeReplicas r |}.
Definition set_IsLeaseRequest v (r : ReplicatedEvalResult) : ReplicatedEvalResult :=
  {| BlockReads := BlockReads r; State := State r; Split := Split r;
     Merge := Merge r; ComputeChecksum := ComputeChecksum r;
     IsLeaseRequest := v; IsFreeze := IsFreeze r; Timestamp := Timestamp r;
     IsConsistencyRelated := IsConsistencyRelated r; Delta := Delta r;
     ChangeReplicas := ChangeReplicas r |}.
Definition set_IsFreeze v (r : ReplicatedEvalResult) : ReplicatedEvalResult :=
  {| BlockReads := BlockReads r; State := State r; Split := Split r;
     Merge := Merge r; ComputeChecksum := ComputeChecksum r;
     IsLeaseRequest := IsLeaseRequest r; IsFreeze := v;
     Timestamp := Timestamp r;
     IsConsistencyRelated := IsConsistencyRelated r; Delta := Delta r;
     ChangeReplicas := ChangeReplicas r |}.
Definition set_Timestamp v (r : ReplicatedEvalResult) : ReplicatedEvalResult :=
  {| BlockReads := BlockReads r; State := State r; Split := Split r;
     Merge := Merge r; ComputeChecksum := ComputeChecksum r;
     IsLeaseRequest := IsLeaseRequest r; IsFreeze := IsFreeze r;
     Timestamp := v; IsConsistencyRelated := IsConsistencyRelated r;
     Delta := Delta r; ChangeReplicas := ChangeReplicas r |}.
Definition set_IsConsistencyRelated v (r : ReplicatedEvalResult) : ReplicatedEvalResult :=
  {| BlockReads := BlockReads r; State := State r; Split := Split r;
     Merge := Merge r; ComputeChecksum := ComputeChecksum r;
     IsLeaseRequest := IsLeaseRequest r; IsFreeze := IsFreeze r;
     Timestamp := Timestamp r; IsConsistencyRelated := v; Delta := Delta r;
     ChangeReplicas := ChangeReplicas r |}.
Definition set_Delta v (r : ReplicatedEvalResult) : ReplicatedEvalResult :=
  {| BlockReads := BlockReads r; State := State r; Split := Split r;
     Merge := Merge r; ComputeChecksum := ComputeChecksum r;
     IsLeaseRequest := IsLeaseRequest r; IsFreeze := IsFreeze r;
     Timestamp := Timestamp r;
     IsConsistencyRelated := IsConsistencyRelated r; Delta := v;
     ChangeReplicas := ChangeReplicas r |}.
Definition set_ChangeReplicas v (r : ReplicatedEvalResult) : ReplicatedEvalResult :=
  {| BlockReads := BlockReads r; State := State r; Split := Split r;
     Merge := Merge r; ComputeChecksum := ComputeChecksum r;
     IsLeaseRequest := IsLeaseRequest r; IsFreeze := IsFreeze r;
     Timestamp := Timestamp r;
     IsConsistencyRelated := IsConsistencyRelated r; Delta := Delta r;
     ChangeReplicas := v |}.
End storagebase.

Import storagebase.


(** ** The evaluation results *)

(** [intentsWithArg] is declared next to the intent resolver: the request
    that ran into the intents, and the intents. *)
Record intentsWithArg := mkIntentsWithArg {
  args : string;
  intentSpans : list roachpb.Span
}.

#[global] Instance intentsWithArg_eq_dec : EqDecision intentsWithArg.
Proof. solve_decision. Defined.

(** [LocalEvalResult]: data of a proposal that matters only on the node
    that proposed the command.  [ctx], [endCmds], [doneCh] and [Batch]
    are references (an interface, a pointer, a channel, an interface);
    the number stands for the object referred to. *)
Record LocalEvalResult := mkLocalEvalResult {
  idKey : storagebase.CmdIDKey;
  proposedAtTicks : Z;
  ctx : option Z;
  Err : option roachpb.Error;
  Reply : option roachpb.BatchResponse;
  endCmds : option Z;
  doneCh : option Z;
  Batch : option Z;
  raftLogSize : option Z;
  intents : option (list intentsWithArg);
  leaseMetricsResult : option bool;
  gossipFirstRange : bool;
  maybeGossipSystemConfig : bool;
  maybeAddToSplitQueue : bool;
  maybeGossipNodeLiveness : option roachpb.Span
}.

(** [EvalResult].  The two embedded structs are the fields [Local] and
    [Replicated]. *)
Record EvalResult := mkEvalResult {
  Local : LocalEvalResult;
  MaxLeaseIndex : Z;
  OriginReplica : roachpb.ReplicaDescriptor;
  Request : option roachpb.BatchRequest;
  Replicated : ReplicatedEvalResult;
  WriteBatch : option storagebase.WriteBatch
}.

Definition LocalEvalResult_zero : LocalEvalResult :=
  {| idKey := ""; proposedAtTicks := 0; ctx := None; Err := None;
     Reply := None; endCmds := None; doneCh := None; Batch := None;
     raftLogSize := None; intents := None; leaseMetricsResult := None;
     gossipFirstRange := false; maybeGossipSystemConfig := false;
     maybeAddToSplitQueue := false; maybeGossipNodeLiveness := None |}.

Definition EvalResult_zero : EvalResult :=
  {| Local := LocalEvalResult_zero; MaxLeaseIndex := 0;
     OriginReplica := roachpb.ReplicaDescriptor_zero; Request := None;
     Replicated := ReplicatedEvalResult_zero; WriteBatch := None |}.

#[global] Instance LocalEvalResult_eq_dec : EqDecision LocalEvalResult.
Proof. solve_decision. Defined.
#[global] Instance EvalResult_eq_dec : EqDecision EvalResult.
Proof. solve_decision. Defined.

Definition set_idKey v (l : LocalEvalResult) : LocalEvalResult :=
  {| idKey := v; proposedAtTicks := proposedAtTicks l; ctx := ctx l;
     Err := Err l; Reply := Reply l; endCmds := endCmds l;
     doneCh := doneCh l; Batch := Batch l; raftLogSize := raftLogSize l;
     intents := intents l; leaseMetricsResult := leaseMetricsResult l;
     gossipFirstRange := gossipFirstRange l;
     maybeGossipSystemConfig := maybeGossipSystemConfig l;
     maybeAddToSplitQueue := maybeAddToSplitQueue l;
     maybeGossipNodeLiveness := maybeGossipNodeLiveness l |}.
Definition set_proposedAtTicks v (l : LocalEvalResult) : LocalEvalResult :=
  {| idKey := idKey l; proposedAtTicks := v; ctx := ctx l; Err := Err l;
     Reply := Reply l; endCmds := endCmds l; doneCh := doneCh l;
     Batch := Batch l; raftLogSize := raftLogSize l; intents := intents l;
     leaseMetricsResult := leaseMetricsResult l;
     gossipFirstRange := gossipFirstRange l;
     maybeGossipSystemConfig := maybeGossipSystemConfig l;
     maybeAddToSplitQueue := maybeAddToSplitQueue l;
     maybeGossipNodeLiveness := maybeGossipNodeLiveness l |}.
Definition set_ctx v (l : LocalEvalResult) : LocalEvalResult :=
  {| idKey := idKey l; proposedAtTicks := proposedAtTicks l; ctx := v;
     Err := Err l; Reply := Reply l; endCmds := endCmds l;
     doneCh := doneCh l; Batch := Batch l; raftLogSize := raftLogSize l;
     intents := intents l; leaseMetricsResult := leaseMetricsResult l;
     gossipFirstRange := gossipFirstRange l;
     maybeGossipSystemConfig := maybeGossipSystemConfig l;
     maybeAddToSplitQueue := maybeAddToSplitQueue l;
     maybeGossipNodeLiveness := maybeGossipNodeLiveness l |}.
Definition set_Err v (l : LocalEvalResult) : LocalEvalResult :=
  {| idKey := idKey l; proposedAtTicks := proposedAtTicks l; ctx := ctx l;
     Err := v; Reply := Reply l; endCmds := endCmds l; doneCh := doneCh l;
     Batch := Batch l; raftLogSize := raftLogSize l; intents := intents l;
     leaseMetricsResult := leaseMetricsResult l;
     gossipFirstRange := gossipFirstRange l;
     maybeGossipSystemConfig := maybeGossipSystemConfig l;
     maybeAddToSplitQueue := maybeAddToSplitQueue l;
     maybeGossipNodeLiveness := maybeGossipNodeLiveness l |}.
Definition set_Reply v (l : LocalEvalResult) : LocalEvalResult :=
  {| idKey := idKey l; proposedAtTicks := proposedAtTicks l; ctx := ctx l;
     Err := Err l; Reply := v; endCmds := endCmds l; doneCh := doneCh l;
     Batch := Batch l; raftLogSize := raftLogSize l; intents := intents l;
     leaseMetricsResult := leaseMetricsResult l;
     gossipFirstRange := gossipFirstRange l;
     maybeGossipSystemConfig := maybeGossipSystemConfig l;
     maybeAddToSplitQueue := maybeAddToSplitQueue l;
     maybeGossipNodeLiveness := maybeGossipNodeLiveness l |}.
Definition set_endCmds v (l : LocalEvalResult) : LocalEvalResult :=
  {| idKey := idKey l; proposedAtTicks := proposedAtTicks l; ctx := ctx l;
     Err := Err l; Reply := Reply l; endCmds := v; doneCh := doneCh l;
     Batch := Batch l; raftLogSize := raftLogSize l; intents := intents l;
     leaseMetricsResult := leaseMetricsResult l;
     gossipFirstRange := gossipFirstRange l;
     maybeGossipSystemConfig := maybeGossipSystemConfig l;
     maybeAddToSplitQueue := maybeAddToSplitQueue l;
     maybeGossipNodeLiveness := maybeGossipNodeLiveness l |}.
Definition set_doneCh v (l : LocalEvalResult) : LocalEvalResult :=
  {| idKey := idKey l; proposedAtTicks := proposedAtTicks l; ctx := ctx l;
     Err := Err l; Reply := Reply l; endCmds := endCmds l; doneCh := v;
     Batch := Batch l; raftLogSize := raftLogSize l; intents := intents l;
     leaseMetricsResult := leaseMetricsResult l;
     gossipFirstRange := gossipFirstRange l;
     maybeGossipSystemConfig := maybeGossipSystemConfig l;
     maybeAddToSplitQueue := maybeAddToSplitQueue l;
     maybeGossipNodeLiveness := maybeGossipNodeLiveness l |}.
Definition set_Batch v (l : LocalEvalResult) : LocalEvalResult :=
  {| idKey := idKey l; proposedAtTicks := proposedAtTicks l; ctx := ctx l;
     Err := Err l; Reply := Reply l; endCmds := endCmds l;
     doneCh := doneCh l; Batch := v; raftLogSize := raftLogSize l;
     intents := intents l; leaseMetricsResult := leaseMetricsResult l;
     gossipFirstRange := gossipFirstRange l;
     maybeGossipSystemConfig := maybeGossipSystemConfig l;
     maybeAddToSplitQueue := maybeAddToSplitQueue l;
     maybeGossipNodeLiveness := maybeGossipNodeLiveness l |}.
Definition set_raftLogSize v (l : LocalEvalResult) : LocalEvalResult :=
  {| idKey := idKey l; proposedAtTicks := proposedAtTicks l; ctx := ctx l;
     Err := Err l; Reply := Reply l; endCmds := endCmds l;
     doneCh := doneCh l; Batch := Batch l; raftLogSize := v;
     intents := intents l; leaseMetricsResult := leaseMetricsResult l;
     gossipFirstRange := gossipFirstRange l;
     maybeGossipSystemConfig := maybeGossipSystemConfig l;
     maybeAddToSplitQueue := maybeAddToSplitQueue l;
     maybeGossipNodeLiveness := maybeGossipNodeLiveness l |}.
Definition set_intents v (l : LocalEvalResult) : LocalEvalResult :=
  {| idKey := idKey l; proposedAtTicks := proposedAtTicks l; ctx := ctx l;
     Err := Err l; Reply := Reply l; endCmds := endCmds l;
     doneCh := doneCh l; Batch := Batch l; raftLogSize := raftLogSize l;
     intents := v; leaseMetricsResult := leaseMetricsResult l;
     gossipFirstRange := gossipFirstRange l;
     maybeGossipSystemConfig := maybeGossipSystemConfig l;
     maybeAddToSplitQueue := maybeAddToSplitQueue l;
     maybeGossipNodeLiveness := maybeGossipNodeLiveness l |}.
Definition set_leaseMetricsResult v (l : LocalEvalResult) : LocalEvalResult :=
  {| idKey := idKey l; proposedAtTicks := proposedAtTicks l; ctx := ctx l;
     Err := Err l; Reply := Reply l; endCmds := endCmds l;
     doneCh := doneCh l; Batch := Batch l; raftLogSize := raftLogSize l;
     intents := intents l; leaseMetricsResult := v;
     gossipFirstRange := gossipFirstRange l;
     maybeGossipSystemConfig := maybeGossipSystemConfig l;
     maybeAddToSplitQueue := maybeAddToSplitQueue l;
     maybeGossipNodeLiveness := maybeGossipNodeLiveness l |}.
Definition set_gossipFirstRange v (l : LocalEvalResult) : LocalEvalResult :=
  {| idKey := idKey l; proposedAtTicks := proposedAtTicks l; ctx := ctx l;
     Err := Err l; Reply := Reply l; endCmds := endCmds l;
     doneCh := doneCh l; Batch := Batch l; raftLogSize := raftLogSize l;
     intents := intents l; leaseMetricsResult := leaseMetricsResult l;
     gossipFirstRange := v;
     maybeGossipSystemConfig := maybeGossipSystemConfig l;
     maybeAddToSplitQueue := maybeAddToSplitQueue l;
     maybeGossipNodeLiveness := maybeGossipNodeLiveness l |}.
Definition set_maybeGossipSystemConfig v (l : LocalEvalResult) : LocalEvalResult :=
  {| idKey := idKey l; proposedAtTicks := proposedAtTicks l; ctx := ctx l;
     Err := Err l; Reply := Reply l; endCmds := endCmds l;
     doneCh := doneCh l; Batch := Batch l; raftLogSize := raftLogSize l;
     intents := intents l; leaseMetricsResult := leaseMetricsResult l;
     gossipFirstRange := gossipFirstRange l; maybeGossipSystemConfig := v;
     maybeAddToSplitQueue := maybeAddToSplitQueue l;
     maybeGossipNodeLiveness := maybeGossipNodeLiveness l |}.
Definition set_maybeAddToSplitQueue v (l : LocalEvalResult) : LocalEvalResult :=
  {| idKey := idKey l; proposedAtTicks := proposedAtTicks l; ctx := ctx l;
     Err := Err l; Reply := Reply l; endCmds := endCmds l;
     doneCh := doneCh l; Batch := Batch l; raftLogSize := raftLogSize l;
     intents := intents l; leaseMetricsResult := leaseMetricsResult l;
     gossipFirstRange := gossipFirstRange l;
     maybeGossipSystemConfig := maybeGossipSystemConfig l;
     maybeAddToSplitQueue := v;
     maybeGossipNodeLiveness := maybeGossipNodeLiveness l |}.
Definition set_maybeGossipNodeLiveness v (l : LocalEvalResult) : LocalEvalResult :=
  {| idKey := idKey l; proposedAtTicks := proposedAtTicks l; ctx := ctx l;
     Err := Err l; Reply := Reply l; endCmds := endCmds l;
     doneCh := doneCh l; Batch := Batch l; raftLogSize := raftLogSize l;
     intents := intents l; leaseMetricsResult := leaseMetricsResult l;
     gossipFirstRange := gossipFirstRange l;
     maybeGossipSystemConfig := maybeGossipSystemConfig l;
     maybeAddToSplitQueue := maybeAddToSplitQueue l;
     maybeGossipNodeLiveness := v |}.

Definition set_Local v (e : EvalResult) : EvalResult :=
  {| Local := v; MaxLeaseIndex := MaxLeaseIndex e;
     OriginReplica := OriginReplica e; Request := Request e;
     Replicated := Replicated e; WriteBatch := WriteBatch e |}.
Definition set_MaxLeaseIndex v (e : EvalResult) : EvalResult :=
  {| Local := Local e; MaxLeaseIndex := v; OriginReplica := OriginReplica e;
     Request := Request e; Replicated := Replicated e;
     WriteBatch := WriteBatch e |}.
Definition set_OriginReplica v (e : EvalResult) : EvalResult :=
  {| Local := Local e; MaxLeaseIndex := MaxLeaseIndex e; OriginReplica := v;
     Request := Request e; Replicated := Replicated e;
     WriteBatch := WriteBatch e |}.
Definition set_Request v (e : EvalResult) : EvalResult :=
  {| Local := Local e; MaxLeaseIndex := MaxLeaseIndex e;
     OriginReplica := OriginReplica e; Request := v;
     Replicated := Replicated e; WriteBatch := WriteBatch e |}.
Definition set_Replicated v (e : EvalResult) : EvalResult :=
  {| Local := Local e; MaxLeaseIndex := MaxLeaseIndex e;
     OriginReplica := OriginReplica e; Request := Request e; Replicated := v;
     WriteBatch := WriteBatch e |}.
Definition set_WriteBatch v (e : EvalResult) : EvalResult :=
  {| Local := Local e; MaxLeaseIndex := MaxLeaseIndex e;
     OriginReplica := OriginReplica e; Request := Request e;
     Replicated := Replicated e; WriteBatch := v |}.


(** Assignments through the embedded structs: [e.State.F = v],
    [e.F = v] for a replicated field, [e.f = v] for a local one. *)
Definition on_Replicated (f : ReplicatedEvalResult → ReplicatedEvalResult)
    (e : EvalResult) : EvalResult :=
  set_Replicated (f (Replicated e)) e.

Definition on_State (f : ReplicaState → ReplicaState) (e : EvalResult)
    : EvalResult :=
  on_Replicated (λ r, set_State (f (State r)) r) e.

Definition on_Local (f : LocalEvalResult → LocalEvalResult) (e : EvalResult)
    : EvalResult :=
  set_Local (f (Local e)) e.

Definition state_of (e : EvalResult) : ReplicaState := State (Replicated e).

(** ** MergeAndDestroy *)

(** [coalesceBool] ORs rhs into lhs and then zeroes rhs; the pair is the
    new contents of the two pointed-to booleans. *)
Definition coalesceBool (lhs rhs : bool) : bool * bool := (lhs || rhs, false).

(** How a statement of [MergeAndDestroy] ends: control falls through to
    the next statement, the function returns, or [log.Fatalf] stops the
    process.  [p] is the receiver (mutated in place, so the caller sees it
    whatever the outcome), [q] the by-value argument as the function
    holds it. *)
Inductive MergeOutcome :=
| Continue (p q : EvalResult)
| Return (err : option string) (p q : EvalResult)
| Fatalf (msg : string) (p q : EvalResult).

Definition Stmt := EvalResult → EvalResult → MergeOutcome.

Definition seq (s t : Stmt) : Stmt :=
  λ p q, match s p q with
         | Continue p' q' => t p' q'
         | o => o
         end.

Notation "s ;;; t" := (seq s t) (at level 100, t at level 200,
                                 right associativity, only parsing).

(** [if c(q) { return errors.New(msg) }] *)
Definition reject_if (c : EvalResult → bool) (msg : string) : Stmt :=
  λ p q, if c q then Return (Some msg) p q else Continue p q.

(** The pattern used for every pointer-valued trigger [F]:
<<
    if p.F == nil { p.F = q.F } else if q.F != nil { return errors.New(msg) }
    q.F = nil
>> *)
Definition absorb {T : Type} (get : EvalResult → option T)
    (set : option T → EvalResult → EvalResult) (msg : string) : Stmt :=
  λ p q,
    match get p with
    | None => Continue (set (get q) p) (set None q)
    | Some _ =>
        match get q with
        | Some _ => Return (Some msg) p q
        | None => Continue p (set None q)
        end
    end.

(** The same pattern for the frozen status, whose unset value is
    [ReplicaState_FROZEN_UNSPECIFIED]. *)
Definition absorb_Frozen : Stmt :=
  λ p q,
    if decide (Frozen (state_of p) = ReplicaState_FROZEN_UNSPECIFIED) then
      Continue (on_State (set_Frozen (Frozen (state_of q))) p)
               (on_State (set_Frozen ReplicaState_FROZEN_UNSPECIFIED) q)
    else if decide (Frozen (state_of q) ≠ ReplicaState_FROZEN_UNSPECIFIED) then
      Return (Some "conflicting FrozenStatus") p q
    else
      Continue p (on_State (set_Frozen ReplicaState_FROZEN_UNSPECIFIED) q).

(** [p.State.T.Forward(q.State.T); q.State.T = hlc.ZeroTimestamp] *)
Definition forward (get : ReplicaState → hlc.Timestamp)
    (set : hlc.Timestamp → ReplicaState → ReplicaState) : Stmt :=
  λ p q,
    Continue (on_State (set (hlc.Forward (get (state_of p)) (get (state_of q)))) p)
             (on_State (set hlc.ZeroTimestamp) q).

(** [p.BlockReads = p.BlockReads || q.BlockReads; q.BlockReads = false] *)
Definition or_BlockReads : Stmt :=
  λ p q,
    Continue
      (on_Replicated
         (set_BlockReads (BlockReads (Replicated p) || BlockReads (Replicated q))) p)
      (on_Replicated (set_BlockReads false) q).

(** [coalesceBool(&p.f, &q.f)] *)
Definition coalesce (get : LocalEvalResult → bool)
    (set : bool → LocalEvalResult → LocalEvalResult) : Stmt :=
  λ p q,
    let '(lhs, rhs) := coalesceBool (get (Local p)) (get (Local q)) in
    Continue (on_Local (set lhs) p) (on_Local (set rhs) q).

(** The intents: the list of [q] is appended to the list [p] points to
    (or [p] takes over [q]'s pointer when it has none). *)
Definition append_intents : Stmt :=
  λ p q,
    let p' :=
      match intents (Local q) with
      | Some qi =>
          match intents (Local p) with
          | None => on_Local (set_intents (intents (Local q))) p
          | Some pi => on_Local (set_intents (Some (pi ++ qi)%list)) p
          end
      | None => p
      end in
    Continue p' (on_Local (set_intents None) q).

(** [if (q != EvalResult{}) { log.Fatalf(...) }; return nil] *)
Definition check_destroyed : Stmt :=
  λ p q,
    if decide (q ≠ EvalResult_zero) then Fatalf "unhandled EvalResult" p q
    else Return None p q.

Definition MergeAndDestroy : Stmt :=
  (* ReplicatedEvalResult. *)
  reject_if (λ q, negb (RaftAppliedIndex (state_of q) =? 0))
            "must not specify RaftApplyIndex" ;;;
  reject_if (λ q, negb (LeaseAppliedIndex (state_of q) =? 0))
            "must not specify RaftApplyIndex" ;;;
  absorb (λ e, Desc (state_of e)) (λ v, on_State (set_Desc v))
         "conflicting RangeDescriptor" ;;;
  absorb (λ e, Lease (state_of e)) (λ v, on_State (set_Lease v))
         "conflicting Lease" ;;;
  absorb (λ e, TruncatedState (state_of e))
         (λ v, on_State (set_TruncatedState v))
         "conflicting TruncatedState" ;;;
  forward GCThreshold set_GCThreshold ;;;
  forward TxnSpanGCThreshold set_TxnSpanGCThreshold ;;;
  reject_if (λ q, bool_decide (Stats (state_of q) ≠ enginepb.MVCCStats_zero))
            "must not specify Stats" ;;;
  absorb_Frozen ;;;
  or_BlockReads ;;;
  absorb (λ e, Split (Replicated e)) (λ v, on_Replicated (set_Split v))
         "conflicting Split" ;;;
  absorb (λ e, Merge (Replicated e)) (λ v, on_Replicated (set_Merge v))
         "conflicting Merge" ;;;
  absorb (λ e, ChangeReplicas (Replicated e))
         (λ v, on_Replicated (set_ChangeReplicas v))
         "conflicting ChangeReplicas" ;;;
  absorb (λ e, ComputeChecksum (Replicated e))
         (λ v, on_Replicated (set_ComputeChecksum v))
         "conflicting ComputeChecksum" ;;;
  (* LocalEvalResult. *)
  absorb (λ e, raftLogSize (Local e)) (λ v, on_Local (set_raftLogSize v))
         "conflicting raftLogSize" ;;;
  append_intents ;;;
  absorb (λ e, leaseMetricsResult (Local e))
         (λ v, on_Local (set_leaseMetricsResult v))
         "conflicting leaseMetricsResult" ;;;
  absorb (λ e, maybeGossipNodeLiveness (Local e))
         (λ v, on_Local (set_maybeGossipNodeLiveness v))
         "conflicting maybeGossipNodeLiveness" ;;;
  coalesce gossipFirstRange set_gossipFirstRange ;;;
  coalesce maybeGossipSystemConfig set_maybeGossipSystemConfig ;;;
  coalesce maybeAddToSplitQueue set_maybeAddToSplitQueue ;;;
  check_destroyed.

(** *** Sample records *)

Definition ex_desc : roachpb.RangeDescriptor :=
  roachpb.mkRangeDescriptor 7 "a" "m".

Definition ex_lease : roachpb.Lease :=
  roachpb.mkLease (hlc.mkTimestamp 100 0) (hlc.mkTimestamp 200 0)
                  (roachpb.mkReplicaDescriptor 1 1 1).

(** dst: a descriptor, a GC threshold at 5, one intent batch. *)
Definition ex_dst : EvalResult :=
  on_Local (set_intents (Some [mkIntentsWithArg "put" []]))
    (on_State (set_GCThreshold (hlc.mkTimestamp 5 0))
       (on_State (set_Desc (Some ex_desc)) EvalResult_zero)).

(** src: a lease, a GC threshold at 9, blockReads, one intent batch and
    the split-queue trigger. *)
Definition ex_src : EvalResult :=
  on_Local (set_maybeAddToSplitQueue true)
    (on_Local (set_intents (Some [mkIntentsWithArg "get" []]))
       (on_Replicated (set_BlockReads true)
          (on_State (set_GCThreshold (hlc.mkTimestamp 9 0))
             (on_State (set_Lease (Some ex_lease)) EvalResult_zero)))).

Definition ex_merged : EvalResult :=
  on_Local (set_maybeAddToSplitQueue true)
    (on_Local (set_intents
                 (Some [mkIntentsWithArg "put" []; mkIntentsWithArg "get" []]))
       (on_Replicated (set_BlockReads true)
          (on_State (set_GCThreshold (hlc.mkTimestamp 9 0))
             (on_State (set_Lease (Some ex_lease))
                (on_State (set_Desc (Some ex_desc)) EvalResult_zero))))).

(** *** Vocabulary for the merge properties *)

(** The mutually exclusive triggers, in the order in which
    [MergeAndDestroy] treats them. *)
Inductive Trigger :=
| TDesc | TLease | TTruncatedState | TFrozen | TSplit | TMerge
| TChangeReplicas | TComputeChecksum | TRaftLogSize | TLeaseMetricsResult
| TMaybeGossipNodeLiveness.

Definition non_nil {T : Type} (o : option T) : bool :=
  match o with Some _ => true | None => false end.

Definition frozen_set (f : ReplicaState_FrozenEnum) : bool :=
  match f with ReplicaState_FROZEN_UNSPECIFIED => false | _ => true end.

(** Whether a record sets a trigger. *)
Definition is_set (f : Trigger) (e : EvalResult) : bool :=
  match f with
  | TDesc => non_nil (Desc (state_of e))
  | TLease => non_nil (Lease (state_of e))
  | TTruncatedState => non_nil (TruncatedState (state_of e))
  | TFrozen => frozen_set (Frozen (state_of e))
  | TSplit => non_nil (Split (Replicated e))
  | TMerge => non_nil (Merge (Replicated e))
  | TChangeReplicas => non_nil (ChangeReplicas (Replicated e))
  | TComputeChecksum => non_nil (ComputeChecksum (Replicated e))
  | TRaftLogSize => non_nil (raftLogSize (Local e))
  | TLeaseMetricsResult => non_nil (leaseMetricsResult (Local e))
  | TMaybeGossipNodeLiveness => non_nil (maybeGossipNodeLiveness (Local e))
  end.

(** Both records set the trigger. *)
Definition conflicts (f : Trigger) (p q : EvalResult) : bool :=
  is_set f p && is_set f q.

(** The text of the error returned for a trigger set on both sides. *)
Definition conflict_msg (f : Trigger) : string :=
  match f with
  | TDesc => "conflicting RangeDescriptor"
  | TLease => "conflicting Lease"
  | TTruncatedState => "conflicting TruncatedState"
  | TFrozen => "conflicting FrozenStatus"
  | TSplit => "conflicting Split"
  | TMerge => "conflicting Merge"
  | TChangeReplicas => "conflicting ChangeReplicas"
  | TComputeChecksum => "conflicting ComputeChecksum"
  | TRaftLogSize => "conflicting raftLogSize"
  | TLeaseMetricsResult => "conflicting leaseMetricsResult"
  | TMaybeGossipNodeLiveness => "conflicting maybeGossipNodeLiveness"
  end.

(** Position of the trigger's statement among the trigger statements. *)
Definition rank (f : Trigger) : nat :=
  match f with
  | TDesc => 0 | TLease => 1 | TTruncatedState => 2 | TFrozen => 3
  | TSplit => 4 | TMerge => 5 | TChangeReplicas => 6
  | TComputeChecksum => 7 | TRaftLogSize => 8 | TLeaseMetricsResult => 9
  | TMaybeGossipNodeLiveness => 10
  end%nat.

(** The statistics check sits between the truncated state and the frozen
    status: it guards the triggers from [TFrozen] on. *)
Definition after_stats_check (f : Trigger) : bool := (3 <=? rank f)%nat.

(** [p'] holds the same value as [p] for the trigger. *)
Definition same_trigger (f : Trigger) (p p' : EvalResult) : Prop :=
  match f with
  | TDesc => Desc (state_of p') = Desc (state_of p)
  | TLease => Lease (state_of p') = Lease (state_of p)
  | TTruncatedState => TruncatedState (state_of p') = TruncatedState (state_of p)
  | TFrozen => Frozen (state_of p') = Frozen (state_of p)
  | TSplit => Split (Replicated p') = Split (Replicated p)
  | TMerge => Merge (Replicated p') = Merge (Replicated p)
  | TChangeReplicas => ChangeReplicas (Replicated p') = ChangeReplicas (Replicated p)
  | TComputeChecksum => ComputeChecksum (Replicated p') = ComputeChecksum (Replicated p)
  | TRaftLogSize => raftLogSize (Local p') = raftLogSize (Local p)
  | TLeaseMetricsResult => leaseMetricsResult (Local p') = leaseMetricsResult (Local p)
  | TMaybeGossipNodeLiveness =>
      maybeGossipNodeLiveness (Local p') = maybeGossipNodeLiveness (Local p)
  end.

(** The three checks on the merged-in record that come before or between
    the trigger statements. *)
Definition prechecks_pass (q : EvalResult) : bool :=
  (RaftAppliedIndex (state_of q) =? 0)
  && (LeaseAppliedIndex (state_of q) =? 0)
  && bool_decide (Stats (state_of q) = enginepb.MVCCStats_zero).

(** The fields of the merged-in record that no statement of
    [MergeAndDestroy] folds into the receiver are all zero. *)
Definition nothing_unmerged (q : EvalResult) : bool :=
  bool_decide (idKey (Local q) = "")
  && (proposedAtTicks (Local q) =? 0)
  && negb (non_nil (ctx (Local q)))
  && negb (non_nil (Err (Local q)))
  && negb (non_nil (Reply (Local q)))
  && negb (non_nil (endCmds (Local q)))
  && negb (non_nil (doneCh (Local q)))
  && negb (non_nil (Batch (Local q)))
  && (MaxLeaseIndex q =? 0)
  && bool_decide (OriginReplica q = roachpb.ReplicaDescriptor_zero)
  && negb (non_nil (Request q))
  && negb (non_nil (WriteBatch q))
  && negb (IsLeaseRequest (Replicated q))
  && negb (IsFreeze (Replicated q))
  && bool_decide (Timestamp (Replicated q) = hlc.ZeroTimestamp)
  && negb (IsConsistencyRelated (Replicated q))
  && bool_decide (Delta (Replicated q) = enginepb.MVCCStats_zero).

(** The contents of an intents pointer: nil points to nothing. *)
Definition intents_of (e : EvalResult) : list intentsWithArg :=
  default [] (intents (Local e)).

(** What the receiver holds for a pointer-valued trigger after a merge
    without conflict: its own value if it has one, else the other's. *)
Definition merge_opt {T : Type} (a b : option T) : option T :=
  match a with None => b | Some _ => a end.

Definition merge_Frozen (a b : ReplicaState_FrozenEnum)
    : ReplicaState_FrozenEnum :=
  match a with ReplicaState_FROZEN_UNSPECIFIED => b | _ => a end.

Definition merge_intents (a b : option (list intentsWithArg))
    : option (list intentsWithArg) :=
  match b with
  | Some qi => match a with None => b | Some pi => Some (pi ++ qi)%list end
  | None => a
  end.

(** src: nothing but a statistics delta. *)
Definition ex_delta_src : EvalResult :=
  on_Replicated
    (set_Delta (enginepb.mkMVCCStats false 10 0 0 0 0)) EvalResult_zero.

(** A lease on both sides, and an applied index on the merged-in side. *)
Definition ex_lease_dst : EvalResult :=
  on_State (set_Lease (Some ex_lease)) EvalResult_zero.

Definition ex_lease_src_indexed : EvalResult :=
  on_State (set_RaftAppliedIndex 1)
    (on_State (set_Lease (Some ex_lease)) EvalResult_zero).

(** ** The replica and its collaborators *)

(** [time.Time], in nanoseconds; 0 is the zero time. *)
Definition Time := Z.
Definition IsZero (t : Time) : bool := t =? 0.
(** [t.After(u)] *)
Definition After (t u : Time) : bool := u <? t.

(** Modelled from the spec: [replicaChecksum] is declared with the replica,
    outside the file.  The spec's checksum entry is "{id, started, digest,
    notify, gcDeadline}"; [notify] names the channel, [gcTimestamp] is
    valid only if set (non-zero). *)
Record replicaChecksum := mkReplicaChecksum {
  started : bool;
  checksum : option string;
  gcTimestamp : Time;
  notify : Z
}.

#[global] Instance replicaChecksum_eq_dec : EqDecision replicaChecksum.
Proof. solve_decision. Defined.

(** The part of [Replica] the file works on: [RangeID] and what sits
    under [r.mu]. *)
Record Replica := mkReplica {
  RangeID : Z;
  mu_state : ReplicaState;
  mu_replicaID : Z;
  mu_raftLogSize : Z;
  mu_checksums : gmap Z replicaChecksum
}.

Definition set_mu_state v (r : Replica) : Replica :=
  {| RangeID := RangeID r; mu_state := v; mu_replicaID := mu_replicaID r;
     mu_raftLogSize := mu_raftLogSize r; mu_checksums := mu_checksums r |}.
Definition set_mu_raftLogSize v (r : Replica) : Replica :=
  {| RangeID := RangeID r; mu_state := mu_state r;
     mu_replicaID := mu_replicaID r; mu_raftLogSize := v;
     mu_checksums := mu_checksums r |}.
Definition set_mu_checksums v (r : Replica) : Replica :=
  {| RangeID := RangeID r; mu_state := mu_state r;
     mu_replicaID := mu_replicaID r; mu_raftLogSize := mu_raftLogSize r;
     mu_checksums := v |}.

(** [r.mu.state.F = v] *)
Definition on_mu_state (f : ReplicaState → ReplicaState) (r : Replica)
    : Replica :=
  set_mu_state (f (mu_state r)) r.

(** Calls into collaborators, in the order they are made. *)
Inductive Event :=
| ReadOnlyCmdMu_Lock
| ReadOnlyCmdMu_Unlock
| Metrics_addMVCCStats (delta : enginepb.MVCCStats)
| RaftLogQueue_MaybeAdd (now : hlc.Timestamp)
| SplitQueue_MaybeAdd (now : hlc.Timestamp)
| SetMVCCStats (rangeID : Z) (stats : enginepb.MVCCStats)
| SplitPostApply (rhsDelta : enginepb.MVCCStats) (split : roachpb.SplitTrigger)
| Store_MergeRange (endKey : string) (rangeID : Z)
| SetDesc (desc : roachpb.RangeDescriptor)
| ReplicaGCQueue_Add
| TsCache_SetLowWater (t : hlc.Timestamp)
| TsCache_Clear (now : hlc.Timestamp)
| GossipFirstRange
| Raft_TransferLeader (target : Z)
| RaftEntryCache_clearTo (rangeID : Z) (index : Z)
| Store_NewSnapshot
| Snapshot_Close
| RunAsyncTask_sha512 (id : Z) (withSnapshot : bool)
                      (desc : roachpb.RangeDescriptor)
| Notify_Close (ch : Z)
| IntentResolver_processIntentsAsync (its : list intentsWithArg)
| RunAsyncTask_gossipFirstRange
| MaybeGossipSystemConfig
| Metrics_leaseRequestComplete (success : bool)
| MaybeGossipNodeLiveness (span : roachpb.Span)
| AssertState
| Log (msg : string).

#[global] Instance Event_eq_dec : EqDecision Event.
Proof. solve_decision. Defined.

(** What the collaborators answer during one call.  The clock is read
    once per call. *)
Record Env := mkEnv {
  store_StoreID : Z;
  clock_Now : hlc.Timestamp;
  timeutil_Now : Time;
  (** the constant of the raft log queue *)
  RaftLogQueueStaleThreshold : Z;
  needsSplitBySizeLocked : Replica → bool;
  setMVCCStats_fails : bool;
  MergeRange_fails : bool;
  setDesc_fails : bool;
  replicaGCQueue_Add_fails : bool;
  IsFirstRange : bool;
  (** [lease.Covers(ts)] *)
  Covers : roachpb.Lease → hlc.Timestamp → bool;
  isRaftLeader : bool;
  withRaftGroup_fails : bool;
  RunAsyncTask_fails : bool;
  (** the deadline [computeChecksumDone] gives a finished entry *)
  checksum_deadline : Time;
  assertState_diverged : bool
}.

(** The replica, the calls made so far, and the next fresh channel. *)
Record World := mkWorld {
  replica : Replica;
  trace : list Event;
  next_chan : Z
}.

(** A call ends normally with a value, or the process stops ([log.Fatal],
    or a nil dereference). *)
Inductive Result (A : Type) :=
| Done (a : A) (w : World)
| Fatal (msg : string) (w : World).
Arguments Done {A} a w.
Arguments Fatal {A} msg w.

Definition M (A : Type) : Type := World → Result A.

#[global] Instance M_ret : MRet M := λ A a w, Done a w.
#[global] Instance M_bind : MBind M :=
  λ A B k m w, match m w with
               | Done a w' => k a w'
               | Fatal msg w' => Fatal msg w'
               end.

Definition emit (e : Event) : M unit :=
  λ w, Done tt (mkWorld (replica w) (trace w ++ [e]) (next_chan w)).

Definition fatal {A : Type} (msg : string) : M A := λ w, Fatal msg w.

Definition get_replica : M Replica := λ w, Done (replica w) w.

Definition modify (f : Replica → Replica) : M unit :=
  λ w, Done tt (mkWorld (f (replica w)) (trace w) (next_chan w)).

(** [make(chan struct{})] *)
Definition make_chan : M Z :=
  λ w, Done (next_chan w) (mkWorld (replica w) (trace w) (next_chan w + 1)).

Definition when (b : bool) (m : M unit) : M unit := if b then m else mret tt.

(** The world a call leaves behind, however it ends. *)
Definition final {A : Type} (r : Result A) : World :=
  match r with Done _ w => w | Fatal _ w => w end.

(** ** Checksums *)

(** The entry is due for collection: its timestamp is set and has
    passed. *)
Definition expired (now : Time) (val : replicaChecksum) : bool :=
  negb (IsZero (gcTimestamp val)) && After now (gcTimestamp val).

Definition gcOldChecksumEntriesLocked (now : Time) : M unit :=
  modify (λ r,
    set_mu_checksums
      (filter (λ kv : Z * replicaChecksum, expired now kv.2 = false)
              (mu_checksums r)) r).

(** Modelled from the spec: [computeChecksumDone] is declared with the
    consistency checker, outside the file.  The spec has the entry
    "force-completed with a nil digest so no waiter blocks forever" and a
    finished entry "eligible for GC after deadline": the digest and the
    deadline are stored and the notify channel is closed; an id without
    entry is logged. *)
Definition computeChecksumDone (env : Env) (id : Z) (sha : option string)
    : M unit :=
  r ← get_replica;
  match mu_checksums r !! id with
  | Some c =>
      modify (λ r,
        set_mu_checksums
          (<[id := mkReplicaChecksum (started c) sha (checksum_deadline env)
                                     (notify c)]> (mu_checksums r)) r) ;;
      emit (Notify_Close (notify c))
  | None => emit (Log "no map entry for checksum")
  end.

Definition computeChecksumPostApply (env : Env)
    (args : roachpb.ComputeChecksumRequest) : M unit :=
  let id := roachpb.ChecksumID args in
  let now := timeutil_Now env in
  let compute (notify : Z) : M unit :=
    gcOldChecksumEntriesLocked now ;;
    (* Create an entry with checksum == nil and gcTimestamp unset. *)
    modify (λ r,
      set_mu_checksums
        (<[id := mkReplicaChecksum true None 0 notify]> (mu_checksums r)) r) ;;
    r ← get_replica;
    match Desc (mu_state r) with
    | None => fatal "nil pointer dereference"
    | Some desc =>
        emit Store_NewSnapshot ;;
        if RunAsyncTask_fails env then
          emit (Log "could not run async checksum computation") ;;
          (* Set checksum to nil. *)
          computeChecksumDone env id None ;;
          emit Snapshot_Close
        else
          (* Compute SHA asynchronously and store it in a map by UUID. *)
          emit (RunAsyncTask_sha512 id (roachpb.Snapshot args) desc)
    end in
  r ← get_replica;
  match mu_checksums r !! id with
  | None =>
      (* There is no record of this ID. Make a new notification. *)
      notify ← make_chan; compute notify
  | Some c =>
      if negb (started c) then
        (* A CollectChecksumRequest is waiting on the existing notification. *)
        compute (notify c)
      else
        (* A previous attempt was made to compute the checksum. *)
        mret tt
  end.

(** ** Leases *)

Definition maybeTransferRaftLeadership (env : Env) (replicaID target : Z)
    : M unit :=
  if withRaftGroup_fails env then fatal "replica corruption"
  else
    when (isRaftLeader env)
      (emit (Log "transferring raft leadership") ;;
       emit (Raft_TransferLeader target)).

Definition leasePostApply (env : Env) (newLease : roachpb.Lease)
    (replicaID : Z) (prevLease : roachpb.Lease) : M unit :=
  let iAmTheLeaseHolder :=
    roachpb.ReplicaID (roachpb.Replica newLease) =? replicaID in
  let leaseChangingHands :=
    negb (roachpb.StoreID (roachpb.Replica prevLease)
          =? roachpb.StoreID (roachpb.Replica newLease)) in
  when (leaseChangingHands && iAmTheLeaseHolder)
    (emit (Log "new range lease") ;;
     emit (TsCache_SetLowWater (roachpb.Start newLease)) ;;
     when (IsFirstRange env && Covers env newLease (clock_Now env))
       (emit GossipFirstRange)) ;;
  when (leaseChangingHands && negb iAmTheLeaseHolder)
    (emit (TsCache_Clear (clock_Now env))) ;;
  when (negb iAmTheLeaseHolder && Covers env newLease (clock_Now env))
    (maybeTransferRaftLeadership env replicaID
       (roachpb.ReplicaID (roachpb.Replica newLease))).

(** ** Applying a result *)

Definition raftLogCheckFrequency (env : Env) : Z :=
  1 + RaftLogQueueStaleThreshold env / 4.

(** Modelled from the spec: [setDesc] is declared with the replica, outside
    the file; it "updates the in-memory/persisted descriptor" and may
    fail. *)
Definition setDesc (env : Env) (desc : roachpb.RangeDescriptor)
    : M bool :=
  emit (SetDesc desc) ;;
  if setDesc_fails env then mret false
  else modify (on_mu_state (set_Desc (Some desc))) ;; mret true.

(** [if (x != T{}) { log.Fatalf("unhandled field in ...") }] *)
Definition assert_handled {T : Type} `{EqDecision T} (zero x : T)
    (msg : string) : M unit :=
  if decide (x ≠ zero) then fatal msg else mret tt.

(** [handleReplicatedEvalResult] is a sequence of paragraphs, each
    handling one group of fields of its local copy [rResult] and resetting
    them.  Every paragraph is a function from the record it finds to the
    record it leaves. *)

(** Fields for which no action is taken in this method are zeroed so that
    they don't trigger an assertion at the end of the method. *)
Definition replicated_noop_fields (rResult : ReplicatedEvalResult)
    : ReplicatedEvalResult :=
  let rResult := set_IsLeaseRequest false rResult in
  let rResult := set_IsConsistencyRelated false rResult in
  let rResult := set_IsFreeze false rResult in
  set_Timestamp hlc.ZeroTimestamp rResult.

Definition replicated_BlockReads (rResult : ReplicatedEvalResult)
    : M ReplicatedEvalResult :=
  if BlockReads rResult then
    emit ReadOnlyCmdMu_Lock ;; mret (set_BlockReads false rResult)
  else mret rResult.

(** Update MVCC stats and Raft portion of ReplicaState. *)
Definition replicated_stats (env : Env) (rResult : ReplicatedEvalResult)
    : M ReplicatedEvalResult :=
  modify (on_mu_state (λ s,
            set_Stats (enginepb.Add (Stats s) (Delta rResult)) s)) ;;
  when (negb (RaftAppliedIndex (State rResult) =? 0))
    (modify (on_mu_state
               (set_RaftAppliedIndex (RaftAppliedIndex (State rResult))))) ;;
  when (negb (LeaseAppliedIndex (State rResult) =? 0))
    (modify (on_mu_state
               (set_LeaseAppliedIndex (LeaseAppliedIndex (State rResult))))) ;;
  r ← get_replica;
  let needsSplitBySize := needsSplitBySizeLocked env r in
  emit (Metrics_addMVCCStats (Delta rResult)) ;;
  let rResult := set_Delta enginepb.MVCCStats_zero rResult in
  when (RaftAppliedIndex (State rResult) mod raftLogCheckFrequency env =? 1)
    (emit (RaftLogQueue_MaybeAdd (clock_Now env))) ;;
  when needsSplitBySize (emit (SplitQueue_MaybeAdd (clock_Now env))) ;;
  let rResult :=
    set_State (set_Stats enginepb.MVCCStats_zero (State rResult)) rResult in
  let rResult :=
    set_State (set_LeaseAppliedIndex 0 (State rResult)) rResult in
  mret (set_State (set_RaftAppliedIndex 0 (State rResult)) rResult).

(** Process Split.  This needs to happen after stats update because of the
    ContainsEstimates hack. *)
Definition replicated_Split (env : Env) (rResult : ReplicatedEvalResult)
    : M ReplicatedEvalResult :=
  match Split rResult with
  | Some split =>
      modify (on_mu_state (λ s,
                set_Stats (enginepb.set_ContainsEstimates false (Stats s)) s)) ;;
      r ← get_replica;
      let stats := Stats (mu_state r) in
      emit (SetMVCCStats (RangeID r) stats) ;;
      when (setMVCCStats_fails env) (fatal "unable to write MVCC stats") ;;
      emit (SplitPostApply (RHSDelta split) (SplitTrigger split)) ;;
      mret (set_Split None rResult)
  | None => mret rResult
  end.

Definition replicated_Merge (env : Env) (rResult : ReplicatedEvalResult)
    : M ReplicatedEvalResult :=
  match Merge rResult with
  | Some merge =>
      emit (Store_MergeRange (roachpb.EndKey (LeftDesc merge))
                             (roachpb.RangeID (RightDesc merge))) ;;
      when (MergeRange_fails env)
        (fatal "failed to update store after merging range") ;;
      mret (set_Merge None rResult)
  | None => mret rResult
  end.

(** Update the remaining ReplicaState. *)
Definition replicated_Frozen (rResult : ReplicatedEvalResult)
    : M ReplicatedEvalResult :=
  when (bool_decide (Frozen (State rResult) ≠ ReplicaState_FROZEN_UNSPECIFIED))
    (modify (on_mu_state (set_Frozen (Frozen (State rResult))))) ;;
  mret (set_State (set_Frozen ReplicaState_FROZEN_UNSPECIFIED (State rResult))
                  rResult).

Definition replicated_Desc (env : Env) (rResult : ReplicatedEvalResult)
    : M ReplicatedEvalResult :=
  match Desc (State rResult) with
  | Some newDesc =>
      ok ← setDesc env newDesc;
      when (negb ok) (fatal "failed to update range descriptor") ;;
      mret (set_State (set_Desc None (State rResult)) rResult)
  | None => mret rResult
  end.

Definition replicated_ChangeReplicas (env : Env)
    (rResult : ReplicatedEvalResult) : M ReplicatedEvalResult :=
  match ChangeReplicas rResult with
  | Some change =>
      when (bool_decide (ChangeType change = roachpb.REMOVE_REPLICA)
            && (store_StoreID env
                =? roachpb.StoreID (storagebase.Replica change)))
        (emit ReplicaGCQueue_Add ;;
         when (replicaGCQueue_Add_fails env)
           (emit (Log "unable to add to replica GC queue"))) ;;
      mret (set_ChangeReplicas None rResult)
  | None => mret rResult
  end.

(** The previous lease is read through the pointer [r.mu.state.Lease];
    [leasePostApply] dereferences it. *)
Definition replicated_Lease (env : Env) (rResult : ReplicatedEvalResult)
    : M ReplicatedEvalResult :=
  match Lease (State rResult) with
  | Some newLease =>
      let rResult := set_State (set_Lease None (State rResult)) rResult in
      r ← get_replica;
      let replicaID := mu_replicaID r in
      let prevLease := Lease (mu_state r) in
      modify (on_mu_state (set_Lease (Some newLease))) ;;
      match prevLease with
      | Some prevLease => leasePostApply env newLease replicaID prevLease
      | None => fatal "nil pointer dereference"
      end ;;
      mret rResult
  | None => mret rResult
  end.

Definition replicated_TruncatedState (rResult : ReplicatedEvalResult)
    : M ReplicatedEvalResult :=
  match TruncatedState (State rResult) with
  | Some newTruncState =>
      let rResult :=
        set_State (set_TruncatedState None (State rResult)) rResult in
      modify (on_mu_state (set_TruncatedState (Some newTruncState))) ;;
      r ← get_replica;
      (* Clear any entries in the Raft log entry cache for this range up
         to and including the most recently truncated index. *)
      emit (RaftEntryCache_clearTo (RangeID r)
                                   (roachpb.Index newTruncState + 1)) ;;
      mret rResult
  | None => mret rResult
  end.

Definition replicated_GCThreshold (rResult : ReplicatedEvalResult)
    : M ReplicatedEvalResult :=
  let newThresh := GCThreshold (State rResult) in
  if bool_decide (newThresh ≠ hlc.ZeroTimestamp) then
    modify (on_mu_state (set_GCThreshold newThresh)) ;;
    mret (set_State (set_GCThreshold hlc.ZeroTimestamp (State rResult))
                    rResult)
  else mret rResult.

Definition replicated_TxnSpanGCThreshold (rResult : ReplicatedEvalResult)
    : M ReplicatedEvalResult :=
  let newThresh := TxnSpanGCThreshold (State rResult) in
  if bool_decide (newThresh ≠ hlc.ZeroTimestamp) then
    modify (on_mu_state (set_TxnSpanGCThreshold newThresh)) ;;
    mret (set_State
            (set_TxnSpanGCThreshold hlc.ZeroTimestamp (State rResult))
            rResult)
  else mret rResult.

Definition replicated_ComputeChecksum (env : Env)
    (rResult : ReplicatedEvalResult) : M ReplicatedEvalResult :=
  match ComputeChecksum rResult with
  | Some args =>
      computeChecksumPostApply env args ;;
      mret (set_ComputeChecksum None rResult)
  | None => mret rResult
  end.

(** The paragraphs that follow the computation of [shouldAssert]. *)
Definition replicated_triggers (env : Env) (rResult : ReplicatedEvalResult)
    : M ReplicatedEvalResult :=
  rResult ← replicated_Split env rResult;
  rResult ← replicated_Merge env rResult;
  rResult ← replicated_Frozen rResult;
  rResult ← replicated_Desc env rResult;
  rResult ← replicated_ChangeReplicas env rResult;
  rResult ← replicated_Lease env rResult;
  rResult ← replicated_TruncatedState rResult;
  rResult ← replicated_GCThreshold rResult;
  rResult ← replicated_TxnSpanGCThreshold rResult;
  replicated_ComputeChecksum env rResult.

(** The body of [handleReplicatedEvalResult] up to its final check: the
    value is [shouldAssert] and the local record [rResult] as the final
    check finds it. *)
Definition handleReplicatedEvalResult_steps (env : Env)
    (rResult : ReplicatedEvalResult) : M (bool * ReplicatedEvalResult) :=
  let rResult := replicated_noop_fields rResult in
  rResult ← replicated_BlockReads rResult;
  rResult ← replicated_stats env rResult;
  (* The above are always present, so we assert only if there are
     "nontrivial" actions below. *)
  let shouldAssert := bool_decide (rResult ≠ ReplicatedEvalResult_zero) in
  rResult ← replicated_triggers env rResult;
  mret (shouldAssert, rResult).

Definition handleReplicatedEvalResult (env : Env)
    (rResult : ReplicatedEvalResult) : M bool :=
  res ← handleReplicatedEvalResult_steps env rResult;
  assert_handled ReplicatedEvalResult_zero res.2
                 "unhandled field in ReplicatedEvalResult" ;;
  (* the deferred r.readOnlyCmdMu.Unlock() *)
  when (BlockReads rResult) (emit ReadOnlyCmdMu_Unlock) ;;
  mret res.1.

(** [handleLocalEvalResult], paragraph by paragraph. *)

(** Fields for which no action is taken in this method are zeroed so that
    they don't trigger an assertion at the end of the method. *)
Definition local_noop_fields (lResult : LocalEvalResult) : LocalEvalResult :=
  let lResult := set_idKey "" lResult in
  let lResult := set_Batch None lResult in
  let lResult := set_endCmds None lResult in
  let lResult := set_doneCh None lResult in
  let lResult := set_ctx None lResult in
  let lResult := set_Err None lResult in
  let lResult := set_proposedAtTicks 0 lResult in
  set_Reply None lResult.

(** On the replica on which this command originated, resolve skipped
    intents asynchronously - even on failure. *)
Definition local_intents (env : Env)
    (originReplica : roachpb.ReplicaDescriptor) (lResult : LocalEvalResult)
    : M LocalEvalResult :=
  when (roachpb.StoreID originReplica =? store_StoreID env)
    (match intents lResult with
     | Some its => emit (IntentResolver_processIntentsAsync its)
     | None => mret tt
     end) ;;
  mret (set_intents None lResult).

Definition local_raftLogSize (lResult : LocalEvalResult) : M LocalEvalResult :=
  match raftLogSize lResult with
  | Some size =>
      modify (set_mu_raftLogSize size) ;;
      mret (set_raftLogSize None lResult)
  | None => mret lResult
  end.

(** The gossip runs in an async task; only launching it is part of the
    call. *)
Definition local_gossipFirstRange (env : Env) (lResult : LocalEvalResult)
    : M LocalEvalResult :=
  if gossipFirstRange lResult then
    emit RunAsyncTask_gossipFirstRange ;;
    when (RunAsyncTask_fails env)
      (emit (Log "unable to gossip first range")) ;;
    mret (set_gossipFirstRange false lResult)
  else mret lResult.

Definition local_maybeAddToSplitQueue (env : Env) (lResult : LocalEvalResult)
    : M LocalEvalResult :=
  if maybeAddToSplitQueue lResult then
    emit (SplitQueue_MaybeAdd (clock_Now env)) ;;
    mret (set_maybeAddToSplitQueue false lResult)
  else mret lResult.

Definition local_maybeGossipSystemConfig (lResult : LocalEvalResult)
    : M LocalEvalResult :=
  if maybeGossipSystemConfig lResult then
    emit MaybeGossipSystemConfig ;;
    mret (set_maybeGossipSystemConfig false lResult)
  else mret lResult.

(** The items processed only on the proposer; the fields are reset on
    every node. *)
Definition local_proposer_only (env : Env)
    (originReplica : roachpb.ReplicaDescriptor) (lResult : LocalEvalResult)
    : M LocalEvalResult :=
  when (roachpb.StoreID originReplica =? store_StoreID env)
    (match leaseMetricsResult lResult with
     | Some success => emit (Metrics_leaseRequestComplete success)
     | None => mret tt
     end ;;
     match maybeGossipNodeLiveness lResult with
     | Some span => emit (MaybeGossipNodeLiveness span)
     | None => mret tt
     end) ;;
  let lResult := set_leaseMetricsResult None lResult in
  mret (set_maybeGossipNodeLiveness None lResult).

(** The paragraphs that follow the computation of [shouldAssert]. *)
Definition local_triggers (env : Env)
    (originReplica : roachpb.ReplicaDescriptor) (lResult : LocalEvalResult)
    : M LocalEvalResult :=
  lResult ← local_raftLogSize lResult;
  lResult ← local_gossipFirstRange env lResult;
  lResult ← local_maybeAddToSplitQueue env lResult;
  lResult ← local_maybeGossipSystemConfig lResult;
  local_proposer_only env originReplica lResult.

(** The body of [handleLocalEvalResult] up to its final check. *)
Definition handleLocalEvalResult_steps (env : Env)
    (originReplica : roachpb.ReplicaDescriptor) (lResult : LocalEvalResult)
    : M (bool * LocalEvalResult) :=
  let lResult := local_noop_fields lResult in
  lResult ← local_intents env originReplica lResult;
  (* The above are present too often, so we assert only if there are
     "nontrivial" actions below. *)
  let shouldAssert := bool_decide (lResult ≠ LocalEvalResult_zero) in
  lResult ← local_triggers env originReplica lResult;
  mret (shouldAssert, lResult).

Definition handleLocalEvalResult (env : Env)
    (originReplica : roachpb.ReplicaDescriptor) (lResult : LocalEvalResult)
    : M bool :=
  res ← handleLocalEvalResult_steps env originReplica lResult;
  assert_handled LocalEvalResult_zero res.2
                 "unhandled field in LocalEvalResult" ;;
  mret res.1.

(** Modelled from the spec: [assertState] is declared with the replica,
    outside the file; it is "a full comparison between the in-memory
    replica state and what re-deriving state from durable storage would
    yield; mismatch is a fatal consistency violation". *)
Definition assertState (env : Env) : M unit :=
  emit AssertState ;;
  when (assertState_diverged env) (fatal "on-disk and in-memory state diverged").

Definition handleEvalResult (env : Env)
    (originReplica : roachpb.ReplicaDescriptor) (lResult : LocalEvalResult)
    (rResult : ReplicatedEvalResult) : M unit :=
  (* Careful: `shouldAssert = f() || g()` will not run both if `f()` is
     true. *)
  shouldAssert ← handleReplicatedEvalResult env rResult;
  shouldAssert' ← handleLocalEvalResult env originReplica lResult;
  let shouldAssert := shouldAssert' || shouldAssert in
  when shouldAssert
    (* Assert that the on-disk state doesn't diverge from the in-memory
       state as a result of the side effects. *)
    (assertState env).

(** *** Vocabulary for the properties of the handlers *)

(** The value a call returns, when it returns, satisfies [P]. *)
Definition returns {A : Type} (m : M A) (P : A → Prop) : Prop :=
  ∀ w a w', m w = Done a w' → P a.

(** The events a call adds to the trace, however it ends, satisfy [ok];
    nothing already in the trace is touched. *)
Definition emits_only {A : Type} (ok : Event → bool) (m : M A) : Prop :=
  ∀ w, ∃ es, trace (final (m w)) = trace w ++ es ∧ forallb ok es = true.

Definition is_tsCache_call (e : Event) : bool :=
  match e with
  | TsCache_SetLowWater _ | TsCache_Clear _ => true
  | _ => false
  end.

(** The calls made on the timestamp cache, in order. *)
Definition tsCache_calls (es : list Event) : list Event :=
  List.filter is_tsCache_call es.

Definition is_SplitPostApply (e : Event) : bool :=
  match e with SplitPostApply _ _ => true | _ => false end.

Definition is_AssertState (e : Event) : bool :=
  match e with AssertState => true | _ => false end.

Definition not_AssertState (e : Event) : bool := negb (is_AssertState e).

Definition not_SplitPostApply (e : Event) : bool :=
  negb (is_SplitPostApply e).

(** A digest computation for [id] is launched. *)
Definition is_launch (id : Z) (e : Event) : bool :=
  match e with RunAsyncTask_sha512 id' _ _ => id' =? id | _ => false end.

Definition launches (id : Z) (es : list Event) : nat :=
  length (List.filter (is_launch id) es).

Definition is_snapshot_or_launch (e : Event) : bool :=
  match e with
  | Store_NewSnapshot | RunAsyncTask_sha512 _ _ _ => true
  | _ => false
  end.

(** Checksum requests applied one after the other, each in its own
    environment (its own clock reading). *)
Fixpoint computeChecksums (calls : list (Env * roachpb.ComputeChecksumRequest))
    : M unit :=
  match calls with
  | [] => mret tt
  | (env, args) :: rest =>
      computeChecksumPostApply env args ;; computeChecksums rest
  end.

(** *** Sample replicas and environments *)

Definition ex_state : ReplicaState :=
  set_Lease (Some ex_lease) (set_Desc (Some ex_desc) ReplicaState_zero).

Definition ex_replica : Replica :=
  {| RangeID := 7; mu_state := ex_state; mu_replicaID := 2;
     mu_raftLogSize := 0; mu_checksums := ∅ |}.

Definition ex_world : World :=
  {| replica := ex_replica; trace := []; next_chan := 1 |}.

Definition ex_env : Env :=
  {| store_StoreID := 2; clock_Now := hlc.mkTimestamp 150 0;
     timeutil_Now := 150; RaftLogQueueStaleThreshold := 100;
     needsSplitBySizeLocked := λ _, false; setMVCCStats_fails := false;
     MergeRange_fails := false; setDesc_fails := false;
     replicaGCQueue_Add_fails := false; IsFirstRange := false;
     Covers := λ l ts, hlc.Less ts (roachpb.Expiration l);
     isRaftLeader := true; withRaftGroup_fails := false;
     RunAsyncTask_fails := false; checksum_deadline := 1000;
     assertState_diverged := false |}.

(** A lease for replica 2 on store 2, following [ex_lease] (store 1). *)
Definition ex_lease_self : roachpb.Lease :=
  roachpb.mkLease (hlc.mkTimestamp 120 0) (hlc.mkTimestamp 300 0)
                  (roachpb.mkReplicaDescriptor 2 2 2).

(** A lease for replica 3 on store 3, following [ex_lease] (store 1). *)
Definition ex_lease_other : roachpb.Lease :=
  roachpb.mkLease (hlc.mkTimestamp 120 0) (hlc.mkTimestamp 300 0)
                  (roachpb.mkReplicaDescriptor 3 3 3).

(** The table after [gcOldChecksumEntriesLocked]. *)
Definition swept (now : Time) (m : gmap Z replicaChecksum)
    : gmap Z replicaChecksum :=
  filter (λ kv : Z * replicaChecksum, expired now kv.2 = false) m.

(** A table with a finished entry (id 1) past its deadline and an entry
    in progress (id 2). *)
Definition ex_checksums : gmap Z replicaChecksum :=
  <[1 := mkReplicaChecksum true (Some "digest") 5 10]>
    (<[2 := mkReplicaChecksum true None 0 11]> ∅).

Definition ex_world_checksums : World :=
  {| replica := set_mu_checksums ex_checksums ex_replica;
     trace := []; next_chan := 12 |}.

(** A table with an entry a collector waits on (id 3, not started). *)
Definition ex_world_waiting : World :=
  {| replica :=
       set_mu_checksums
         (<[3 := mkReplicaChecksum false None 0 10]> ex_checksums) ex_replica;
     trace := []; next_chan := 12 |}.

(** A command with a lease and the split-queue trigger, and one with
    nothing to do. *)
Definition ex_after_replicated : World :=
  final (handleReplicatedEvalResult ex_env (Replicated ex_src) ex_world).

Definition ex_after_local : World :=
  final (handleLocalEvalResult ex_env (roachpb.mkReplicaDescriptor 2 2 2)
           (Local ex_src) ex_after_replicated).

(** A command carrying a split, applied where the statistics contain
    estimates. *)
Definition ex_split : Split_ :=
  mkSplit (roachpb.mkSplitTrigger (roachpb.mkRangeDescriptor 7 "a" "g")
                                  (roachpb.mkRangeDescriptor 8 "g" "m"))
          (enginepb.mkMVCCStats false 3 0 0 0 0).

Definition ex_split_result : ReplicatedEvalResult :=
  set_Delta (enginepb.mkMVCCStats false 4 0 0 0 0)
    (set_Split (Some ex_split) ReplicatedEvalResult_zero).

Definition ex_world_estimates : World :=
  {| replica :=
       on_mu_state (set_Stats (enginepb.mkMVCCStats true 20 0 0 0 0))
                   ex_replica;
     trace := []; next_chan := 1 |}.

(** *** Vocabulary for further properties of the merge *)

(** The receiver after a merge in which no check fails. *)
Definition merged (p q : EvalResult) : EvalResult :=
  {| Local :=
       {| idKey := idKey (Local p);
          proposedAtTicks := proposedAtTicks (Local p);
          ctx := ctx (Local p); Err := Err (Local p);
          Reply := Reply (Local p); endCmds := endCmds (Local p);
          doneCh := doneCh (Local p); Batch := Batch (Local p);
          raftLogSize :=
            merge_opt (raftLogSize (Local p)) (raftLogSize (Local q));
          intents := merge_intents (intents (Local p)) (intents (Local q));
          leaseMetricsResult :=
            merge_opt (leaseMetricsResult (Local p))
                      (leaseMetricsResult (Local q));
          gossipFirstRange :=
            gossipFirstRange (Local p) || gossipFirstRange (Local q);
          maybeGossipSystemConfig :=
            maybeGossipSystemConfig (Local p)
            || maybeGossipSystemConfig (Local q);
          maybeAddToSplitQueue :=
            maybeAddToSplitQueue (Local p) || maybeAddToSplitQueue (Local q);
          maybeGossipNodeLiveness :=
            merge_opt (maybeGossipNodeLiveness (Local p))
                      (maybeGossipNodeLiveness (Local q)) |};
     MaxLeaseIndex := MaxLeaseIndex p;
     OriginReplica := OriginReplica p;
     Request := Request p;
     Replicated :=
       {| BlockReads := BlockReads (Replicated p) || BlockReads (Replicated q);
          State :=
            {| RaftAppliedIndex := RaftAppliedIndex (state_of p);
               LeaseAppliedIndex := LeaseAppliedIndex (state_of p);
               Desc := merge_opt (Desc (state_of p)) (Desc (state_of q));
               Lease := merge_opt (Lease (state_of p)) (Lease (state_of q));
               TruncatedState :=
                 merge_opt (TruncatedState (state_of p))
                           (TruncatedState (state_of q));
               GCThreshold :=
                 hlc.Forward (GCThreshold (state_of p))
                             (GCThreshold (state_of q));
               Stats := Stats (state_of p);
               Frozen :=
                 merge_Frozen (Frozen (state_of p)) (Frozen (state_of q));
               TxnSpanGCThreshold :=
                 hlc.Forward (TxnSpanGCThreshold (state_of p))
                             (TxnSpanGCThreshold (state_of q)) |};
          Split := merge_opt (Split (Replicated p)) (Split (Replicated q));
          Merge := merge_opt (Merge (Replicated p)) (Merge (Replicated q));
          ComputeChecksum :=
            merge_opt (ComputeChecksum (Replicated p))
                      (ComputeChecksum (Replicated q));
          IsLeaseRequest := IsLeaseRequest (Replicated p);
          IsFreeze := IsFreeze (Replicated p);
          Timestamp := Timestamp (Replicated p);
          IsConsistencyRelated := IsConsistencyRelated (Replicated p);
          Delta := Delta (Replicated p);
          ChangeReplicas :=
            merge_opt (ChangeReplicas (Replicated p))
                      (ChangeReplicas (Replicated q)) |};
     WriteBatch := WriteBatch p |}.

(** What is left of a record once every field the merge folds in has
    been reset: the fields no statement of [MergeAndDestroy] assigns. *)
Definition unmerged (q : EvalResult) : EvalResult :=
  {| Local :=
       {| idKey := idKey (Local q);
          proposedAtTicks := proposedAtTicks (Local q);
          ctx := ctx (Local q); Err := Err (Local q);
          Reply := Reply (Local q); endCmds := endCmds (Local q);
          doneCh := doneCh (Local q); Batch := Batch (Local q);
          raftLogSize := None; intents := None; leaseMetricsResult := None;
          gossipFirstRange := false; maybeGossipSystemConfig := false;
          maybeAddToSplitQueue := false; maybeGossipNodeLiveness := None |};
     MaxLeaseIndex := MaxLeaseIndex q;
     OriginReplica := OriginReplica q;
     Request := Request q;
     Replicated :=
       {| BlockReads := false;
          State :=
            {| RaftAppliedIndex := RaftAppliedIndex (state_of q);
               LeaseAppliedIndex := LeaseAppliedIndex (state_of q);
               Desc := None; Lease := None; TruncatedState := None;
               GCThreshold := hlc.ZeroTimestamp;
               Stats := Stats (state_of q);
               Frozen := ReplicaState_FROZEN_UNSPECIFIED;
               TxnSpanGCThreshold := hlc.ZeroTimestamp |};
          Split := None; Merge := None; ComputeChecksum := None;
          IsLeaseRequest := IsLeaseRequest (Replicated q);
          IsFreeze := IsFreeze (Replicated q);
          Timestamp := Timestamp (Replicated q);
          IsConsistencyRelated := IsConsistencyRelated (Replicated q);
          Delta := Delta (Replicated q);
          ChangeReplicas := None |};
     WriteBatch := WriteBatch q |}.

(** The receiver as the caller finds it, whatever the outcome. *)
Definition receiver (o : MergeOutcome) : EvalResult :=
  match o with
  | Continue p _ | Return _ p _ | Fatalf _ p _ => p
  end.

(** [p'] holds for the trigger what a merge without conflict leaves:
    the receiver's own value if it had one, else the other's. *)
Definition trigger_absorbed (f : Trigger) (p q p' : EvalResult) : Prop :=
  match f with
  | TDesc => Desc (state_of p') = merge_opt (Desc (state_of p)) (Desc (state_of q))
  | TLease =>
      Lease (state_of p') = merge_opt (Lease (state_of p)) (Lease (state_of q))
  | TTruncatedState =>
      TruncatedState (state_of p')
      = merge_opt (TruncatedState (state_of p)) (TruncatedState (state_of q))
  | TFrozen =>
      Frozen (state_of p')
      = merge_Frozen (Frozen (state_of p)) (Frozen (state_of q))
  | TSplit =>
      Split (Replicated p')
      = merge_opt (Split (Replicated p)) (Split (Replicated q))
  | TMerge =>
      Merge (Replicated p')
      = merge_opt (Merge (Replicated p)) (Merge (Replicated q))
  | TChangeReplicas =>
      ChangeReplicas (Replicated p')
      = merge_opt (ChangeReplicas (Replicated p))
                  (ChangeReplicas (Replicated q))
  | TComputeChecksum =>
      ComputeChecksum (Replicated p')
      = merge_opt (ComputeChecksum (Replicated p))
                  (ComputeChecksum (Replicated q))
  | TRaftLogSize =>
      raftLogSize (Local p')
      = merge_opt (raftLogSize (Local p)) (raftLogSize (Local q))
  | TLeaseMetricsResult =>
      leaseMetricsResult (Local p')
      = merge_opt (leaseMetricsResult (Local p))
                  (leaseMetricsResult (Local q))
  | TMaybeGossipNodeLiveness =>
      maybeGossipNodeLiveness (Local p')
      = merge_opt (maybeGossipNodeLiveness (Local p))
                  (maybeGossipNodeLiveness (Local q))
  end.

(** *** Vocabulary for further properties of the checksums *)

Definition is_NewSnapshot (e : Event) : bool :=
  match e with Store_NewSnapshot => true | _ => false end.

Definition is_Snapshot_Close (e : Event) : bool :=
  match e with Snapshot_Close => true | _ => false end.

Definition is_RunAsyncTask_sha512 (e : Event) : bool :=
  match e with RunAsyncTask_sha512 _ _ _ => true | _ => false end.

(** How many of the events satisfy [f]. *)
Definition count_events (f : Event → bool) (es : list Event) : nat :=
  length (List.filter f es).

(** *** Vocabulary for further properties of the lease hand-over *)

Definition is_TransferLeader (e : Event) : bool :=
  match e with Raft_TransferLeader _ => true | _ => false end.

Definition is_GossipFirstRange (e : Event) : bool :=
  match e with GossipFirstRange => true | _ => false end.

(** The call stopped the process. *)
Definition is_Fatal {A : Type} (r : Result A) : bool :=
  match r with Fatal _ _ => true | Done _ _ => false end.

(** *** Vocabulary for further properties of the handlers *)

(** The local record carries a field handled after [shouldAssert] is
    computed. *)
Definition local_nontrivial (l : LocalEvalResult) : bool :=
  non_nil (raftLogSize l) || gossipFirstRange l
  || maybeGossipSystemConfig l || maybeAddToSplitQueue l
  || non_nil (leaseMetricsResult l) || non_nil (maybeGossipNodeLiveness l).

(** The replicated record carries a field handled after [shouldAssert]
    is computed. *)
Definition replicated_nontrivial (r : ReplicatedEvalResult) : bool :=
  non_nil (Split r) || non_nil (Merge r)
  || frozen_set (Frozen (State r)) || non_nil (Desc (State r))
  || non_nil (ChangeReplicas r) || non_nil (Lease (State r))
  || non_nil (TruncatedState (State r))
  || bool_decide (GCThreshold (State r) ≠ hlc.ZeroTimestamp)
  || bool_decide (TxnSpanGCThreshold (State r) ≠ hlc.ZeroTimestamp)
  || non_nil (ComputeChecksum r).

Definition is_processIntentsAsync (e : Event) : bool :=
  match e with IntentResolver_processIntentsAsync _ => true | _ => false end.

Definition is_proposer_report (e : Event) : bool :=
  match e with
  | Metrics_leaseRequestComplete _ | MaybeGossipNodeLiveness _ => true
  | _ => false
  end.

Definition is_ReadOnlyCmdMu (e : Event) : bool :=
  match e with
  | ReadOnlyCmdMu_Lock | ReadOnlyCmdMu_Unlock => true
  | _ => false
  end.

Definition is_ReplicaGCQueue_Add (e : Event) : bool :=
  match e with ReplicaGCQueue_Add => true | _ => false end.

(** The replica is removed from this store by the change. *)
Definition removes_self (env : Env) (r : ReplicatedEvalResult) : bool :=
  match ChangeReplicas r with
  | Some change =>
      bool_decide (ChangeType change = roachpb.REMOVE_REPLICA)
      && (store_StoreID env =? roachpb.StoreID (storagebase.Replica change))
  | None => false
  end.

Definition ex_after_local_only : World :=
  final (handleLocalEvalResult ex_env (roachpb.mkReplicaDescriptor 2 2 2)
           (Local ex_src) ex_world).

(** When the call returns, its value and the events it added to the
    trace satisfy [Q]. *)
Definition yields {A : Type} (m : M A) (Q : A → list Event → Prop) : Prop :=
  ∀ w a w', m w = Done a w' → ∃ es, trace w' = trace w ++ es ∧ Q a es.

Definition not_ReadOnlyCmdMu (e : Event) : bool := negb (is_ReadOnlyCmdMu e).

Definition not_ReplicaGCQueue_Add (e : Event) : bool :=
  negb (is_ReplicaGCQueue_Add e).

(** A change that removes the replica of store 2. *)
Definition ex_remove_self : ReplicatedEvalResult :=
  set_ChangeReplicas
    (Some (mkChangeReplicas roachpb.REMOVE_REPLICA
                            (roachpb.mkReplicaDescriptor 2 2 2)))
    (set_BlockReads true ReplicatedEvalResult_zero).

(** From a world satisfying [I] the call returns, in a world satisfying
    [I]. *)
Definition completes (I : World → Prop) {A : Type} (m : M A) : Prop :=
  ∀ w, I w → ∃ a w', m w = Done a w' ∧ I w'.

(** The replica holds a lease and a descriptor (both are pointers the
    handler dereferences). *)
Definition initialized (w : World) : Prop :=
  non_nil (Lease (mu_state (replica w))) = true
  ∧ non_nil (Desc (mu_state (replica w))) = true.

(** The engine, the store and the raft group do what they are asked. *)
Definition collaborators_succeed (env : Env) : bool :=
  negb (setMVCCStats_fails env) && negb (MergeRange_fails env)
  && negb (setDesc_fails env) && negb (withRaftGroup_fails env).

(** ** finish *)

Module proposalResult.

(** [proposalResult] is declared with the replica: what is sent to the
    waiting client. *)
Record t := mk {
  Reply : option roachpb.BatchResponse;
  Err : option roachpb.Error;
  ShouldRetry : bool
}.

End proposalResult.

(** What [finish] does to its collaborators: the call of the completion
    hook and the two channel operations. *)
Inductive FinishCall :=
| EndCmds_done (cmds : Z) (reply : option roachpb.BatchResponse)
               (err : option roachpb.Error) (shouldRetry : bool)
| DoneCh_send (ch : Z) (pr : proposalResult.t)
| DoneCh_close (ch : Z).

(** How [finish] ends.  A send on a nil channel never completes and a
    send on a closed channel panics (the rules of the language); a send
    on an open channel is taken by the receiver.  In every case the
    record is left as the statements before have made it, and [closed]
    is the set of closed channels afterwards. *)
Inductive FinishOutcome :=
| Finished (calls : list FinishCall) (lResult : LocalEvalResult)
           (closed : gset Z)
| BlocksForever (calls : list FinishCall) (lResult : LocalEvalResult)
| Panics (calls : list FinishCall) (lResult : LocalEvalResult).

(** [finish] first invokes the endCmds function and then sends the
    specified proposalResult on the lResult's done channel. *)
Definition finish (lResult : LocalEvalResult) (pr : proposalResult.t)
    (closed : gset Z) : FinishOutcome :=
  let '(calls, lResult) :=
    match endCmds lResult with
    | Some cmds =>
        ([EndCmds_done cmds (proposalResult.Reply pr) (proposalResult.Err pr)
                       (proposalResult.ShouldRetry pr)],
         set_endCmds None lResult)
    | None => ([], lResult)
    end in
  match doneCh lResult with
  | None => BlocksForever calls lResult
  | Some ch =>
      if decide (ch ∈ closed) then Panics calls lResult
      else Finished (calls ++ [DoneCh_send ch pr; DoneCh_close ch]) lResult
                    ({[ch]} ∪ closed)
  end.

Definition is_EndCmds_done (c : FinishCall) : bool :=
  match c with EndCmds_done _ _ _ _ => true | _ => false end.

(** The calls an outcome of [finish] has made. *)
Definition finish_calls (o : FinishOutcome) : list FinishCall :=
  match o with
  | Finished calls _ _ | BlocksForever calls _ | Panics calls _ => calls
  end.

(** The record an outcome of [finish] leaves. *)
Definition finish_record (o : FinishOutcome) : LocalEvalResult :=
  match o with
  | Finished _ l _ | BlocksForever _ l | Panics _ l => l
  end.

(** A proposal waiting on channel 4 with a completion hook. *)
Definition ex_proposal : LocalEvalResult :=
  set_doneCh (Some 4) (set_endCmds (Some 9) LocalEvalResult_zero).

Definition ex_proposalResult : proposalResult.t :=
  proposalResult.mk (Some "reply") None false.

(** *** The merge as its caller sees it *)

(** The two records a caller holds around [dst.MergeAndDestroy(src)]. *)
Record MergeCall := mkMergeCall {
  call_dst : EvalResult;
  call_src : EvalResult
}.

(** How the call ends for the caller: it returns [err], or the process
    stops in [log.Fatalf]. *)
Inductive CallEnd :=
| Returned (err : option string)
| Stopped (msg : string).

(** [err := dst.MergeAndDestroy(src)].  The receiver [p *EvalResult] is a
    pointer, so the caller finds in [dst] what the function left there.
    The parameter [q EvalResult] is a value, so the function resets the
    fields of its own copy and the caller's [src] is as it was. *)
Definition call_MergeAndDestroy (c : MergeCall) : CallEnd * MergeCall :=
  match MergeAndDestroy (call_dst c) (call_src c) with
  | Continue p' _ => (Returned None, mkMergeCall p' (call_src c))
  | Return err p' _ => (Returned err, mkMergeCall p' (call_src c))
  | Fatalf msg p' _ => (Stopped msg, mkMergeCall p' (call_src c))
  end.

(** *** Requests and the computations they launch *)

(** The asynchronous task of [computeChecksumPostApply], when it runs.
    [digest] is what [r.sha512] returns, [None] for an error, which is
    logged and leaves a nil checksum; the snapshot is closed last
    ([defer snap.Close()]). *)
Definition checksum_task (env : Env) (id : Z) (digest : option string)
    : M unit :=
  when (bool_decide (digest = None)) (emit (Log "sha512 failed")) ;;
  computeChecksumDone env id digest ;;
  emit Snapshot_Close.

(** What happens to the checksum table, one step at a time: a request is
    applied, or a launched task runs to its end. *)
Inductive ChecksumStep :=
| Requested (env : Env) (args : roachpb.ComputeChecksumRequest)
| TaskRan (env : Env) (id : Z) (digest : option string).

Definition checksum_step (s : ChecksumStep) : M unit :=
  match s with
  | Requested env args => computeChecksumPostApply env args
  | TaskRan env id digest => checksum_task env id digest
  end.

Fixpoint checksum_steps (steps : list ChecksumStep) : M unit :=
  match steps with
  | [] => mret tt
  | s :: rest => checksum_step s ;; checksum_steps rest
  end.

(** The step cannot make a finished entry of [id] expire before
    [horizon]: a request is not applied later than [horizon], and a task
    of [id] that ends gives its entry no deadline, or one not before
    [horizon]. *)
Definition keeps (horizon : Time) (id : Z) (s : ChecksumStep) : bool :=
  match s with
  | Requested env _ => timeutil_Now env <=? horizon
  | TaskRan env id' _ =>
      negb (id' =? id) || (checksum_deadline env =? 0)
      || (horizon <=? checksum_deadline env)
  end.

(** The entry of [id] is started and no request up to [horizon] collects
    it. *)
Definition kept (horizon : Time) (id : Z) (w : World) : Prop :=
  ∃ c, mu_checksums (replica w) !! id = Some c
       ∧ started c = true
       ∧ (gcTimestamp c = 0 ∨ horizon ≤ gcTimestamp c).

(** The clock of [ex_env] moved past the deadline [ex_env] gives. *)
Definition ex_env_late : Env :=
  {| store_StoreID := store_StoreID ex_env; clock_Now := clock_Now ex_env;
     timeutil_Now := 2000;
     RaftLogQueueStaleThreshold := RaftLogQueueStaleThreshold ex_env;
     needsSplitBySizeLocked := needsSplitBySizeLocked ex_env;
     setMVCCStats_fails := setMVCCStats_fails ex_env;
     MergeRange_fails := MergeRange_fails ex_env;
     setDesc_fails := setDesc_fails ex_env;
     replicaGCQueue_Add_fails := replicaGCQueue_Add_fails ex_env;
     IsFirstRange := IsFirstRange ex_env; Covers := Covers ex_env;
     isRaftLeader := isRaftLeader ex_env;
     withRaftGroup_fails := withRaftGroup_fails ex_env;
     RunAsyncTask_fails := RunAsyncTask_fails ex_env;
     checksum_deadline := checksum_deadline ex_env;
     assertState_diverged := assertState_diverged ex_env |}.

(** Checksum 1 is requested and computed; [now] being the time of the
    last two requests, another id is requested, then checksum 1 again. *)
Definition ex_requests (now : Env) : list ChecksumStep :=
  [Requested ex_env (roachpb.mkComputeChecksumRequest 1 false);
   TaskRan ex_env 1 (Some "digest");
   Requested now (roachpb.mkComputeChecksumRequest 2 false);
   Requested now (roachpb.mkComputeChecksumRequest 1 false)].

(** * Properties *)

(** ** Evaluating the merge *)

Example MergeAndDestroy_ex :
  MergeAndDestroy ex_dst ex_src = Return None ex_merged EvalResult_zero.
Proof. vm_compute. reflexivity. Qed.

Example MergeAndDestroy_ex_conflict :
  MergeAndDestroy ex_dst (on_State (set_Desc (Some ex_desc)) ex_src)
  = Return (Some "conflicting RangeDescriptor") ex_dst
           (on_State (set_Desc (Some ex_desc)) ex_src).
Proof. vm_compute. reflexivity. Qed.

(** ** Sequencing *)

Lemma seq_Continue (s t : Stmt) p q p' q' :
  s p q = Continue p' q' → (s ;;; t) p q = t p' q'.
Proof. unfold seq. intros ->. reflexivity. Qed.

Lemma seq_Return (s t : Stmt) p q err p' q' :
  s p q = Return err p' q' → (s ;;; t) p q = Return err p' q'.
Proof. unfold seq. intros ->. reflexivity. Qed.

(** C10.  A merged-in record with a non-zero lease applied index is
    rejected at once, nothing being merged, with the message of the raft
    applied index check. *)
Theorem MergeAndDestroy_LeaseAppliedIndex_message (p q : EvalResult) :
  LeaseAppliedIndex (state_of q) ≠ 0 →
  MergeAndDestroy p q = Return (Some "must not specify RaftApplyIndex") p q
  ∧ ∀ p0 q0 : EvalResult,
      RaftAppliedIndex (state_of q0) ≠ 0 →
      MergeAndDestroy p0 q0 = Return (Some "must not specify RaftApplyIndex") p0 q0.
Proof.
  intros Hl. split.
  - unfold MergeAndDestroy. unfold seq at 1. unfold reject_if at 1.
    destruct (Z.eqb_spec (RaftAppliedIndex (state_of q)) 0); cbn [negb];
      [|reflexivity].
    unfold seq at 1. unfold reject_if at 1.
    destruct (Z.eqb_spec (LeaseAppliedIndex (state_of q)) 0); [lia|reflexivity].
  - intros p0 q0 Hr. unfold MergeAndDestroy. unfold seq at 1.
    unfold reject_if at 1.
    destruct (Z.eqb_spec (RaftAppliedIndex (state_of q0)) 0); [lia|reflexivity].
Qed.

Lemma MergeAndDestroy_LeaseAppliedIndex_message_witness :
  MergeAndDestroy ex_dst (on_State (set_LeaseAppliedIndex 3) ex_src)
  = Return (Some "must not specify RaftApplyIndex")
           ex_dst (on_State (set_LeaseAppliedIndex 3) ex_src).
Proof.
  refine (proj1 (MergeAndDestroy_LeaseAppliedIndex_message
                   ex_dst (on_State (set_LeaseAppliedIndex 3) ex_src) _)).
  vm_compute. discriminate.
Defined.

(** ** The statements of the merge, one by one *)

Lemma reject_if_pass c msg p q :
  c q = false → reject_if c msg p q = Continue p q.
Proof. unfold reject_if. intros ->. reflexivity. Qed.

Lemma reject_if_cases c msg p q :
  reject_if c msg p q = Return (Some msg) p q
  ∨ reject_if c msg p q = Continue p q.
Proof. unfold reject_if. destruct (c q); auto. Qed.

Lemma absorb_ok {T} (get : EvalResult → option T) set msg p q :
  set (get p) p = p →
  non_nil (get p) && non_nil (get q) = false →
  absorb get set msg p q
  = Continue (set (merge_opt (get p) (get q)) p) (set None q).
Proof.
  unfold absorb, merge_opt. intros Heta.
  destruct (get p) eqn:Ep; [destruct (get q) eqn:Eq|]; cbn;
    try discriminate; intros _; rewrite ?Heta; reflexivity.
Qed.

Lemma absorb_conflict {T} (get : EvalResult → option T) set msg p q :
  non_nil (get p) = true → non_nil (get q) = true →
  absorb get set msg p q = Return (Some msg) p q.
Proof.
  unfold absorb. destruct (get p); [|discriminate].
  destruct (get q); [reflexivity|discriminate].
Qed.

Lemma absorb_cases {T} (get : EvalResult → option T) set msg p q :
  set (get p) p = p →
  absorb get set msg p q = Return (Some msg) p q
  ∨ absorb get set msg p q
    = Continue (set (merge_opt (get p) (get q)) p) (set None q).
Proof.
  intros Heta.
  destruct (non_nil (get p) && non_nil (get q)) eqn:E.
  - apply andb_prop in E as [? ?]. left. by apply absorb_conflict.
  - right. by apply absorb_ok.
Qed.

Lemma absorb_Frozen_ok p q :
  on_State (set_Frozen (Frozen (state_of p))) p = p →
  frozen_set (Frozen (state_of p)) && frozen_set (Frozen (state_of q)) = false →
  absorb_Frozen p q
  = Continue
      (on_State (set_Frozen (merge_Frozen (Frozen (state_of p))
                                          (Frozen (state_of q)))) p)
      (on_State (set_Frozen ReplicaState_FROZEN_UNSPECIFIED) q).
Proof.
  unfold absorb_Frozen, merge_Frozen. intros Heta.
  destruct (Frozen (state_of p)) eqn:Ep; destruct (Frozen (state_of q)) eqn:Eq;
    cbn; try discriminate; intros _;
    repeat case_decide; try congruence; rewrite ?Heta; reflexivity.
Qed.

Lemma absorb_Frozen_conflict p q :
  frozen_set (Frozen (state_of p)) = true →
  frozen_set (Frozen (state_of q)) = true →
  absorb_Frozen p q = Return (Some "conflicting FrozenStatus") p q.
Proof.
  unfold absorb_Frozen.
  destruct (Frozen (state_of p)); destruct (Frozen (state_of q));
    cbn; try discriminate; intros _ _;
    repeat case_decide; congruence.
Qed.

Lemma absorb_Frozen_cases p q :
  on_State (set_Frozen (Frozen (state_of p))) p = p →
  absorb_Frozen p q = Return (Some "conflicting FrozenStatus") p q
  ∨ absorb_Frozen p q
    = Continue
        (on_State (set_Frozen (merge_Frozen (Frozen (state_of p))
                                            (Frozen (state_of q)))) p)
        (on_State (set_Frozen ReplicaState_FROZEN_UNSPECIFIED) q).
Proof.
  intros Heta.
  destruct (frozen_set (Frozen (state_of p))
            && frozen_set (Frozen (state_of q))) eqn:E.
  - apply andb_prop in E as [? ?]. left. by apply absorb_Frozen_conflict.
  - right. by apply absorb_Frozen_ok.
Qed.

Lemma append_intents_eq p q :
  on_Local (set_intents (intents (Local p))) p = p →
  append_intents p q
  = Continue
      (on_Local (set_intents (merge_intents (intents (Local p))
                                            (intents (Local q)))) p)
      (on_Local (set_intents None) q).
Proof.
  unfold append_intents, merge_intents. intros Heta.
  destruct (intents (Local q)); [destruct (intents (Local p)) eqn:E|];
    rewrite <- ?E, ?Heta; reflexivity.
Qed.

Lemma check_destroyed_zero p :
  check_destroyed p EvalResult_zero = Return None p EvalResult_zero.
Proof. unfold check_destroyed. case_decide; [congruence|reflexivity]. Qed.

Lemma check_destroyed_nonzero p q :
  q ≠ EvalResult_zero →
  check_destroyed p q = Fatalf "unhandled EvalResult" p q.
Proof. unfold check_destroyed. intros. case_decide; [reflexivity|contradiction]. Qed.

Lemma Forward_max (t s : hlc.Timestamp) :
  (hlc.Forward t s = t ∨ hlc.Forward t s = s)
  ∧ hlc.Less (hlc.Forward t s) t = false
  ∧ hlc.Less (hlc.Forward t s) s = false.
Proof.
  unfold hlc.Forward. destruct (hlc.Less t s) eqn:E; unfold hlc.Less in *;
    (split; [auto|]); split; try assumption;
    destruct t as [tw tl], s as [sw sl]; cbn in *; lia.
Qed.

(** Opening the records so that field reads and writes compute. *)
Ltac explode e :=
  let l := fresh "l" in
  let r := fresh "r" in
  let s := fresh "s" in
  destruct e as [l ? ? ? r ?]; destruct l;
  destruct r as [? s ? ? ? ? ? ? ? ? ?]; destruct s.

(** Field assignments compute as soon as the record is given by its
    fields. *)
#[local] Arguments set_RaftAppliedIndex _ !_ /.
#[local] Arguments set_LeaseAppliedIndex _ !_ /.
#[local] Arguments set_Desc _ !_ /.
#[local] Arguments set_Lease _ !_ /.
#[local] Arguments set_TruncatedState _ !_ /.
#[local] Arguments set_GCThreshold _ !_ /.
#[local] Arguments set_Stats _ !_ /.
#[local] Arguments set_Frozen _ !_ /.
#[local] Arguments set_TxnSpanGCThreshold _ !_ /.
#[local] Arguments set_BlockReads _ !_ /.
#[local] Arguments set_State _ !_ /.
#[local] Arguments set_Split _ !_ /.
#[local] Arguments set_Merge _ !_ /.
#[local] Arguments set_ComputeChecksum _ !_ /.
#[local] Arguments set_IsLeaseRequest _ !_ /.
#[local] Arguments set_IsFreeze _ !_ /.
#[local] Arguments set_Timestamp _ !_ /.
#[local] Arguments set_IsConsistencyRelated _ !_ /.
#[local] Arguments set_Delta _ !_ /.
#[local] Arguments set_ChangeReplicas _ !_ /.
#[local] Arguments set_idKey _ !_ /.
#[local] Arguments set_proposedAtTicks _ !_ /.
#[local] Arguments set_ctx _ !_ /.
#[local] Arguments set_Err _ !_ /.
#[local] Arguments set_Reply _ !_ /.
#[local] Arguments set_endCmds _ !_ /.
#[local] Arguments set_doneCh _ !_ /.
#[local] Arguments set_Batch _ !_ /.
#[local] Arguments set_raftLogSize _ !_ /.
#[local] Arguments set_intents _ !_ /.
#[local] Arguments set_leaseMetricsResult _ !_ /.
#[local] Arguments set_gossipFirstRange _ !_ /.
#[local] Arguments set_maybeGossipSystemConfig _ !_ /.
#[local] Arguments set_maybeAddToSplitQueue _ !_ /.
#[local] Arguments set_maybeGossipNodeLiveness _ !_ /.
#[local] Arguments set_Local _ !_ /.
#[local] Arguments set_MaxLeaseIndex _ !_ /.
#[local] Arguments set_OriginReplica _ !_ /.
#[local] Arguments set_Request _ !_ /.
#[local] Arguments set_Replicated _ !_ /.
#[local] Arguments set_WriteBatch _ !_ /.
#[local] Arguments on_Replicated _ !_ /.
#[local] Arguments on_State _ !_ /.
#[local] Arguments on_Local _ !_ /.
#[local] Arguments state_of !_ /.

#[local] Arguments seq : simpl never.
#[local] Arguments reject_if : simpl never.
#[local] Arguments absorb : simpl never.
#[local] Arguments absorb_Frozen : simpl never.
#[local] Arguments forward : simpl never.
#[local] Arguments or_BlockReads : simpl never.
#[local] Arguments coalesce : simpl never.
#[local] Arguments append_intents : simpl never.
#[local] Arguments check_destroyed : simpl never.
#[local] Arguments merge_opt : simpl never.
#[local] Arguments merge_Frozen : simpl never.
#[local] Arguments merge_intents : simpl never.

(** One statement that does not return: find what it continues with. *)
Ltac stmt_continues :=
  first
    [ apply reject_if_pass; cbn;
      first [ reflexivity
            | apply bool_decide_eq_false; intros Hne; apply Hne; reflexivity ]
    | apply absorb_ok; [cbn; reflexivity | cbn; assumption]
    | apply absorb_Frozen_ok; [cbn; reflexivity | cbn; assumption]
    | apply append_intents_eq; cbn; reflexivity
    | reflexivity ].

Ltac merge_step :=
  etrans; [apply seq_Continue; stmt_continues|]; cbn.

(** Turning the boolean side conditions into equations on the fields. *)
Ltac fields_zero :=
  repeat match goal with
         | H : _ && _ = true |- _ => apply andb_prop in H; destruct H
         end;
  repeat match goal with
         | H : negb (non_nil ?x) = true |- _ =>
             destruct x; [discriminate H|clear H]
         | H : bool_decide _ = true |- _ => apply bool_decide_eq_true in H
         | H : (_ =? _) = true |- _ => apply Z.eqb_eq in H
         | H : negb _ = true |- _ => apply negb_true_iff in H
         end;
  subst.

(** C2 (as amended).  When no trigger is set on both sides and the
    merged-in record carries nothing but what the merge folds in (its
    applied indexes, statistics, delta and bookkeeping fields are zero),
    the merge succeeds, the merged-in record ends up zero, and in the
    receiver: the delta is the receiver's own, blockReads and the three
    boolean triggers are the OR of the inputs, both thresholds are the
    forward maximum of the inputs (see [Forward_max]) and the intents are
    the concatenation of the two lists. *)
Theorem MergeAndDestroy_accumulates (p q : EvalResult) :
  (∀ f, conflicts f p q = false) →
  prechecks_pass q = true →
  nothing_unmerged q = true →
  ∃ p',
    MergeAndDestroy p q = Return None p' EvalResult_zero
    ∧ Delta (Replicated p') = Delta (Replicated p)
    ∧ BlockReads (Replicated p')
      = BlockReads (Replicated p) || BlockReads (Replicated q)
    ∧ gossipFirstRange (Local p')
      = gossipFirstRange (Local p) || gossipFirstRange (Local q)
    ∧ maybeGossipSystemConfig (Local p')
      = maybeGossipSystemConfig (Local p) || maybeGossipSystemConfig (Local q)
    ∧ maybeAddToSplitQueue (Local p')
      = maybeAddToSplitQueue (Local p) || maybeAddToSplitQueue (Local q)
    ∧ GCThreshold (state_of p')
      = hlc.Forward (GCThreshold (state_of p)) (GCThreshold (state_of q))
    ∧ TxnSpanGCThreshold (state_of p')
      = hlc.Forward (TxnSpanGCThreshold (state_of p))
                    (TxnSpanGCThreshold (state_of q))
    ∧ intents_of p' = (intents_of p ++ intents_of q)%list.
Proof.
  intros Hc Hpre Hres.
  pose proof (Hc TDesc) as C0. pose proof (Hc TLease) as C1.
  pose proof (Hc TTruncatedState) as C2. pose proof (Hc TFrozen) as C3.
  pose proof (Hc TSplit) as C4. pose proof (Hc TMerge) as C5.
  pose proof (Hc TChangeReplicas) as C6.
  pose proof (Hc TComputeChecksum) as C7.
  pose proof (Hc TRaftLogSize) as C8.
  pose proof (Hc TLeaseMetricsResult) as C9.
  pose proof (Hc TMaybeGossipNodeLiveness) as C10.
  clear Hc. unfold prechecks_pass in Hpre. unfold nothing_unmerged in Hres.
  explode p. explode q. unfold conflicts, state_of in *. cbn in *.
  fields_zero.
  eexists. split.
  - unfold MergeAndDestroy. do 21 merge_step.
    apply check_destroyed_zero.
  - cbn. repeat split.
    unfold intents_of, merge_intents. cbn.
    repeat match goal with
           | |- context [default _ ?x] => is_var x; destruct x
           end; cbn; rewrite ?app_nil_r; reflexivity.
Qed.

Lemma MergeAndDestroy_accumulates_witness :
  ∃ p',
    MergeAndDestroy ex_dst ex_src = Return None p' EvalResult_zero
    ∧ Delta (Replicated p') = Delta (Replicated ex_dst)
    ∧ BlockReads (Replicated p')
      = BlockReads (Replicated ex_dst) || BlockReads (Replicated ex_src)
    ∧ gossipFirstRange (Local p')
      = gossipFirstRange (Local ex_dst) || gossipFirstRange (Local ex_src)
    ∧ maybeGossipSystemConfig (Local p')
      = maybeGossipSystemConfig (Local ex_dst)
        || maybeGossipSystemConfig (Local ex_src)
    ∧ maybeAddToSplitQueue (Local p')
      = maybeAddToSplitQueue (Local ex_dst)
        || maybeAddToSplitQueue (Local ex_src)
    ∧ GCThreshold (state_of p')
      = hlc.Forward (GCThreshold (state_of ex_dst))
                    (GCThreshold (state_of ex_src))
    ∧ TxnSpanGCThreshold (state_of p')
      = hlc.Forward (TxnSpanGCThreshold (state_of ex_dst))
                    (TxnSpanGCThreshold (state_of ex_src))
    ∧ intents_of p' = (intents_of ex_dst ++ intents_of ex_src)%list.
Proof.
  apply (MergeAndDestroy_accumulates ex_dst ex_src).
  - intros f. destruct f; reflexivity.
  - reflexivity.
  - reflexivity.
Defined.

(** C2 as stated fails: with no trigger on either side, a merged-in record
    that carries a statistics delta is not merged (the deltas are not
    added up); the final check finds the delta still there and stops the
    process. *)
Lemma MergeAndDestroy_delta_not_summed :
  ¬ (∀ p q : EvalResult,
       (∀ f, conflicts f p q = false) →
       ∃ p' q',
         MergeAndDestroy p q = Return None p' q'
         ∧ Delta (Replicated p')
           = enginepb.Add (Delta (Replicated p)) (Delta (Replicated q))).
Proof.
  intros H.
  destruct (H EvalResult_zero ex_delta_src) as (p' & q' & E & _).
  - intros f. destruct f; reflexivity.
  - vm_compute in E. discriminate E.
Qed.

Example MergeAndDestroy_delta_fatal :
  MergeAndDestroy EvalResult_zero ex_delta_src
  = Fatalf "unhandled EvalResult" EvalResult_zero ex_delta_src.
Proof. vm_compute. reflexivity. Qed.

(** ** Conflicting triggers *)

Ltac conflict_here :=
  first [ apply absorb_conflict; cbn; assumption
        | apply absorb_Frozen_conflict; cbn; assumption ].

(** One statement of the merge when nothing is known about the other
    fields: it returns an error (and we are done) or it continues. *)
Ltac merge_case_step :=
  lazymatch goal with
  | |- ∃ msg p' q', seq ?s ?t ?p ?q = Return (Some msg) p' q' ∧ _ =>
      lazymatch s with
      | reject_if ?c ?m =>
          let E := fresh "E" in
          destruct (reject_if_cases c m p q) as [E|E];
          [ exists m, p, q; split;
            [exact (seq_Return _ _ _ _ _ _ _ E) | cbn; reflexivity]
          | rewrite (seq_Continue _ _ _ _ _ _ E); clear E; cbn ]
      | absorb ?get ?set ?m =>
          first
            [ exists m, p, q; split;
              [apply seq_Return; conflict_here | cbn; reflexivity]
            | let E := fresh "E" in
              destruct (absorb_cases get set m p q eq_refl) as [E|E];
              [ exists m, p, q; split;
                [exact (seq_Return _ _ _ _ _ _ _ E) | cbn; reflexivity]
              | rewrite (seq_Continue _ _ _ _ _ _ E); clear E; cbn ] ]
      | absorb_Frozen =>
          first
            [ exists "conflicting FrozenStatus", p, q; split;
              [apply seq_Return; conflict_here | cbn; reflexivity]
            | let E := fresh "E" in
              destruct (absorb_Frozen_cases p q eq_refl) as [E|E];
              [ exists "conflicting FrozenStatus", p, q; split;
                [exact (seq_Return _ _ _ _ _ _ _ E) | cbn; reflexivity]
              | rewrite (seq_Continue _ _ _ _ _ _ E); clear E; cbn ] ]
      | append_intents =>
          rewrite (seq_Continue _ _ _ _ _ _ (append_intents_eq p q eq_refl));
          cbn
      | _ => rewrite (seq_Continue s t p q _ _ eq_refl); cbn
      end
  end.

(** Two records that set the same trigger are never merged: the merge
    returns an error, and the receiver still holds its own value. *)
Lemma MergeAndDestroy_conflict_rejected (f : Trigger) (p q : EvalResult) :
  is_set f p = true → is_set f q = true →
  ∃ msg p' q',
    MergeAndDestroy p q = Return (Some msg) p' q' ∧ same_trigger f p p'.
Proof.
  intros Hp Hq. explode p. explode q.
  destruct f; cbn in Hp, Hq; unfold MergeAndDestroy, same_trigger;
    repeat merge_case_step.
Qed.

(** One statement on the way to the first conflict: it continues, or it
    is the statement of the trigger set on both sides. *)
Ltac merge_until_conflict :=
  first [ apply seq_Return; conflict_here | merge_step ].

(** When the checks placed before the trigger's statement pass and no
    earlier trigger is set on both sides, the error is the conflict error
    of that trigger. *)
Lemma MergeAndDestroy_conflict_named (f : Trigger) (p q : EvalResult) :
  is_set f p = true → is_set f q = true →
  RaftAppliedIndex (state_of q) = 0 →
  LeaseAppliedIndex (state_of q) = 0 →
  (after_stats_check f = true → Stats (state_of q) = enginepb.MVCCStats_zero) →
  (∀ g, (rank g < rank f)%nat → conflicts g p q = false) →
  ∃ p' q',
    MergeAndDestroy p q = Return (Some (conflict_msg f)) p' q'
    ∧ same_trigger f p p'.
Proof.
  intros Hp Hq Hr Hl Hs Hno.
  assert (Hg : ∀ g, (rank g <? rank f)%nat = true → conflicts g p q = false)
    by (intros g Hlt; apply Hno; apply Nat.ltb_lt; exact Hlt).
  clear Hno.
  pose proof (Hg TDesc) as C0. pose proof (Hg TLease) as C1.
  pose proof (Hg TTruncatedState) as C2. pose proof (Hg TFrozen) as C3.
  pose proof (Hg TSplit) as C4. pose proof (Hg TMerge) as C5.
  pose proof (Hg TChangeReplicas) as C6.
  pose proof (Hg TComputeChecksum) as C7.
  pose proof (Hg TRaftLogSize) as C8.
  pose proof (Hg TLeaseMetricsResult) as C9.
  clear Hg.
  explode p. explode q. unfold conflicts in *.
  destruct f; cbn in *;
    repeat match goal with
           | H : true = true → _ |- _ => specialize (H eq_refl)
           | H : false = true → _ |- _ => clear H
           end;
    subst;
    (eexists _, _; split;
     [ unfold MergeAndDestroy; repeat merge_until_conflict
     | cbn; reflexivity ]).
Qed.

(** C1 (as amended).  When both records set the same trigger the merge
    returns an error and the receiver keeps its own value for that
    trigger; the error is the conflict error naming the trigger whenever
    the trigger's statement is the first check to fail, that is when the
    merged-in record has zero applied indexes (and zero statistics, for
    the triggers treated after the statistics check) and no trigger
    treated earlier is set on both sides. *)
Theorem MergeAndDestroy_conflict (f : Trigger) (p q : EvalResult) :
  is_set f p = true → is_set f q = true →
  (∃ msg p' q',
     MergeAndDestroy p q = Return (Some msg) p' q' ∧ same_trigger f p p')
  ∧ (RaftAppliedIndex (state_of q) = 0 →
     LeaseAppliedIndex (state_of q) = 0 →
     (after_stats_check f = true →
      Stats (state_of q) = enginepb.MVCCStats_zero) →
     (∀ g, (rank g < rank f)%nat → conflicts g p q = false) →
     ∃ p' q',
       MergeAndDestroy p q = Return (Some (conflict_msg f)) p' q'
       ∧ same_trigger f p p').
Proof.
  intros Hp Hq. split.
  - by apply MergeAndDestroy_conflict_rejected.
  - by apply MergeAndDestroy_conflict_named.
Qed.

Lemma MergeAndDestroy_conflict_witness :
  ∃ p' q',
    MergeAndDestroy ex_lease_dst ex_lease_dst
    = Return (Some (conflict_msg TLease)) p' q'
    ∧ same_trigger TLease ex_lease_dst p'.
Proof.
  refine (proj2 (MergeAndDestroy_conflict TLease ex_lease_dst ex_lease_dst
                   _ _) _ _ _ _).
  - reflexivity.
  - reflexivity.
  - reflexivity.
  - reflexivity.
  - intros Hs. discriminate Hs.
  - intros g Hg. destruct g; cbn in Hg; try lia; reflexivity.
Defined.

(** C1 as stated fails: both records set a lease, but the merged-in record
    also carries an applied index, and the error returned is the one of
    the applied index check, not a conflict error naming the lease. *)
Lemma MergeAndDestroy_conflict_not_always_named :
  ¬ (∀ (f : Trigger) (p q : EvalResult),
       is_set f p = true → is_set f q = true →
       ∃ p' q', MergeAndDestroy p q = Return (Some (conflict_msg f)) p' q').
Proof.
  intros H.
  destruct (H TLease ex_lease_dst ex_lease_src_indexed eq_refl eq_refl)
    as (p' & q' & E).
  vm_compute in E. discriminate E.
Qed.

Example MergeAndDestroy_ex_index_before_conflict :
  MergeAndDestroy ex_lease_dst ex_lease_src_indexed
  = Return (Some "must not specify RaftApplyIndex")
           ex_lease_dst ex_lease_src_indexed.
Proof. vm_compute. reflexivity. Qed.

Example MergeAndDestroy_ex_lease_conflict :
  MergeAndDestroy ex_lease_dst ex_lease_dst
  = Return (Some "conflicting Lease") ex_lease_dst ex_lease_dst.
Proof. vm_compute. reflexivity. Qed.

(** ** Running a call *)

Lemma bind_Done {A B : Type} (m : M A) (k : A → M B) w a w' :
  m w = Done a w' → (m ≫= k) w = k a w'.
Proof. unfold mbind, M_bind. intros ->. reflexivity. Qed.

Lemma bind_Fatal {A B : Type} (m : M A) (k : A → M B) w msg w' :
  m w = Fatal msg w' → (m ≫= k) w = Fatal msg w'.
Proof. unfold mbind, M_bind. intros ->. reflexivity. Qed.

Lemma bind_cases {A B : Type} (m : M A) (k : A → M B) w :
  (∃ a w', m w = Done a w' ∧ (m ≫= k) w = k a w')
  ∨ (∃ msg w', m w = Fatal msg w' ∧ (m ≫= k) w = Fatal msg w').
Proof.
  unfold mbind, M_bind. destruct (m w) as [a w'|msg w']; eauto.
Qed.

(** Unfolding the operations of the monad. *)
Ltac run :=
  unfold when, mbind, M_bind, mret, M_ret, emit, fatal, modify, get_replica,
    make_chan in *; cbn in *.

(** ** The lease hand-over *)

Example leasePostApply_ex_to_self :
  trace (final (leasePostApply ex_env ex_lease_self 2 ex_lease ex_world))
  = [Log "new range lease"; TsCache_SetLowWater (hlc.mkTimestamp 120 0)].
Proof. vm_compute. reflexivity. Qed.

Example leasePostApply_ex_to_other :
  trace (final (leasePostApply ex_env ex_lease_other 2 ex_lease ex_world))
  = [TsCache_Clear (hlc.mkTimestamp 150 0);
     Log "transferring raft leadership"; Raft_TransferLeader 3].
Proof. vm_compute. reflexivity. Qed.

(** C5.  When the lease changes hands, the only call made on the
    timestamp cache is: setting the low water mark to the start of the
    new lease if this replica is the new holder, clearing the cache
    (at the current clock reading) otherwise.  The previous lease's
    expiration plays no part. *)
Theorem leasePostApply_tsCache (env : Env) (newLease prevLease : roachpb.Lease)
    (replicaID : Z) (w : World) :
  roachpb.StoreID (roachpb.Replica prevLease)
  ≠ roachpb.StoreID (roachpb.Replica newLease) →
  ∃ es,
    trace (final (leasePostApply env newLease replicaID prevLease w))
    = trace w ++ es
    ∧ (roachpb.ReplicaID (roachpb.Replica newLease) = replicaID →
       tsCache_calls es = [TsCache_SetLowWater (roachpb.Start newLease)])
    ∧ (roachpb.ReplicaID (roachpb.Replica newLease) ≠ replicaID →
       tsCache_calls es = [TsCache_Clear (clock_Now env)]).
Proof.
  intros Hstore. unfold leasePostApply, maybeTransferRaftLeadership.
  apply Z.eqb_neq in Hstore. rewrite Hstore.
  destruct (Z.eqb_spec (roachpb.ReplicaID (roachpb.Replica newLease)) replicaID)
    as [Hid|Hid];
    destruct (IsFirstRange env), (Covers env newLease (clock_Now env)),
      (withRaftGroup_fails env), (isRaftLeader env); run;
    rewrite <- ?app_assoc; cbn;
    (eexists; split; [first [reflexivity | symmetry; apply app_nil_r]|]);
    split; intros ?; first [reflexivity | contradiction].
Qed.

Lemma leasePostApply_tsCache_witness :
  ∃ es,
    trace (final (leasePostApply ex_env ex_lease_self 2 ex_lease ex_world))
    = trace ex_world ++ es
    ∧ (roachpb.ReplicaID (roachpb.Replica ex_lease_self) = 2 →
       tsCache_calls es = [TsCache_SetLowWater (roachpb.Start ex_lease_self)])
    ∧ (roachpb.ReplicaID (roachpb.Replica ex_lease_self) ≠ 2 →
       tsCache_calls es = [TsCache_Clear (clock_Now ex_env)]).
Proof.
  apply (leasePostApply_tsCache ex_env ex_lease_self ex_lease 2 ex_world).
  vm_compute. discriminate.
Defined.

(** ** Checksums *)

Lemma swept_expired now (m : gmap Z replicaChecksum) k c :
  m !! k = Some c → expired now c = true → swept now m !! k = None.
Proof.
  intros Hk He. unfold swept. apply map_lookup_filter_None_2. right.
  intros x Hx. cbn. rewrite Hk in Hx. injection Hx as <-. rewrite He.
  discriminate.
Qed.

Lemma launches_app id es1 es2 :
  launches id (es1 ++ es2) = (launches id es1 + launches id es2)%nat.
Proof. unfold launches. rewrite List.filter_app, length_app. reflexivity. Qed.

Lemma launches_other id k b d :
  k ≠ id → launches k [Store_NewSnapshot; RunAsyncTask_sha512 id b d] = 0%nat.
Proof.
  intros Hk. unfold launches. cbn.
  destruct (Z.eqb_spec id k); [congruence|reflexivity].
Qed.

Lemma launches_self id b d :
  launches id [Store_NewSnapshot; RunAsyncTask_sha512 id b d] = 1%nat.
Proof. unfold launches. cbn. rewrite Z.eqb_refl. reflexivity. Qed.

#[local] Arguments launches : simpl never.

(** A request whose entry is already started returns at once: the world
    is as before. *)
Lemma computeChecksumPostApply_started env args w c :
  mu_checksums (replica w) !! roachpb.ChecksumID args = Some c →
  started c = true →
  computeChecksumPostApply env args w = Done tt w.
Proof.
  intros Hc Hs. unfold computeChecksumPostApply. run.
  rewrite Hc, Hs. reflexivity.
Qed.

(** A request that does not return at once: what it leaves behind. *)
Lemma computeChecksumPostApply_computes env args w :
  let id := roachpb.ChecksumID args in
  let w1 := final (computeChecksumPostApply env args w) in
  (mu_checksums (replica w) !! id = None
   ∨ ∃ c, mu_checksums (replica w) !! id = Some c ∧ started c = false) →
  ∃ es c',
    trace w1 = trace w ++ es
    ∧ mu_checksums (replica w1) !! id = Some c'
    ∧ started c' = true ∧ checksum c' = None
    ∧ notify c' = match mu_checksums (replica w) !! id with
                  | Some c => notify c
                  | None => next_chan w
                  end
    ∧ next_chan w1 = match mu_checksums (replica w) !! id with
                     | Some c => next_chan w
                     | None => next_chan w + 1
                     end
    ∧ (∀ k, k ≠ id →
         mu_checksums (replica w1) !! k
         = swept (timeutil_Now env) (mu_checksums (replica w)) !! k)
    ∧ (launches id es ≤ 1)%nat
    ∧ (∀ k, k ≠ id → launches k es = 0%nat)
    ∧ (launches id es = 1%nat → gcTimestamp c' = 0).
Proof.
  intros id w1 Hcase. subst w1.
  unfold computeChecksumPostApply, gcOldChecksumEntriesLocked,
    computeChecksumDone.
  fold id. fold (swept (timeutil_Now env) (mu_checksums (replica w))).
  destruct Hcase as [Hn|(c & Hc & Hs)]; run.
  - rewrite Hn.
    destruct (Desc (mu_state (replica w))) as [desc|]; cbn;
      [destruct (RunAsyncTask_fails env); cbn;
       rewrite ?lookup_insert_eq; cbn|];
      rewrite <- ?app_assoc; cbn;
      (eexists _, _; split;
       [first [reflexivity | symmetry; apply app_nil_r]|]);
      rewrite ?lookup_insert_eq;
      (repeat split; try reflexivity; try (cbn; lia); try discriminate;
       try (intros k Hk; rewrite ?lookup_insert_ne by congruence; reflexivity);
       try (intros k Hk; apply launches_other; exact Hk)).
    all: try (rewrite launches_self; lia).
    all: try (unfold launches; cbn; lia).
  - rewrite Hc, Hs. cbn.
    destruct (Desc (mu_state (replica w))) as [desc|]; cbn;
      [destruct (RunAsyncTask_fails env); cbn;
       rewrite ?lookup_insert_eq; cbn|];
      rewrite <- ?app_assoc; cbn;
      (eexists _, _; split;
       [first [reflexivity | symmetry; apply app_nil_r]|]);
      rewrite ?lookup_insert_eq;
      (repeat split; try reflexivity; try (cbn; lia); try discriminate;
       try (intros k Hk; rewrite ?lookup_insert_ne by congruence; reflexivity);
       try (intros k Hk; apply launches_other; exact Hk)).
    all: try (rewrite launches_self; lia).
    all: try (unfold launches; cbn; lia).
Qed.

Example computeChecksums_ex :
  trace (final (computeChecksums
                  [(ex_env, roachpb.mkComputeChecksumRequest 3 false);
                   (ex_env, roachpb.mkComputeChecksumRequest 3 false);
                   (ex_env, roachpb.mkComputeChecksumRequest 2 false)]
                  ex_world_waiting))
  = [Store_NewSnapshot; RunAsyncTask_sha512 3 false ex_desc].
Proof. vm_compute. reflexivity. Qed.

(** C8 (as amended).  A request that does not return at once (its id has
    no entry, or one that is not started) removes every entry of another
    id whose deadline is set and has passed; under the requested id
    itself it leaves a fresh started entry without digest. *)
Theorem computeChecksumPostApply_gc (env : Env)
    (args : roachpb.ComputeChecksumRequest) (w : World) (k : Z)
    (c : replicaChecksum) :
  let id := roachpb.ChecksumID args in
  let w1 := final (computeChecksumPostApply env args w) in
  mu_checksums (replica w) !! k = Some c →
  expired (timeutil_Now env) c = true →
  (mu_checksums (replica w) !! id = None
   ∨ ∃ c0, mu_checksums (replica w) !! id = Some c0 ∧ started c0 = false) →
  (k ≠ id → mu_checksums (replica w1) !! k = None)
  ∧ (k = id →
     ∃ c', mu_checksums (replica w1) !! k = Some c'
           ∧ started c' = true ∧ checksum c' = None).
Proof.
  intros id w1 Hk He Hcase.
  destruct (computeChecksumPostApply_computes env args w Hcase)
    as (es & c' & _ & Hid & Hst & Hsum & _ & _ & Hoth & _).
  split.
  - intros Hne. fold w1 in Hoth. rewrite (Hoth k Hne).
    by apply (swept_expired _ _ k c).
  - intros ->. exists c'. auto.
Qed.

Lemma computeChecksumPostApply_gc_witness :
  (1 ≠ 3 →
   mu_checksums
     (replica (final (computeChecksumPostApply ex_env
                        (roachpb.mkComputeChecksumRequest 3 false)
                        ex_world_waiting))) !! 1 = None)
  ∧ (1 = 3 →
     ∃ c', mu_checksums
             (replica (final (computeChecksumPostApply ex_env
                                (roachpb.mkComputeChecksumRequest 3 false)
                                ex_world_waiting))) !! 1 = Some c'
           ∧ started c' = true ∧ checksum c' = None).
Proof.
  apply (computeChecksumPostApply_gc ex_env
           (roachpb.mkComputeChecksumRequest 3 false) ex_world_waiting 1
           (mkReplicaChecksum true (Some "digest") 5 10)).
  - vm_compute. reflexivity.
  - vm_compute. reflexivity.
  - right. exists (mkReplicaChecksum false None 0 10).
    split; vm_compute; reflexivity.
Defined.

(** C8 as stated fails: a request for an id whose entry is already
    started returns before the sweep, and an entry past its deadline
    stays in the table. *)
Lemma computeChecksumPostApply_started_skips_gc :
  ¬ (∀ env args w k c,
       mu_checksums (replica w) !! k = Some c →
       expired (timeutil_Now env) c = true →
       mu_checksums
         (replica (final (computeChecksumPostApply env args w))) !! k = None).
Proof.
  intros H.
  specialize (H ex_env (roachpb.mkComputeChecksumRequest 2 false)
                ex_world_checksums 1
                (mkReplicaChecksum true (Some "digest") 5 10)).
  assert (E : computeChecksumPostApply ex_env
                (roachpb.mkComputeChecksumRequest 2 false) ex_world_checksums
              = Done tt ex_world_checksums).
  { apply (computeChecksumPostApply_started _ _ _
             (mkReplicaChecksum true None 0 11)); vm_compute; reflexivity. }
  rewrite E in H. cbn in H.
  assert (Hl : ex_checksums !! 1
               = Some (mkReplicaChecksum true (Some "digest") 5 10))
    by (vm_compute; reflexivity).
  rewrite Hl in H. discriminate H; [reflexivity | vm_compute; reflexivity].
Qed.

(** ** What a call returns *)

Lemma returns_ret {A : Type} (a : A) (P : A → Prop) :
  P a → returns (mret a) P.
Proof. intros HP w a' w' [= <- _]. exact HP. Qed.

Lemma returns_bind {A B : Type} (m : M A) (k : A → M B) P Q :
  returns m P → (∀ a, P a → returns (k a) Q) → returns (m ≫= k) Q.
Proof.
  intros Hm Hk w b w'. unfold mbind, M_bind.
  destruct (m w) as [a w1|msg w1] eqn:E; [|discriminate].
  intros H. exact (Hk a (Hm _ _ _ E) _ _ _ H).
Qed.

(** The value of [m ≫= k] does not depend on what [m] does when [k]
    returns the same whatever it is given. *)
Lemma returns_skip {A B : Type} (m : M A) (k : A → M B) Q :
  (∀ a, returns (k a) Q) → returns (m ≫= k) Q.
Proof.
  intros Hk. apply (returns_bind m k (λ _, True)); [done|].
  intros a _. apply Hk.
Qed.

(** The field was already zero: resetting it changes nothing. *)
Ltac already_zero r :=
  match goal with
  | |- r = _ => destruct r as [? [] ? ? ? ? ? ? ? ? ?]; cbn in *; subst;
                reflexivity || congruence
  | |- r = _ => destruct r; cbn in *; subst; reflexivity || congruence
  end.

(** A paragraph returns its record with one field reset. *)
Ltac paragraph r :=
  repeat first
    [ apply returns_ret; first [reflexivity | already_zero r]
    | apply returns_skip; intros ? ].

Lemma replicated_BlockReads_returns r :
  returns (replicated_BlockReads r) (λ r', r' = set_BlockReads false r).
Proof.
  unfold replicated_BlockReads. destruct (BlockReads r) eqn:E; paragraph r.
Qed.

Lemma replicated_stats_returns env r :
  returns (replicated_stats env r)
    (λ r', r' = set_State
                  (set_RaftAppliedIndex 0
                     (set_LeaseAppliedIndex 0
                        (set_Stats enginepb.MVCCStats_zero (State r))))
                  (set_Delta enginepb.MVCCStats_zero r)).
Proof. unfold replicated_stats. paragraph r. Qed.

Lemma replicated_Split_returns env r :
  returns (replicated_Split env r) (λ r', r' = set_Split None r).
Proof.
  unfold replicated_Split. destruct (Split r) eqn:E; paragraph r.
Qed.

Lemma replicated_Merge_returns env r :
  returns (replicated_Merge env r) (λ r', r' = set_Merge None r).
Proof.
  unfold replicated_Merge. destruct (Merge r) eqn:E; paragraph r.
Qed.

Lemma replicated_Frozen_returns r :
  returns (replicated_Frozen r)
    (λ r', r' = set_State
                  (set_Frozen ReplicaState_FROZEN_UNSPECIFIED (State r)) r).
Proof. unfold replicated_Frozen. paragraph r. Qed.

Lemma replicated_Desc_returns env r :
  returns (replicated_Desc env r)
    (λ r', r' = set_State (set_Desc None (State r)) r).
Proof.
  unfold replicated_Desc. destruct (Desc (State r)) eqn:E; paragraph r.
Qed.

Lemma replicated_ChangeReplicas_returns env r :
  returns (replicated_ChangeReplicas env r)
    (λ r', r' = set_ChangeReplicas None r).
Proof.
  unfold replicated_ChangeReplicas.
  destruct (ChangeReplicas r) eqn:E; paragraph r.
Qed.

Lemma replicated_Lease_returns env r :
  returns (replicated_Lease env r)
    (λ r', r' = set_State (set_Lease None (State r)) r).
Proof.
  unfold replicated_Lease. destruct (Lease (State r)) eqn:E; paragraph r.
Qed.

Lemma replicated_TruncatedState_returns r :
  returns (replicated_TruncatedState r)
    (λ r', r' = set_State (set_TruncatedState None (State r)) r).
Proof.
  unfold replicated_TruncatedState.
  destruct (TruncatedState (State r)) eqn:E; paragraph r.
Qed.

Lemma replicated_GCThreshold_returns r :
  returns (replicated_GCThreshold r)
    (λ r', r' = set_State (set_GCThreshold hlc.ZeroTimestamp (State r)) r).
Proof.
  unfold replicated_GCThreshold. cbv zeta. case_bool_decide as E.
  - paragraph r.
  - paragraph r.
Qed.

Lemma replicated_TxnSpanGCThreshold_returns r :
  returns (replicated_TxnSpanGCThreshold r)
    (λ r', r' = set_State
                  (set_TxnSpanGCThreshold hlc.ZeroTimestamp (State r)) r).
Proof.
  unfold replicated_TxnSpanGCThreshold. cbv zeta. case_bool_decide as E.
  - paragraph r.
  - paragraph r.
Qed.

Lemma replicated_ComputeChecksum_returns env r :
  returns (replicated_ComputeChecksum env r)
    (λ r', r' = set_ComputeChecksum None r).
Proof.
  unfold replicated_ComputeChecksum.
  destruct (ComputeChecksum r) eqn:E; paragraph r.
Qed.

(** Chaining the paragraphs. *)
Ltac next_paragraph lem :=
  eapply returns_bind; [apply lem|]; intros ? ->.

(** Every field is reset by the time the final check of
    [handleReplicatedEvalResult] is reached. *)
Lemma handleReplicatedEvalResult_steps_returns env r :
  returns (handleReplicatedEvalResult_steps env r)
    (λ res, res.2 = ReplicatedEvalResult_zero).
Proof.
  unfold handleReplicatedEvalResult_steps, replicated_triggers. cbv zeta.
  next_paragraph replicated_BlockReads_returns.
  next_paragraph replicated_stats_returns.
  eapply returns_bind.
  { next_paragraph replicated_Split_returns.
    next_paragraph replicated_Merge_returns.
    next_paragraph replicated_Frozen_returns.
    next_paragraph replicated_Desc_returns.
    next_paragraph replicated_ChangeReplicas_returns.
    next_paragraph replicated_Lease_returns.
    next_paragraph replicated_TruncatedState_returns.
    next_paragraph replicated_GCThreshold_returns.
    next_paragraph replicated_TxnSpanGCThreshold_returns.
    apply replicated_ComputeChecksum_returns. }
  intros ? ->. apply returns_ret.
  destruct r as [? [] ? ? ? ? ? ? ? ? ?]. reflexivity.
Qed.

Lemma local_intents_returns env o l :
  returns (local_intents env o l) (λ l', l' = set_intents None l).
Proof. unfold local_intents. paragraph l. Qed.

Lemma local_raftLogSize_returns l :
  returns (local_raftLogSize l) (λ l', l' = set_raftLogSize None l).
Proof.
  unfold local_raftLogSize. destruct (raftLogSize l) eqn:E; paragraph l.
Qed.

Lemma local_gossipFirstRange_returns env l :
  returns (local_gossipFirstRange env l)
    (λ l', l' = set_gossipFirstRange false l).
Proof.
  unfold local_gossipFirstRange.
  destruct (gossipFirstRange l) eqn:E; paragraph l.
Qed.

Lemma local_maybeAddToSplitQueue_returns env l :
  returns (local_maybeAddToSplitQueue env l)
    (λ l', l' = set_maybeAddToSplitQueue false l).
Proof.
  unfold local_maybeAddToSplitQueue.
  destruct (maybeAddToSplitQueue l) eqn:E; paragraph l.
Qed.

Lemma local_maybeGossipSystemConfig_returns l :
  returns (local_maybeGossipSystemConfig l)
    (λ l', l' = set_maybeGossipSystemConfig false l).
Proof.
  unfold local_maybeGossipSystemConfig.
  destruct (maybeGossipSystemConfig l) eqn:E; paragraph l.
Qed.

Lemma local_proposer_only_returns env o l :
  returns (local_proposer_only env o l)
    (λ l', l' = set_maybeGossipNodeLiveness None
                  (set_leaseMetricsResult None l)).
Proof. unfold local_proposer_only. paragraph l. Qed.

(** Every field is reset by the time the final check of
    [handleLocalEvalResult] is reached. *)
Lemma handleLocalEvalResult_steps_returns env o l :
  returns (handleLocalEvalResult_steps env o l)
    (λ res, res.2 = LocalEvalResult_zero).
Proof.
  unfold handleLocalEvalResult_steps, local_triggers. cbv zeta.
  next_paragraph local_intents_returns.
  eapply returns_bind.
  { next_paragraph local_raftLogSize_returns.
    next_paragraph local_gossipFirstRange_returns.
    next_paragraph local_maybeAddToSplitQueue_returns.
    next_paragraph local_maybeGossipSystemConfig_returns.
    apply local_proposer_only_returns. }
  intros ? ->. apply returns_ret. destruct l. reflexivity.
Qed.

Lemma assert_handled_zero {T : Type} `{EqDecision T} (zero : T) msg w :
  assert_handled zero zero msg w = Done tt w.
Proof. unfold assert_handled. case_decide; [congruence|reflexivity]. Qed.

Lemma assert_handled_nonzero {T : Type} `{EqDecision T} (zero x : T) msg w :
  x ≠ zero → assert_handled zero x msg w = Fatal msg w.
Proof. unfold assert_handled. intros. case_decide; [reflexivity|contradiction]. Qed.

Example handleReplicatedEvalResult_ex :
  handleReplicatedEvalResult_steps ex_env (Replicated ex_src) ex_world
  = Done (true, ReplicatedEvalResult_zero)
      {| replica :=
           on_mu_state (set_GCThreshold (hlc.mkTimestamp 9 0)) ex_replica;
         trace := [ReadOnlyCmdMu_Lock;
                   Metrics_addMVCCStats enginepb.MVCCStats_zero;
                   Log "transferring raft leadership";
                   Raft_TransferLeader 1];
         next_chan := 1 |}.
Proof. vm_compute. reflexivity. Qed.

Example handleLocalEvalResult_ex :
  handleLocalEvalResult ex_env (roachpb.mkReplicaDescriptor 2 2 2)
    (Local ex_src) ex_world
  = Done true
      {| replica := ex_replica;
         trace := [IntentResolver_processIntentsAsync
                     [mkIntentsWithArg "get" []];
                   SplitQueue_MaybeAdd (hlc.mkTimestamp 150 0)];
         next_chan := 1 |}.
Proof. vm_compute. reflexivity. Qed.

(** C4.  Both handlers reach their final check with every field of their
    record reset: the record is the zero value whenever the paragraphs
    before the check complete, so the check never fires and the handlers
    behave as if it were not there; a record with any field left would be
    stopped by the check with the "unhandled field" message. *)
Theorem handlers_consume_every_field :
  (∀ env rResult w sa r' w',
     handleReplicatedEvalResult_steps env rResult w = Done (sa, r') w' →
     r' = ReplicatedEvalResult_zero)
  ∧ (∀ env rResult w,
       handleReplicatedEvalResult env rResult w
       = (res ← handleReplicatedEvalResult_steps env rResult;
          when (BlockReads rResult) (emit ReadOnlyCmdMu_Unlock) ;;
          mret res.1) w)
  ∧ (∀ env origin lResult w sa l' w',
       handleLocalEvalResult_steps env origin lResult w = Done (sa, l') w' →
       l' = LocalEvalResult_zero)
  ∧ (∀ env origin lResult w,
       handleLocalEvalResult env origin lResult w
       = (res ← handleLocalEvalResult_steps env origin lResult;
          mret res.1) w)
  ∧ (∀ (r : ReplicatedEvalResult) w,
       r ≠ ReplicatedEvalResult_zero →
       assert_handled ReplicatedEvalResult_zero r
         "unhandled field in ReplicatedEvalResult" w
       = Fatal "unhandled field in ReplicatedEvalResult" w)
  ∧ (∀ (l : LocalEvalResult) w,
       l ≠ LocalEvalResult_zero →
       assert_handled LocalEvalResult_zero l
         "unhandled field in LocalEvalResult" w
       = Fatal "unhandled field in LocalEvalResult" w).
Proof.
  repeat split.
  - intros env r w sa r' w' E.
    exact (handleReplicatedEvalResult_steps_returns env r _ _ _ E).
  - intros env r w. unfold handleReplicatedEvalResult.
    unfold mbind at 1 4, M_bind.
    destruct (handleReplicatedEvalResult_steps env r w)
      as [[sa r'] w'|msg w'] eqn:E; [|reflexivity].
    pose proof (handleReplicatedEvalResult_steps_returns env r _ _ _ E) as Hz.
    cbn in Hz. subst r'. cbn [snd fst].
    unfold mbind at 1, M_bind. rewrite assert_handled_zero. reflexivity.
  - intros env o l w sa l' w' E.
    exact (handleLocalEvalResult_steps_returns env o l _ _ _ E).
  - intros env o l w. unfold handleLocalEvalResult.
    unfold mbind at 1 3, M_bind.
    destruct (handleLocalEvalResult_steps env o l w)
      as [[sa l'] w'|msg w'] eqn:E; [|reflexivity].
    pose proof (handleLocalEvalResult_steps_returns env o l _ _ _ E) as Hz.
    cbn in Hz. subst l'. cbn [snd fst].
    unfold mbind at 1, M_bind. rewrite assert_handled_zero. reflexivity.
  - intros r w Hr. by apply assert_handled_nonzero.
  - intros l w Hl. by apply assert_handled_nonzero.
Qed.

(** ** What a call adds to the trace *)

Lemma emits_ret {A : Type} ok (a : A) : emits_only ok (mret a).
Proof. intros w. exists []. cbn. by rewrite app_nil_r. Qed.

Lemma emits_fatal {A : Type} ok msg : emits_only ok (@fatal A msg).
Proof. intros w. exists []. cbn. by rewrite app_nil_r. Qed.

Lemma emits_modify ok f : emits_only ok (modify f).
Proof. intros w. exists []. cbn. by rewrite app_nil_r. Qed.

Lemma emits_get_replica ok : emits_only ok get_replica.
Proof. intros w. exists []. cbn. by rewrite app_nil_r. Qed.

Lemma emits_make_chan ok : emits_only ok make_chan.
Proof. intros w. exists []. cbn. by rewrite app_nil_r. Qed.

Lemma emits_emit (ok : Event → bool) e : ok e = true → emits_only ok (emit e).
Proof. intros He w. exists [e]. cbn. by rewrite He. Qed.

Lemma emits_bind {A B : Type} ok (m : M A) (k : A → M B) :
  emits_only ok m → (∀ a, emits_only ok (k a)) → emits_only ok (m ≫= k).
Proof.
  intros Hm Hk w. destruct (Hm w) as (es1 & Ht1 & Hok1).
  unfold mbind, M_bind.
  destruct (m w) as [a w1|msg w1]; cbn in *.
  - destruct (Hk a w1) as (es2 & Ht2 & Hok2).
    exists (es1 ++ es2). rewrite Ht2, Ht1, app_assoc, forallb_app, Hok1, Hok2.
    done.
  - exists es1. done.
Qed.

Lemma emits_when ok b m : emits_only ok m → emits_only ok (when b m).
Proof. destruct b; [done|]. intros _. apply emits_ret. Qed.

(** Going through a definition bind by bind. *)
Ltac emits :=
  repeat first
    [ apply emits_ret
    | apply emits_fatal
    | apply emits_modify
    | apply emits_get_replica
    | apply emits_make_chan
    | apply emits_emit; reflexivity
    | apply emits_when
    | apply emits_bind; [|intros ?]
    | progress cbv zeta
    | match goal with
      | |- emits_only _ (match ?x with _ => _ end) => destruct x
      end ].

Lemma computeChecksumPostApply_no_assert env args :
  emits_only not_AssertState (computeChecksumPostApply env args).
Proof.
  unfold computeChecksumPostApply, gcOldChecksumEntriesLocked,
    computeChecksumDone. emits.
Qed.

Lemma leasePostApply_no_assert env newLease replicaID prevLease :
  emits_only not_AssertState
    (leasePostApply env newLease replicaID prevLease).
Proof. unfold leasePostApply, maybeTransferRaftLeadership. emits. Qed.

Lemma handleReplicatedEvalResult_no_assert env r :
  emits_only not_AssertState (handleReplicatedEvalResult env r).
Proof.
  unfold handleReplicatedEvalResult, handleReplicatedEvalResult_steps,
    replicated_triggers, assert_handled.
  unfold replicated_BlockReads, replicated_stats, replicated_Split,
    replicated_Merge, replicated_Frozen, replicated_Desc, setDesc,
    replicated_ChangeReplicas, replicated_Lease, replicated_TruncatedState,
    replicated_GCThreshold, replicated_TxnSpanGCThreshold,
    replicated_ComputeChecksum, leasePostApply, maybeTransferRaftLeadership,
    computeChecksumPostApply, gcOldChecksumEntriesLocked, computeChecksumDone.
  emits.
Qed.

Lemma handleLocalEvalResult_no_assert env o l :
  emits_only not_AssertState (handleLocalEvalResult env o l).
Proof.
  unfold handleLocalEvalResult, handleLocalEvalResult_steps, local_triggers,
    assert_handled.
  unfold local_intents, local_raftLogSize, local_gossipFirstRange,
    local_maybeAddToSplitQueue, local_maybeGossipSystemConfig,
    local_proposer_only.
  emits.
Qed.

Lemma filter_AssertState_none es :
  forallb not_AssertState es = true → List.filter is_AssertState es = [].
Proof.
  induction es as [|e es IH]; [done|]. cbn. unfold not_AssertState at 1.
  destruct (is_AssertState e); cbn; [discriminate|exact IH].
Qed.

Lemma assertState_trace env w :
  trace (final (assertState env w)) = trace w ++ [AssertState].
Proof. unfold assertState. run. by destruct (assertState_diverged env). Qed.

Example handleEvalResult_ex_asserts :
  trace (final (handleEvalResult ex_env (roachpb.mkReplicaDescriptor 2 2 2)
                  (Local ex_src) (Replicated ex_src) ex_world))
  = [ReadOnlyCmdMu_Lock; Metrics_addMVCCStats enginepb.MVCCStats_zero;
     Log "transferring raft leadership"; Raft_TransferLeader 1;
     ReadOnlyCmdMu_Unlock;
     IntentResolver_processIntentsAsync [mkIntentsWithArg "get" []];
     SplitQueue_MaybeAdd (hlc.mkTimestamp 150 0);
     AssertState].
Proof. vm_compute. reflexivity. Qed.

Example handleEvalResult_ex_trivial :
  trace (final (handleEvalResult ex_env (roachpb.mkReplicaDescriptor 2 2 2)
                  LocalEvalResult_zero ReplicatedEvalResult_zero ex_world))
  = [Metrics_addMVCCStats enginepb.MVCCStats_zero].
Proof. vm_compute. reflexivity. Qed.

(** C9.  Once the replicated handler has completed, whatever it
    returned, the coordinator runs the local handler from the world it
    left; and when that one completes too, the consistency assertion is
    made exactly when one of the two returned true: the trace of the
    whole call holds one [AssertState] call in that case and none
    otherwise. *)
Theorem handleEvalResult_runs_both (env : Env)
    (origin : roachpb.ReplicaDescriptor) (lResult : LocalEvalResult)
    (rResult : ReplicatedEvalResult) (w : World) (sa1 : bool) (w1 : World) :
  handleReplicatedEvalResult env rResult w = Done sa1 w1 →
  handleEvalResult env origin lResult rResult w
  = (sa2 ← handleLocalEvalResult env origin lResult;
     when (sa2 || sa1) (assertState env)) w1
  ∧ ∀ sa2 w2,
      handleLocalEvalResult env origin lResult w1 = Done sa2 w2 →
      handleEvalResult env origin lResult rResult w
      = when (sa1 || sa2) (assertState env) w2
      ∧ ∃ es,
          trace (final (handleEvalResult env origin lResult rResult w))
          = trace w ++ es
          ∧ List.filter is_AssertState es
            = if sa1 || sa2 then [AssertState] else [].
Proof.
  intros H1.
  assert (Hrun : handleEvalResult env origin lResult rResult w
                 = (sa2 ← handleLocalEvalResult env origin lResult;
                    when (sa2 || sa1) (assertState env)) w1).
  { unfold handleEvalResult, mbind, M_bind. rewrite H1. reflexivity. }
  split; [exact Hrun|]. intros sa2 w2 H2.
  assert (Hall : handleEvalResult env origin lResult rResult w
                 = when (sa1 || sa2) (assertState env) w2).
  { rewrite Hrun. unfold mbind, M_bind. rewrite H2.
    by rewrite (orb_comm sa2 sa1). }
  split; [exact Hall|].
  destruct (handleReplicatedEvalResult_no_assert env rResult w)
    as (es1 & Ht1 & Hok1).
  destruct (handleLocalEvalResult_no_assert env origin lResult w1)
    as (es2 & Ht2 & Hok2).
  rewrite H1 in Ht1. rewrite H2 in Ht2. cbn in Ht1, Ht2.
  rewrite Hall. destruct (sa1 || sa2); cbn.
  - exists (es1 ++ es2 ++ [AssertState]).
    rewrite assertState_trace, Ht2, Ht1, <- !app_assoc.
    split; [reflexivity|].
    rewrite !List.filter_app, !filter_AssertState_none by assumption.
    reflexivity.
  - exists (es1 ++ es2). rewrite Ht2, Ht1, <- !app_assoc.
    split; [reflexivity|].
    rewrite !List.filter_app, !filter_AssertState_none by assumption.
    reflexivity.
Qed.

Lemma handleEvalResult_runs_both_witness :
  handleEvalResult ex_env (roachpb.mkReplicaDescriptor 2 2 2)
    (Local ex_src) (Replicated ex_src) ex_world
  = when (true || true) (assertState ex_env) ex_after_local.
Proof.
  refine (proj1 (proj2 (handleEvalResult_runs_both ex_env
                          (roachpb.mkReplicaDescriptor 2 2 2)
                          (Local ex_src) (Replicated ex_src) ex_world
                          true ex_after_replicated _)
                   true ex_after_local _)).
  - vm_compute. reflexivity.
  - vm_compute. reflexivity.
Defined.

(** ** The split *)

Lemma bind_Done2 {A B C : Type} (m : M A) (k1 : A → M B) (k2 : B → M C)
    w a w1 :
  m w = Done a w1 → ((m ≫= k1) ≫= k2) w = (k1 a ≫= k2) w1.
Proof. unfold mbind, M_bind. intros ->. reflexivity. Qed.

Lemma bind_Done3 {A B C D : Type} (m : M A) (k1 : A → M B) (k2 : B → M C)
    (k3 : C → M D) w a w1 :
  m w = Done a w1 →
  (((m ≫= k1) ≫= k2) ≫= k3) w = ((k1 a ≫= k2) ≫= k3) w1.
Proof. unfold mbind, M_bind. intros ->. reflexivity. Qed.

Lemma bind_Fatal3 {A B C D : Type} (m : M A) (k1 : A → M B) (k2 : B → M C)
    (k3 : C → M D) w msg w1 :
  m w = Fatal msg w1 → (((m ≫= k1) ≫= k2) ≫= k3) w = Fatal msg w1.
Proof. unfold mbind, M_bind. intros ->. reflexivity. Qed.

Lemma replicated_BlockReads_run r w :
  ∃ es,
    replicated_BlockReads r w
    = Done (set_BlockReads false r)
           (mkWorld (replica w) (trace w ++ es) (next_chan w))
    ∧ forallb not_SplitPostApply es = true.
Proof.
  unfold replicated_BlockReads. destruct (BlockReads r) eqn:E.
  - exists [ReadOnlyCmdMu_Lock]. split; reflexivity.
  - exists []. rewrite app_nil_r. split; [|reflexivity].
    destruct w. cbn. f_equal. already_zero r.
Qed.

Lemma replicated_stats_run env r w :
  ∃ w2 es,
    replicated_stats env r w
    = Done (set_State
              (set_RaftAppliedIndex 0
                 (set_LeaseAppliedIndex 0
                    (set_Stats enginepb.MVCCStats_zero (State r))))
              (set_Delta enginepb.MVCCStats_zero r)) w2
    ∧ trace w2 = trace w ++ es
    ∧ forallb not_SplitPostApply es = true
    ∧ Stats (mu_state (replica w2))
      = enginepb.Add (Stats (mu_state (replica w))) (Delta r)
    ∧ RangeID (replica w2) = RangeID (replica w).
Proof.
  unfold replicated_stats. run.
  destruct (RaftAppliedIndex (State r) =? 0),
    (LeaseAppliedIndex (State r) =? 0); cbn;
    match goal with
    | |- context [needsSplitBySizeLocked env ?x] =>
        destruct (needsSplitBySizeLocked env x)
    end;
    match goal with
    | |- context [?a mod ?b =? 1] => destruct (a mod b =? 1)
    end; cbn; rewrite <- ?app_assoc; cbn;
    eexists _, _; (split; [reflexivity|]); cbn;
    (split; [reflexivity|]); done.
Qed.

Lemma replicated_Split_run env r split w :
  Split r = Some split →
  let stats :=
    enginepb.set_ContainsEstimates false (Stats (mu_state (replica w))) in
  let written := SetMVCCStats (RangeID (replica w)) stats in
  ∃ w3,
    (if setMVCCStats_fails env then
       replicated_Split env r w = Fatal "unable to write MVCC stats" w3
       ∧ trace w3 = trace w ++ [written]
     else
       replicated_Split env r w = Done (set_Split None r) w3
       ∧ trace w3
         = trace w
           ++ [written; SplitPostApply (RHSDelta split) (SplitTrigger split)]).
Proof.
  intros Hs stats written. unfold replicated_Split. rewrite Hs. run.
  destruct (setMVCCStats_fails env); cbn; rewrite <- ?app_assoc; cbn;
    eexists; split; reflexivity.
Qed.

Lemma replicated_noop_fields_keeps r :
  Delta (set_BlockReads false (replicated_noop_fields r)) = Delta r.
Proof. destruct r. reflexivity. Qed.

Lemma after_Split_extends env sa r3 b :
  emits_only (λ _, true)
    ((((rResult ← replicated_Merge env r3;
        rResult ← replicated_Frozen rResult;
        rResult ← replicated_Desc env rResult;
        rResult ← replicated_ChangeReplicas env rResult;
        rResult ← replicated_Lease env rResult;
        rResult ← replicated_TruncatedState rResult;
        rResult ← replicated_GCThreshold rResult;
        rResult ← replicated_TxnSpanGCThreshold rResult;
        replicated_ComputeChecksum env rResult)
       ≫= λ rResult, mret (sa, rResult))
      ≫= λ res : bool * ReplicatedEvalResult,
           assert_handled ReplicatedEvalResult_zero res.2
             "unhandled field in ReplicatedEvalResult" ;;
           when b (emit ReadOnlyCmdMu_Unlock) ;; mret res.1)).
Proof.
  unfold assert_handled.
  unfold replicated_Merge, replicated_Frozen, replicated_Desc, setDesc,
    replicated_ChangeReplicas, replicated_Lease, replicated_TruncatedState,
    replicated_GCThreshold, replicated_TxnSpanGCThreshold,
    replicated_ComputeChecksum, leasePostApply, maybeTransferRaftLeadership,
    computeChecksumPostApply, gcOldChecksumEntriesLocked, computeChecksumDone.
  emits.
Qed.

Example handleReplicatedEvalResult_ex_split :
  trace (final (handleReplicatedEvalResult ex_env ex_split_result
                  ex_world_estimates))
  = [Metrics_addMVCCStats (enginepb.mkMVCCStats false 4 0 0 0 0);
     SetMVCCStats 7 (enginepb.mkMVCCStats false 24 0 0 0 0);
     SplitPostApply (enginepb.mkMVCCStats false 3 0 0 0 0)
                    (SplitTrigger ex_split)].
Proof. vm_compute. reflexivity. Qed.

(** C6.  Applying a record with a split: the cumulative statistics (with
    the record's delta folded in) are written to the engine with the
    contains-estimates flag off; no split trigger runs before that write;
    if the write succeeds the split trigger runs right after it, and if
    it fails the process stops there. *)
Theorem split_writes_stats_first (env : Env) (rResult : ReplicatedEvalResult)
    (split : Split_) (w : World) :
  Split rResult = Some split →
  let stats :=
    enginepb.set_ContainsEstimates false
      (enginepb.Add (Stats (mu_state (replica w))) (Delta rResult)) in
  ∃ pre post,
    trace (final (handleReplicatedEvalResult env rResult w))
    = trace w ++ pre ++ SetMVCCStats (RangeID (replica w)) stats :: post
    ∧ enginepb.ContainsEstimates stats = false
    ∧ forallb not_SplitPostApply pre = true
    ∧ (setMVCCStats_fails env = false →
       ∃ post', post = SplitPostApply (RHSDelta split) (SplitTrigger split)
                       :: post')
    ∧ (setMVCCStats_fails env = true → post = []).
Proof.
  intros Hsplit stats.
  pose proof (replicated_noop_fields_keeps rResult) as Hd0.
  unfold handleReplicatedEvalResult, handleReplicatedEvalResult_steps.
  cbv zeta.
  destruct (replicated_BlockReads_run (replicated_noop_fields rResult) w)
    as (es1 & E1 & Hok1).
  rewrite (bind_Done2 _ _ _ _ _ _ E1). cbv beta.
  lazymatch goal with
  | |- context [replicated_stats env ?r] =>
      lazymatch goal with
      | |- context [final (?f ?w1)] =>
          destruct (replicated_stats_run env r w1)
            as (w2 & es2 & E2 & Ht2 & Hok2 & Hst2 & Hid2)
      end
  end.
  rewrite (bind_Done2 _ _ _ _ _ _ E2). cbv beta.
  unfold replicated_triggers.
  lazymatch goal with
  | |- context [replicated_Split env ?r] =>
      destruct (replicated_Split_run env r split w2) as (w3 & E3);
        [destruct rResult; exact Hsplit|]
  end.
  cbn in Ht2, Hst2, Hid2. rewrite Hd0 in Hst2.
  rewrite Hst2, Hid2 in E3. fold stats in E3.
  destruct (setMVCCStats_fails env) eqn:Hf; destruct E3 as [E3 Ht3].
  - rewrite (bind_Fatal3 _ _ _ _ _ _ _ E3). cbn.
    exists (es1 ++ es2), []. rewrite Ht3, Ht2, <- !app_assoc.
    split; [reflexivity|]. split; [reflexivity|].
    rewrite forallb_app, Hok1, Hok2.
    split; [reflexivity|]. split; [intros ?; discriminate|done].
  - rewrite (bind_Done3 _ _ _ _ _ _ _ E3).
    lazymatch goal with
    | |- context [final (?m w3)] =>
        assert (Hext : emits_only (λ _, true) m)
          by apply after_Split_extends;
        destruct (Hext w3) as (es4 & Ht4 & _)
    end.
    rewrite Ht4.
    exists (es1 ++ es2),
      (SplitPostApply (RHSDelta split) (SplitTrigger split) :: es4).
    rewrite Ht3, Ht2, <- !app_assoc.
    split; [reflexivity|]. split; [reflexivity|].
    rewrite forallb_app, Hok1, Hok2.
    split; [reflexivity|]. split; [eauto|intros ?; discriminate].
Qed.

Lemma split_writes_stats_first_witness :
  let stats :=
    enginepb.set_ContainsEstimates false
      (enginepb.Add (Stats (mu_state (replica ex_world_estimates)))
                    (Delta ex_split_result)) in
  ∃ pre post,
    trace (final (handleReplicatedEvalResult ex_env ex_split_result
                    ex_world_estimates))
    = trace ex_world_estimates ++ pre
      ++ SetMVCCStats (RangeID (replica ex_world_estimates)) stats :: post
    ∧ enginepb.ContainsEstimates stats = false
    ∧ forallb not_SplitPostApply pre = true
    ∧ (setMVCCStats_fails ex_env = false →
       ∃ post', post = SplitPostApply (RHSDelta ex_split)
                                      (SplitTrigger ex_split) :: post')
    ∧ (setMVCCStats_fails ex_env = true → post = []).
Proof.
  apply (split_writes_stats_first ex_env ex_split_result ex_split
           ex_world_estimates).
  reflexivity.
Defined.

(** * Further properties *)

(** ** The merge, outcome by outcome *)

Lemma reject_if_cond c msg p q :
  (c q = true ∧ reject_if c msg p q = Return (Some msg) p q)
  ∨ (c q = false ∧ reject_if c msg p q = Continue p q).
Proof. unfold reject_if. destruct (c q); auto. Qed.

Lemma absorb_cond {T} (get : EvalResult → option T) set msg p q :
  set (get p) p = p →
  (non_nil (get p) && non_nil (get q) = true
   ∧ absorb get set msg p q = Return (Some msg) p q)
  ∨ (non_nil (get p) && non_nil (get q) = false
     ∧ absorb get set msg p q
       = Continue (set (merge_opt (get p) (get q)) p) (set None q)).
Proof.
  intros Heta.
  destruct (non_nil (get p) && non_nil (get q)) eqn:E.
  - left. split; [reflexivity|].
    apply andb_prop in E as [? ?]. by apply absorb_conflict.
  - right. split; [reflexivity|]. by apply absorb_ok.
Qed.

Lemma absorb_Frozen_cond p q :
  on_State (set_Frozen (Frozen (state_of p))) p = p →
  (frozen_set (Frozen (state_of p)) && frozen_set (Frozen (state_of q)) = true
   ∧ absorb_Frozen p q = Return (Some "conflicting FrozenStatus") p q)
  ∨ (frozen_set (Frozen (state_of p)) && frozen_set (Frozen (state_of q))
     = false
     ∧ absorb_Frozen p q
       = Continue
           (on_State (set_Frozen (merge_Frozen (Frozen (state_of p))
                                               (Frozen (state_of q)))) p)
           (on_State (set_Frozen ReplicaState_FROZEN_UNSPECIFIED) q)).
Proof.
  intros Heta.
  destruct (frozen_set (Frozen (state_of p))
            && frozen_set (Frozen (state_of q))) eqn:E.
  - left. split; [reflexivity|].
    apply andb_prop in E as [? ?]. by apply absorb_Frozen_conflict.
  - right. split; [reflexivity|]. by apply absorb_Frozen_ok.
Qed.

(** One statement of the merge, in any goal about the rest of the
    function: it returns (first subgoal) or continues.  The condition
    that decides is kept as a hypothesis. *)
Ltac merge_branch :=
  lazymatch goal with
  | |- context [seq ?s ?t ?p ?q] =>
      lazymatch s with
      | reject_if ?c ?m =>
          let C := fresh "C" in
          let E := fresh "E" in
          destruct (reject_if_cond c m p q) as [[C E]|[C E]];
          [ rewrite (seq_Return _ t _ _ _ _ _ E)
          | rewrite (seq_Continue _ t _ _ _ _ E) ];
          clear E; cbn in C; cbn
      | absorb ?get ?set ?m =>
          let C := fresh "C" in
          let E := fresh "E" in
          destruct (absorb_cond get set m p q eq_refl) as [[C E]|[C E]];
          [ rewrite (seq_Return _ t _ _ _ _ _ E)
          | rewrite (seq_Continue _ t _ _ _ _ E) ];
          clear E; cbn in C; cbn
      | absorb_Frozen =>
          let C := fresh "C" in
          let E := fresh "E" in
          destruct (absorb_Frozen_cond p q eq_refl) as [[C E]|[C E]];
          [ rewrite (seq_Return _ t _ _ _ _ _ E)
          | rewrite (seq_Continue _ t _ _ _ _ E) ];
          clear E; cbn in C; cbn
      | append_intents =>
          rewrite (seq_Continue _ t _ _ _ _ (append_intents_eq p q eq_refl));
          cbn
      | _ => rewrite (seq_Continue s t p q _ _ eq_refl); cbn
      end
  end.

(** After [merge_branch]: close the goal of the branch that returned. *)
Tactic Notation "returned" tactic3(tac) :=
  lazymatch goal with
  | |- context [seq _ _ _ _] => idtac
  | _ => tac
  end.

(** X6.  Whatever the outcome (nil, an error, or the fatal check), the
    fields of the receiver that the merge does not fold in (the
    bookkeeping of the local part, the applied indexes, the statistics,
    the delta, the markers, the request, the write batch) are as they
    were. *)
Theorem MergeAndDestroy_keeps_unmerged (p q : EvalResult) :
  unmerged (receiver (MergeAndDestroy p q)) = unmerged p.
Proof.
  explode p. explode q. unfold MergeAndDestroy.
  do 20 (merge_branch; returned reflexivity). merge_branch.
  unfold check_destroyed.
  match goal with |- context [decide ?P] => destruct (decide P) end;
    reflexivity.
Qed.

(** Closing the goal of a branch in which a check failed. *)
Ltac prechecks_known :=
  unfold prechecks_pass, state_of; cbn;
  repeat match goal with
         | H : negb _ = true |- _ => apply negb_true_iff in H
         | H : negb _ = false |- _ => apply negb_false_iff in H
         end;
  repeat match goal with
         | H : (_ =? _) = _ |- _ => rewrite H; clear H
         end;
  cbn;
  try reflexivity;
  try (apply bool_decide_eq_false;
       match goal with
       | H : bool_decide _ = true |- _ =>
           apply bool_decide_eq_true in H; exact H
       end);
  try (apply bool_decide_eq_true;
       match goal with
       | H : bool_decide (?a ≠ ?b) = false |- ?a = ?b =>
           apply bool_decide_eq_false in H;
           destruct (decide (a = b)); [assumption|contradiction]
       end).

Ltac conflict_known :=
  unfold conflicts; cbn;
  first
    [ exists TDesc; cbn; assumption
    | exists TLease; cbn; assumption
    | exists TTruncatedState; cbn; assumption
    | exists TFrozen; cbn; assumption
    | exists TSplit; cbn; assumption
    | exists TMerge; cbn; assumption
    | exists TChangeReplicas; cbn; assumption
    | exists TComputeChecksum; cbn; assumption
    | exists TRaftLogSize; cbn; assumption
    | exists TLeaseMetricsResult; cbn; assumption
    | exists TMaybeGossipNodeLiveness; cbn; assumption ].

(** The merge either returns an error, and then a check before the
    triggers fails or a trigger is set on both sides; or it reaches its
    final check with the merged receiver and what is left of the
    merged-in record. *)
Lemma MergeAndDestroy_outcome (p q : EvalResult) :
  (∃ msg p' q',
     MergeAndDestroy p q = Return (Some msg) p' q'
     ∧ (prechecks_pass q = false ∨ ∃ f, conflicts f p q = true))
  ∨ (prechecks_pass q = true
     ∧ (∀ f, conflicts f p q = false)
     ∧ MergeAndDestroy p q = check_destroyed (merged p q) (unmerged q)).
Proof.
  explode p. explode q. unfold MergeAndDestroy.
  do 20 (merge_branch;
         returned (left; eexists _, _, _; split; [reflexivity|];
                   first [left; prechecks_known; fail | right; conflict_known])).
  merge_branch. right. split; [prechecks_known|]. split.
  - intros f. unfold conflicts. destruct f; cbn; assumption.
  - reflexivity.
Qed.

Lemma unmerged_zero (q : EvalResult) :
  prechecks_pass q = true →
  (unmerged q = EvalResult_zero ↔ nothing_unmerged q = true).
Proof.
  intros Hpre. unfold prechecks_pass in Hpre. explode q.
  unfold nothing_unmerged, unmerged, state_of in *. cbn in *. split.
  - intros [= -> -> -> -> -> -> -> -> -> -> -> -> -> -> -> -> -> -> -> ->].
    reflexivity.
  - intros Hres. fields_zero. reflexivity.
Qed.

(** X1.  The merge returns nil exactly when the checks on the merged-in
    record pass, no trigger is set on both sides, and the merged-in
    record carries nothing the merge does not fold in; the receiver is
    then [merged p q] and the merged-in record is zero. *)
Theorem MergeAndDestroy_nil_iff (p q p' q' : EvalResult) :
  MergeAndDestroy p q = Return None p' q'
  ↔ prechecks_pass q = true
    ∧ (∀ f, conflicts f p q = false)
    ∧ nothing_unmerged q = true
    ∧ p' = merged p q ∧ q' = EvalResult_zero.
Proof.
  destruct (MergeAndDestroy_outcome p q)
    as [(msg & p0 & q0 & E & _)|(Hpre & Hc & E)]; rewrite E.
  - split; [discriminate|]. intros (Hpre & Hc & Hres & -> & ->).
    exfalso.
    destruct (MergeAndDestroy_outcome p q)
      as [(msg' & p1 & q1 & E' & [Hf|(f & Hf)])|(_ & _ & E')].
    + congruence.
    + rewrite Hc in Hf. discriminate.
    + rewrite E' in E.
      apply (unmerged_zero q Hpre) in Hres. rewrite Hres in E.
      rewrite check_destroyed_zero in E. discriminate.
  - split.
    + intros H. split; [exact Hpre|]. split; [exact Hc|].
      unfold check_destroyed in H.
      destruct (decide (unmerged q ≠ EvalResult_zero)) as [Hne|He];
        [discriminate|].
      injection H as <- <-. apply dec_stable in He.
      split; [by apply unmerged_zero|]. split; [reflexivity|exact He].
    + intros (_ & _ & Hres & -> & ->).
      apply (unmerged_zero q Hpre) in Hres. rewrite Hres.
      apply check_destroyed_zero.
Qed.

(** X2.  The merge returns an error exactly when a check on the
    merged-in record fails (an applied index or the statistics are set)
    or some trigger is set on both sides. *)
Theorem MergeAndDestroy_error_iff (p q : EvalResult) :
  (∃ msg p' q', MergeAndDestroy p q = Return (Some msg) p' q')
  ↔ prechecks_pass q = false ∨ ∃ f, conflicts f p q = true.
Proof.
  destruct (MergeAndDestroy_outcome p q)
    as [(msg & p0 & q0 & E & H)|(Hpre & Hc & E)].
  - split; [intros _; exact H|]. intros _. eauto.
  - split.
    + intros (msg & p' & q' & E'). rewrite E in E'.
      unfold check_destroyed in E'. case_decide; discriminate.
    + intros [Hf|(f & Hf)]; [congruence|]. rewrite Hc in Hf. discriminate.
Qed.

(** X3.  The final check stops the process exactly when every check
    passes and no trigger conflicts, but the merged-in record carries a
    field the merge does not fold in. *)
Theorem MergeAndDestroy_fatal_iff (p q : EvalResult) :
  (∃ msg p' q', MergeAndDestroy p q = Fatalf msg p' q')
  ↔ prechecks_pass q = true
    ∧ (∀ f, conflicts f p q = false)
    ∧ nothing_unmerged q = false.
Proof.
  destruct (MergeAndDestroy_outcome p q)
    as [(msg & p0 & q0 & E & [Hf|(f & Hf)])|(Hpre & Hc & E)].
  - split; [intros (? & ? & ? & E'); congruence|].
    intros (Hpre & _). congruence.
  - split; [intros (? & ? & ? & E'); congruence|].
    intros (_ & Hc & _). rewrite Hc in Hf. discriminate.
  - split.
    + intros (msg & p' & q' & E'). rewrite E in E'.
      split; [exact Hpre|]. split; [exact Hc|].
      destruct (nothing_unmerged q) eqn:Hres; [|reflexivity].
      apply (unmerged_zero q Hpre) in Hres. rewrite Hres in E'.
      rewrite check_destroyed_zero in E'. discriminate.
    + intros (_ & _ & Hres). rewrite E.
      exists "unhandled EvalResult", (merged p q), (unmerged q).
      apply check_destroyed_nonzero. intros Hz.
      apply (unmerged_zero q Hpre) in Hz. congruence.
Qed.

Lemma MergeAndDestroy_nil_iff_witness :
  MergeAndDestroy ex_dst ex_src = Return None (merged ex_dst ex_src)
                                         EvalResult_zero.
Proof.
  apply (MergeAndDestroy_nil_iff ex_dst ex_src).
  repeat split; try reflexivity. intros f. destruct f; reflexivity.
Defined.

(** X4.  On a successful merge every trigger of the receiver is the one
    that was set: its own value if it had one, else the merged-in
    record's; so a trigger is set afterwards exactly when one of the two
    records set it. *)
Theorem MergeAndDestroy_takes_set_trigger (p q p' q' : EvalResult)
    (f : Trigger) :
  MergeAndDestroy p q = Return None p' q' →
  trigger_absorbed f p q p' ∧ is_set f p' = is_set f p || is_set f q.
Proof.
  intros E.
  destruct (MergeAndDestroy_outcome p q)
    as [(msg & p0 & q0 & E' & _)|(_ & _ & E')]; [congruence|].
  rewrite E' in E. unfold check_destroyed in E.
  case_decide; [discriminate|]. injection E as <- _.
  explode p. explode q.
  destruct f; cbn; (split; [reflexivity|]);
    unfold merge_opt, merge_Frozen;
    repeat match goal with
           | |- context [match ?x with _ => _ end] => is_var x; destruct x
           end; reflexivity.
Qed.

Lemma MergeAndDestroy_takes_set_trigger_witness :
  trigger_absorbed TLease ex_dst ex_src ex_merged
  ∧ is_set TLease ex_merged = is_set TLease ex_dst || is_set TLease ex_src.
Proof.
  apply (MergeAndDestroy_takes_set_trigger ex_dst ex_src ex_merged
           EvalResult_zero TLease).
  vm_compute. reflexivity.
Defined.

(** X5.  Merging a zero record succeeds and leaves the receiver as it
    was, provided its two thresholds are not before the zero timestamp
    (a threshold before it would be moved forward to it). *)
Theorem MergeAndDestroy_zero (p : EvalResult) :
  hlc.Less (GCThreshold (state_of p)) hlc.ZeroTimestamp = false →
  hlc.Less (TxnSpanGCThreshold (state_of p)) hlc.ZeroTimestamp = false →
  MergeAndDestroy p EvalResult_zero = Return None p EvalResult_zero.
Proof.
  intros Hg Ht.
  destruct (MergeAndDestroy_outcome p EvalResult_zero)
    as [(msg & p0 & q0 & _ & [Hf|(f & Hf)])|(_ & _ & E)].
  - discriminate Hf.
  - unfold conflicts in Hf. apply andb_prop in Hf as [_ Hf].
    destruct f; discriminate Hf.
  - rewrite E. change (unmerged EvalResult_zero) with EvalResult_zero.
    rewrite check_destroyed_zero. f_equal.
    explode p. unfold merged, hlc.Forward, state_of in *. cbn in *.
    rewrite Hg, Ht, !orb_false_r. unfold merge_opt, merge_intents, merge_Frozen.
    repeat match goal with
           | |- context [match ?x with _ => _ end] => is_var x; destruct x
           end; reflexivity.
Qed.

Lemma MergeAndDestroy_zero_witness :
  MergeAndDestroy ex_dst EvalResult_zero = Return None ex_dst EvalResult_zero.
Proof.
  apply (MergeAndDestroy_zero ex_dst); reflexivity.
Defined.

Example MergeAndDestroy_zero_moves_early_threshold :
  MergeAndDestroy
    (on_State (set_GCThreshold (hlc.mkTimestamp (-5) 0)) EvalResult_zero)
    EvalResult_zero
  = Return None EvalResult_zero EvalResult_zero.
Proof. vm_compute. reflexivity. Qed.

(** X7.  A failed merge leaves the receiver partially merged: when the
    conflict on a trigger is the first check to fail, every trigger
    treated before it has already been absorbed into the receiver, and
    every trigger from it on is as the receiver had it. *)
Theorem MergeAndDestroy_conflict_partial (f : Trigger) (p q : EvalResult) :
  is_set f p = true → is_set f q = true →
  RaftAppliedIndex (state_of q) = 0 →
  LeaseAppliedIndex (state_of q) = 0 →
  (after_stats_check f = true → Stats (state_of q) = enginepb.MVCCStats_zero) →
  (∀ g, (rank g < rank f)%nat → conflicts g p q = false) →
  ∃ p' q',
    MergeAndDestroy p q = Return (Some (conflict_msg f)) p' q'
    ∧ (∀ g, (rank g < rank f)%nat → trigger_absorbed g p q p')
    ∧ (∀ g, (rank f ≤ rank g)%nat → same_trigger g p p').
Proof.
  intros Hp Hq Hr Hl Hs Hno.
  assert (Hg : ∀ g, (rank g <? rank f)%nat = true → conflicts g p q = false)
    by (intros g Hlt; apply Hno; apply Nat.ltb_lt; exact Hlt).
  clear Hno.
  pose proof (Hg TDesc) as C0. pose proof (Hg TLease) as C1.
  pose proof (Hg TTruncatedState) as C2. pose proof (Hg TFrozen) as C3.
  pose proof (Hg TSplit) as C4. pose proof (Hg TMerge) as C5.
  pose proof (Hg TChangeReplicas) as C6.
  pose proof (Hg TComputeChecksum) as C7.
  pose proof (Hg TRaftLogSize) as C8.
  pose proof (Hg TLeaseMetricsResult) as C9.
  clear Hg.
  explode p. explode q. unfold conflicts in *.
  destruct f; cbn in *;
    repeat match goal with
           | H : true = true → _ |- _ => specialize (H eq_refl)
           | H : false = true → _ |- _ => clear H
           end;
    subst;
    (eexists _, _; split;
     [ unfold MergeAndDestroy; repeat merge_until_conflict
     | split; intros g Hg; destruct g; cbn in Hg;
       try (exfalso; lia); cbn; reflexivity ]).
Qed.

Lemma MergeAndDestroy_conflict_partial_witness :
  ∃ p' q',
    MergeAndDestroy ex_lease_dst
      (on_State (set_Desc (Some ex_desc)) ex_lease_dst)
    = Return (Some (conflict_msg TLease)) p' q'
    ∧ (∀ g, (rank g < rank TLease)%nat →
         trigger_absorbed g ex_lease_dst
           (on_State (set_Desc (Some ex_desc)) ex_lease_dst) p')
    ∧ (∀ g, (rank TLease ≤ rank g)%nat → same_trigger g ex_lease_dst p').
Proof.
  apply (MergeAndDestroy_conflict_partial TLease ex_lease_dst
           (on_State (set_Desc (Some ex_desc)) ex_lease_dst)).
  - reflexivity.
  - reflexivity.
  - reflexivity.
  - reflexivity.
  - intros Hs. discriminate Hs.
  - intros g Hg. destruct g; cbn in Hg; try lia; reflexivity.
Defined.

Example MergeAndDestroy_ex_partial :
  MergeAndDestroy ex_lease_dst
    (on_State (set_Desc (Some ex_desc)) ex_lease_dst)
  = Return (Some "conflicting Lease")
      (on_State (set_Desc (Some ex_desc)) ex_lease_dst)
      ex_lease_dst.
Proof. vm_compute. reflexivity. Qed.

(** ** Sweeping the checksum table *)

Lemma expired_false_iff now c :
  expired now c = false ↔ gcTimestamp c = 0 ∨ now ≤ gcTimestamp c.
Proof.
  unfold expired, IsZero, After.
  destruct (Z.eqb_spec (gcTimestamp c) 0), (Z.ltb_spec (gcTimestamp c) now);
    cbn; split; intros Hx; try done; try lia; auto;
    try (destruct Hx; lia).
Qed.

Lemma swept_lookup now (m : gmap Z replicaChecksum) k c :
  swept now m !! k = Some c
  ↔ m !! k = Some c ∧ (gcTimestamp c = 0 ∨ now ≤ gcTimestamp c).
Proof.
  unfold swept. rewrite map_lookup_filter_Some. cbn.
  by rewrite expired_false_iff.
Qed.

Example gcOldChecksumEntriesLocked_ex :
  mu_checksums
    (replica (final (gcOldChecksumEntriesLocked 150 ex_world_checksums)))
  = <[2 := mkReplicaChecksum true None 0 11]> ∅.
Proof. vm_compute. reflexivity. Qed.

(** X8.  The sweep keeps exactly the entries whose timestamp is unset or
    has not passed yet (an entry whose deadline is the current instant
    stays), each with its contents; it always completes and touches
    nothing but the table. *)
Theorem gcOldChecksumEntriesLocked_keeps (now : Time) (w : World) :
  ∃ w',
    gcOldChecksumEntriesLocked now w = Done tt w'
    ∧ trace w' = trace w ∧ next_chan w' = next_chan w
    ∧ mu_state (replica w') = mu_state (replica w)
    ∧ mu_raftLogSize (replica w') = mu_raftLogSize (replica w)
    ∧ ∀ k c,
        mu_checksums (replica w') !! k = Some c
        ↔ mu_checksums (replica w) !! k = Some c
          ∧ (gcTimestamp c = 0 ∨ now ≤ gcTimestamp c).
Proof.
  eexists. split; [reflexivity|]. cbn.
  do 4 (split; [reflexivity|]). intros k c. apply swept_lookup.
Qed.

(** X9.  Sweeping twice, the second time no earlier than the first,
    leaves what the second sweep alone would leave. *)
Theorem gcOldChecksumEntriesLocked_twice (now1 now2 : Time) (w : World) :
  now1 ≤ now2 →
  (gcOldChecksumEntriesLocked now1 ;; gcOldChecksumEntriesLocked now2) w
  = gcOldChecksumEntriesLocked now2 w.
Proof.
  intros Hle.
  assert (Hsw : swept now2 (swept now1 (mu_checksums (replica w)))
                = swept now2 (mu_checksums (replica w))).
  { apply map_eq. intros k. apply option_eq. intros c.
    rewrite !swept_lookup. split.
    - intros [[Hk _] H2]. auto.
    - intros [Hk H2]. repeat split; auto. destruct H2; [auto|right; lia]. }
  unfold gcOldChecksumEntriesLocked. run. unfold set_mu_checksums. cbn.
  unfold swept in Hsw. rewrite Hsw. reflexivity.
Qed.

Lemma gcOldChecksumEntriesLocked_twice_witness :
  (gcOldChecksumEntriesLocked 100 ;; gcOldChecksumEntriesLocked 150)
    ex_world_checksums
  = gcOldChecksumEntriesLocked 150 ex_world_checksums.
Proof.
  apply (gcOldChecksumEntriesLocked_twice 100 150 ex_world_checksums). lia.
Defined.

(** ** Requests for a checksum *)

(** X10.  A request repeated right after one that completed does
    nothing: whatever the first one did (returned at once, launched the
    computation, or failed to launch it), the entry of its id is started
    afterwards. *)
Theorem computeChecksumPostApply_repeat (env env' : Env)
    (args : roachpb.ComputeChecksumRequest) (w w1 : World) :
  computeChecksumPostApply env args w = Done tt w1 →
  computeChecksumPostApply env' args w1 = Done tt w1.
Proof.
  intros E.
  destruct (mu_checksums (replica w) !! roachpb.ChecksumID args)
    as [c|] eqn:Hc; [destruct (started c) eqn:Hs|].
  - rewrite (computeChecksumPostApply_started env args w c Hc Hs) in E.
    injection E as <-.
    by apply (computeChecksumPostApply_started env' args w c).
  - destruct (computeChecksumPostApply_computes env args w)
      as (es & c' & _ & Hid & Hst & _).
    { right. eauto. }
    rewrite E in Hid. cbn in Hid.
    by apply (computeChecksumPostApply_started env' args w1 c').
  - destruct (computeChecksumPostApply_computes env args w)
      as (es & c' & _ & Hid & Hst & _).
    { left. exact Hc. }
    rewrite E in Hid. cbn in Hid.
    by apply (computeChecksumPostApply_started env' args w1 c').
Qed.

Lemma computeChecksumPostApply_repeat_witness :
  computeChecksumPostApply ex_env (roachpb.mkComputeChecksumRequest 3 true)
    (final (computeChecksumPostApply ex_env
              (roachpb.mkComputeChecksumRequest 3 true) ex_world_waiting))
  = Done tt
      (final (computeChecksumPostApply ex_env
                (roachpb.mkComputeChecksumRequest 3 true) ex_world_waiting)).
Proof.
  apply (computeChecksumPostApply_repeat ex_env ex_env
           (roachpb.mkComputeChecksumRequest 3 true) ex_world_waiting).
  vm_compute. reflexivity.
Defined.

(** The events of one request: none, or a snapshot handed to the
    launched task, or a snapshot closed again after the launch failed. *)
Lemma computeChecksumPostApply_events env args w :
  ∃ es,
    trace (final (computeChecksumPostApply env args w)) = trace w ++ es
    ∧ (es = []
       ∨ (∃ desc, es = [Store_NewSnapshot;
                        RunAsyncTask_sha512 (roachpb.ChecksumID args)
                          (roachpb.Snapshot args) desc])
       ∨ (∃ ch, es = [Store_NewSnapshot;
                      Log "could not run async checksum computation";
                      Notify_Close ch; Snapshot_Close])).
Proof.
  unfold computeChecksumPostApply, gcOldChecksumEntriesLocked,
    computeChecksumDone. run.
  destruct (mu_checksums (replica w) !! roachpb.ChecksumID args) as [c|];
    [destruct (started c)|]; cbn;
    try (exists []; rewrite app_nil_r; auto; fail);
    (destruct (Desc (mu_state (replica w))) as [desc|]; cbn;
     [destruct (RunAsyncTask_fails env); cbn;
      rewrite ?lookup_insert_eq; cbn|];
     rewrite <- ?app_assoc; cbn;
     [eexists; split; [reflexivity|]; right; right; eauto
     |eexists; split; [reflexivity|]; right; left; eauto
     |exists []; rewrite app_nil_r; auto]).
Qed.

Lemma count_events_app f es1 es2 :
  count_events f (es1 ++ es2)
  = (count_events f es1 + count_events f es2)%nat.
Proof. unfold count_events. by rewrite List.filter_app, length_app. Qed.

(** X11.  Along any run of requests, every snapshot taken is accounted
    for: it is handed to the computation that was launched, or closed
    again by the request itself when the launch failed. *)
Theorem computeChecksums_snapshots_accounted
    (calls : list (Env * roachpb.ComputeChecksumRequest)) (w : World) :
  ∃ es,
    trace (final (computeChecksums calls w)) = trace w ++ es
    ∧ count_events is_NewSnapshot es
      = (count_events is_RunAsyncTask_sha512 es
         + count_events is_Snapshot_Close es)%nat.
Proof.
  revert w. induction calls as [|[env args] rest IH]; intros w.
  - exists []. cbn. by rewrite app_nil_r.
  - destruct (computeChecksumPostApply_events env args w)
      as (es1 & Ht1 & Hes1).
    assert (H1 : count_events is_NewSnapshot es1
                 = (count_events is_RunAsyncTask_sha512 es1
                    + count_events is_Snapshot_Close es1)%nat).
    { destruct Hes1 as [->|[(desc & ->)|(ch & ->)]]; reflexivity. }
    cbn [computeChecksums].
    destruct (bind_cases (computeChecksumPostApply env args)
                (λ _, computeChecksums rest) w)
      as [(a & w1 & E & ->)|(msg & w1 & E & ->)]; rewrite E in *; cbn in *.
    + destruct (IH w1) as (es2 & Ht2 & H2).
      exists (es1 ++ es2). rewrite Ht2, Ht1, app_assoc.
      split; [reflexivity|]. rewrite !count_events_app. lia.
    + exists es1. auto.
Qed.

(** ** More on the lease hand-over *)

(** Going through every answer the collaborators can give. *)
Ltac lease_cases env newLease replicaID prevLease :=
  unfold leasePostApply, maybeTransferRaftLeadership;
  destruct (roachpb.StoreID (roachpb.Replica prevLease)
            =? roachpb.StoreID (roachpb.Replica newLease)) eqn:Hstore;
  destruct (roachpb.ReplicaID (roachpb.Replica newLease) =? replicaID)
    eqn:Hid;
  destruct (IsFirstRange env), (Covers env newLease (clock_Now env)),
    (withRaftGroup_fails env), (isRaftLeader env); run;
  rewrite <- ?app_assoc; cbn.

(** X12.  When the lease stays on the same store, the timestamp cache is
    not touched: neither the low water mark nor the contents. *)
Theorem leasePostApply_same_store (env : Env)
    (newLease prevLease : roachpb.Lease) (replicaID : Z) (w : World) :
  roachpb.StoreID (roachpb.Replica prevLease)
  = roachpb.StoreID (roachpb.Replica newLease) →
  ∃ es,
    trace (final (leasePostApply env newLease replicaID prevLease w))
    = trace w ++ es
    ∧ tsCache_calls es = [].
Proof.
  intros Hsame. apply Z.eqb_eq in Hsame.
  lease_cases env newLease replicaID prevLease; try congruence;
    (eexists; split; [first [reflexivity | symmetry; apply app_nil_r]|]);
    reflexivity.
Qed.

Lemma leasePostApply_same_store_witness :
  ∃ es,
    trace (final (leasePostApply ex_env ex_lease 2 ex_lease ex_world))
    = trace ex_world ++ es
    ∧ tsCache_calls es = [].
Proof.
  apply (leasePostApply_same_store ex_env ex_lease ex_lease 2 ex_world).
  reflexivity.
Defined.

(** X13.  Raft leadership is handed over exactly when this replica is not
    the new lease holder, the new lease covers the current time, the raft
    group can be used and this replica leads it; the target is the new
    holder.  The call stops the process exactly when this replica is not
    the new holder, the new lease covers the current time and the raft
    group cannot be used; no hand-over is made then, leader or not.  In
    particular the new holder itself never hands leadership over and
    never stops.  The replica's own state is not written. *)
Theorem leasePostApply_leadership (env : Env)
    (newLease prevLease : roachpb.Lease) (replicaID : Z) (w : World) :
  let holder := roachpb.ReplicaID (roachpb.Replica newLease) =? replicaID in
  let due := negb holder && Covers env newLease (clock_Now env) in
  let res := leasePostApply env newLease replicaID prevLease w in
  is_Fatal res = due && withRaftGroup_fails env
  ∧ replica (final res) = replica w
  ∧ ∃ es,
      trace (final res) = trace w ++ es
      ∧ List.filter is_TransferLeader es
        = if due && negb (withRaftGroup_fails env) && isRaftLeader env
          then [Raft_TransferLeader
                  (roachpb.ReplicaID (roachpb.Replica newLease))]
          else [].
Proof.
  intros holder due res. subst holder due res.
  lease_cases env newLease replicaID prevLease;
    (split; [reflexivity|]); (split; [reflexivity|]);
    (eexists; split; [first [reflexivity | symmetry; apply app_nil_r]|]);
    reflexivity.
Qed.

(** X14.  The first range is gossiped exactly when the lease changes
    hands, this replica is the new holder, it holds the first range and
    the new lease covers the current time. *)
Theorem leasePostApply_gossip (env : Env)
    (newLease prevLease : roachpb.Lease) (replicaID : Z) (w : World) :
  ∃ es,
    trace (final (leasePostApply env newLease replicaID prevLease w))
    = trace w ++ es
    ∧ List.filter is_GossipFirstRange es
      = if negb (roachpb.StoreID (roachpb.Replica prevLease)
                 =? roachpb.StoreID (roachpb.Replica newLease))
           && (roachpb.ReplicaID (roachpb.Replica newLease) =? replicaID)
           && IsFirstRange env && Covers env newLease (clock_Now env)
        then [GossipFirstRange] else [].
Proof.
  lease_cases env newLease replicaID prevLease;
    (eexists; split; [first [reflexivity | symmetry; apply app_nil_r]|]);
    reflexivity.
Qed.

(** ** The local handler, as a whole *)

(** What one call of the local handler does, for every record and every
    answer of the collaborators. *)
Lemma handleLocalEvalResult_run env origin l w :
  ∃ es,
    handleLocalEvalResult env origin l w
    = Done (local_nontrivial l)
        {| replica := match raftLogSize l with
                      | Some size => set_mu_raftLogSize size (replica w)
                      | None => replica w
                      end;
           trace := trace w ++ es;
           next_chan := next_chan w |}
    ∧ List.filter is_processIntentsAsync es
      = (if roachpb.StoreID origin =? store_StoreID env then
           match intents l with
           | Some its => [IntentResolver_processIntentsAsync its]
           | None => []
           end
         else [])
    ∧ List.filter is_proposer_report es
      = (if roachpb.StoreID origin =? store_StoreID env then
           match leaseMetricsResult l with
           | Some b => [Metrics_leaseRequestComplete b]
           | None => []
           end
           ++ match maybeGossipNodeLiveness l with
              | Some span => [MaybeGossipNodeLiveness span]
              | None => []
              end
         else []).
Proof.
  unfold handleLocalEvalResult, handleLocalEvalResult_steps, local_triggers,
    local_noop_fields, local_intents, local_raftLogSize,
    local_gossipFirstRange, local_maybeAddToSplitQueue,
    local_maybeGossipSystemConfig, local_proposer_only, assert_handled,
    local_nontrivial.
  destruct l as [? ? ? ? ? ? ? ? rls its lmr gfr mgsc masq mgnl].
  destruct (roachpb.StoreID origin =? store_StoreID env),
    (RunAsyncTask_fails env);
    destruct rls, its, lmr, gfr, mgsc, masq, mgnl; run;
    rewrite <- ?app_assoc; cbn;
    (eexists; split;
     [first [reflexivity
            | destruct w; cbn; rewrite app_nil_r; reflexivity]|]);
    split; reflexivity.
Qed.

(** X15.  The local handler never stops the process: it returns for
    every record, whatever the collaborators answer.  Of the replica it
    writes only the raft log size, and only when the record carries
    one. *)
Theorem handleLocalEvalResult_completes (env : Env)
    (origin : roachpb.ReplicaDescriptor) (l : LocalEvalResult) (w : World) :
  ∃ sa w',
    handleLocalEvalResult env origin l w = Done sa w'
    ∧ mu_state (replica w') = mu_state (replica w)
    ∧ mu_checksums (replica w') = mu_checksums (replica w)
    ∧ next_chan w' = next_chan w
    ∧ mu_raftLogSize (replica w')
      = default (mu_raftLogSize (replica w)) (raftLogSize l).
Proof.
  destruct (handleLocalEvalResult_run env origin l w) as (es & E & _).
  eexists _, _. split; [exact E|]. cbn.
  destruct (raftLogSize l); repeat split.
Qed.

(** X16.  The local handler asks for the consistency assertion exactly
    when the record carries a raft log size, one of the three boolean
    triggers, a lease metrics outcome or a node liveness span; the
    intents and the bookkeeping fields do not count. *)
Theorem handleLocalEvalResult_shouldAssert (env : Env)
    (origin : roachpb.ReplicaDescriptor) (l : LocalEvalResult)
    (w w' : World) (sa : bool) :
  handleLocalEvalResult env origin l w = Done sa w' →
  sa = local_nontrivial l.
Proof.
  destruct (handleLocalEvalResult_run env origin l w) as (es & E & _).
  rewrite E. by intros [= <- _].
Qed.

Lemma handleLocalEvalResult_shouldAssert_witness :
  true = local_nontrivial (Local ex_src).
Proof.
  apply (handleLocalEvalResult_shouldAssert ex_env
           (roachpb.mkReplicaDescriptor 2 2 2) (Local ex_src)
           ex_world ex_after_local_only true).
  vm_compute. reflexivity.
Defined.

(** X17.  Intents are handed to the intent resolver, and the lease
    metrics outcome and the liveness span are reported, only on the
    store the command originated from; there, each is passed on exactly
    once when the record carries it.  On any other store nothing of the
    kind happens. *)
Theorem handleLocalEvalResult_proposer_only (env : Env)
    (origin : roachpb.ReplicaDescriptor) (l : LocalEvalResult) (w : World) :
  ∃ es,
    trace (final (handleLocalEvalResult env origin l w)) = trace w ++ es
    ∧ List.filter is_processIntentsAsync es
      = (if roachpb.StoreID origin =? store_StoreID env then
           match intents l with
           | Some its => [IntentResolver_processIntentsAsync its]
           | None => []
           end
         else [])
    ∧ List.filter is_proposer_report es
      = (if roachpb.StoreID origin =? store_StoreID env then
           match leaseMetricsResult l with
           | Some b => [Metrics_leaseRequestComplete b]
           | None => []
           end
           ++ match maybeGossipNodeLiveness l with
              | Some span => [MaybeGossipNodeLiveness span]
              | None => []
              end
         else []).
Proof.
  destruct (handleLocalEvalResult_run env origin l w) as (es & E & H1 & H2).
  exists es. rewrite E. auto.
Qed.

(** ** When the replicated handler asks for the assertion *)

Lemma replicated_nontrivial_spec (r : ReplicatedEvalResult) :
  bool_decide
    (set_State
       (set_RaftAppliedIndex 0
          (set_LeaseAppliedIndex 0
             (set_Stats enginepb.MVCCStats_zero
                (State (set_BlockReads false (replicated_noop_fields r))))))
       (set_Delta enginepb.MVCCStats_zero
          (set_BlockReads false (replicated_noop_fields r)))
     ≠ ReplicatedEvalResult_zero)
  = replicated_nontrivial r.
Proof.
  destruct r as [br [rai lai de le tr gc st fr tx] sp me cc ? ? ? ? ? cr].
  unfold replicated_nontrivial, replicated_noop_fields. cbn.
  destruct (decide (sp = None ∧ me = None ∧ fr = ReplicaState_FROZEN_UNSPECIFIED
                    ∧ de = None ∧ cr = None ∧ le = None ∧ tr = None
                    ∧ gc = hlc.ZeroTimestamp ∧ tx = hlc.ZeroTimestamp
                    ∧ cc = None))
    as [(-> & -> & -> & -> & -> & -> & -> & -> & -> & ->)|Hne].
  - reflexivity.
  - rewrite bool_decide_eq_true_2.
    + symmetry. apply not_false_iff_true. intros Hf. apply Hne.
      repeat (apply orb_false_elim in Hf as [Hf ?]).
      repeat match goal with
             | H : bool_decide _ = false |- _ =>
                 apply bool_decide_eq_false in H; apply dec_stable in H
             end.
      destruct sp, me, fr, de, cr, le, tr, cc; try discriminate.
      repeat split; assumption.
    + intros Hz. apply Hne. injection Hz as -> -> -> -> -> -> -> -> -> ->.
      repeat split.
Qed.

Lemma handleReplicatedEvalResult_returns env r :
  returns (handleReplicatedEvalResult env r)
    (λ sa, sa = replicated_nontrivial r).
Proof.
  unfold handleReplicatedEvalResult.
  eapply (returns_bind _ _ (λ res, res.1 = replicated_nontrivial r)).
  - unfold handleReplicatedEvalResult_steps. cbv zeta.
    next_paragraph replicated_BlockReads_returns.
    next_paragraph replicated_stats_returns.
    apply returns_skip. intros r'. apply returns_ret. cbn [fst].
    apply replicated_nontrivial_spec.
  - intros [sa r'] Hsa. cbn in Hsa. subst sa.
    apply returns_skip. intros _. apply returns_skip. intros _.
    by apply returns_ret.
Qed.

(** X18.  The replicated handler asks for the consistency assertion
    exactly when the record carries a split, a merge, a frozen status, a
    descriptor, a change of replicas, a lease, a truncated state, one of
    the two thresholds or a checksum request; the delta, the applied
    indexes, blockReads and the markers do not count. *)
Theorem handleReplicatedEvalResult_shouldAssert (env : Env)
    (r : ReplicatedEvalResult) (w w' : World) (sa : bool) :
  handleReplicatedEvalResult env r w = Done sa w' →
  sa = replicated_nontrivial r.
Proof. apply handleReplicatedEvalResult_returns. Qed.

Lemma handleReplicatedEvalResult_shouldAssert_witness :
  true = replicated_nontrivial (Replicated ex_src).
Proof.
  apply (handleReplicatedEvalResult_shouldAssert ex_env (Replicated ex_src)
           ex_world ex_after_replicated true).
  vm_compute. reflexivity.
Defined.

(** X19.  For a command whose replicated part is applied without
    stopping the process, the coordinator makes the consistency
    assertion exactly when one of the two records carries a field that
    counts (see X16 and X18): a command made of a delta, applied
    indexes, intents and bookkeeping alone is never followed by the
    assertion. *)
Theorem handleEvalResult_asserts_iff_nontrivial (env : Env)
    (origin : roachpb.ReplicaDescriptor) (l : LocalEvalResult)
    (r : ReplicatedEvalResult) (w : World) (sa1 : bool) (w1 : World) :
  handleReplicatedEvalResult env r w = Done sa1 w1 →
  ∃ es,
    trace (final (handleEvalResult env origin l r w)) = trace w ++ es
    ∧ List.filter is_AssertState es
      = if replicated_nontrivial r || local_nontrivial l
        then [AssertState] else [].
Proof.
  intros H1.
  pose proof (handleReplicatedEvalResult_returns env r _ _ _ H1) as Hsa.
  cbn in Hsa. subst sa1.
  destruct (handleLocalEvalResult_run env origin l w1) as (es2' & H2 & _).
  destruct (handleReplicatedEvalResult_no_assert env r w)
    as (es1 & Ht1 & Hok1).
  destruct (handleLocalEvalResult_no_assert env origin l w1)
    as (es2 & Ht2 & Hok2).
  rewrite H1 in Ht1. cbn in Ht1.
  unfold handleEvalResult, mbind, M_bind. rewrite H1.
  destruct (handleLocalEvalResult env origin l w1) as [sa2 w2|] eqn:E2;
    [|discriminate].
  injection H2 as -> _. cbn in Ht2.
  rewrite (orb_comm (local_nontrivial l)).
  destruct (replicated_nontrivial r || local_nontrivial l); cbn.
  - exists (es1 ++ es2 ++ [AssertState]).
    rewrite assertState_trace, Ht2, Ht1, <- !app_assoc.
    split; [reflexivity|].
    rewrite !List.filter_app, !filter_AssertState_none by assumption.
    reflexivity.
  - exists (es1 ++ es2). rewrite Ht2, Ht1, <- !app_assoc.
    split; [reflexivity|].
    rewrite !List.filter_app, !filter_AssertState_none by assumption.
    reflexivity.
Qed.

Lemma handleEvalResult_asserts_iff_nontrivial_witness :
  ∃ es,
    trace (final (handleEvalResult ex_env (roachpb.mkReplicaDescriptor 2 2 2)
                    LocalEvalResult_zero ReplicatedEvalResult_zero ex_world))
    = trace ex_world ++ es
    ∧ List.filter is_AssertState es
      = if replicated_nontrivial ReplicatedEvalResult_zero
           || local_nontrivial LocalEvalResult_zero
        then [AssertState] else [].
Proof.
  apply (handleEvalResult_asserts_iff_nontrivial ex_env
           (roachpb.mkReplicaDescriptor 2 2 2) LocalEvalResult_zero
           ReplicatedEvalResult_zero ex_world false
           (final (handleReplicatedEvalResult ex_env
                     ReplicatedEvalResult_zero ex_world))).
  vm_compute. reflexivity.
Defined.

(** ** Values and events together *)

Lemma yields_ret {A : Type} (a : A) (Q : A → list Event → Prop) :
  Q a [] → yields (mret a) Q.
Proof. intros HQ w a' w' [= <- <-]. exists []. by rewrite app_nil_r. Qed.

Lemma yields_bind {A B : Type} (m : M A) (k : A → M B) Q1 Q2 :
  yields m Q1 →
  (∀ a es1, Q1 a es1 → yields (k a) (λ b es2, Q2 b (es1 ++ es2))) →
  yields (m ≫= k) Q2.
Proof.
  intros Hm Hk w b w2. unfold mbind, M_bind.
  destruct (m w) as [a w1|msg w1] eqn:E; [|discriminate].
  intros H. destruct (Hm _ _ _ E) as (es1 & Ht1 & H1).
  destruct (Hk a es1 H1 _ _ _ H) as (es2 & Ht2 & H2).
  exists (es1 ++ es2). by rewrite Ht2, Ht1, app_assoc.
Qed.

Lemma yields_block {A : Type} ok (m : M A) (P : A → Prop) :
  returns m P → emits_only ok m →
  yields m (λ a es, P a ∧ forallb ok es = true).
Proof.
  intros Hr He w a w' E. destruct (He w) as (es & Ht & Hok).
  rewrite E in Ht. exists es. split; [exact Ht|].
  split; [exact (Hr _ _ _ E)|exact Hok].
Qed.

Lemma yields_weaken {A : Type} (m : M A) (Q Q' : A → list Event → Prop) :
  yields m Q → (∀ a es, Q a es → Q' a es) → yields m Q'.
Proof.
  intros Hm HQ w a w' E. destruct (Hm _ _ _ E) as (es & Ht & H).
  exists es. auto.
Qed.

Lemma filter_none (f : Event → bool) es :
  forallb (λ e, negb (f e)) es = true → List.filter f es = [].
Proof.
  induction es as [|e es IH]; [done|]. cbn.
  destruct (f e); cbn; [discriminate|exact IH].
Qed.

(** The events of a paragraph, from its definition. *)
Ltac paragraph_emits :=
  unfold replicated_BlockReads, replicated_stats, replicated_Split,
    replicated_Merge, replicated_Frozen, replicated_Desc, setDesc,
    replicated_ChangeReplicas, replicated_Lease, replicated_TruncatedState,
    replicated_GCThreshold, replicated_TxnSpanGCThreshold,
    replicated_ComputeChecksum, leasePostApply, maybeTransferRaftLeadership,
    computeChecksumPostApply, gcOldChecksumEntriesLocked, computeChecksumDone,
    assert_handled;
  emits.

(** One paragraph in a chain: its value from the lemma, its events from
    its definition. *)
Ltac next_yields ok lem :=
  eapply yields_bind;
  [ apply (yields_block ok); [apply lem | paragraph_emits] |];
  intros ? ? [-> ?].

(** ** The read lock *)

Lemma replicated_BlockReads_yields r :
  yields (replicated_BlockReads r)
    (λ r' es, r' = set_BlockReads false r
              ∧ es = if BlockReads r then [ReadOnlyCmdMu_Lock] else []).
Proof.
  intros w a w' E. destruct (replicated_BlockReads_run r w) as (es & E' & _).
  unfold replicated_BlockReads in *. destruct (BlockReads r); run.
  - injection E as <- <-. exists [ReadOnlyCmdMu_Lock]. auto.
  - injection E as <- <-. exists []. rewrite app_nil_r.
    split; [reflexivity|]. split; [|reflexivity].
    already_zero r.
Qed.

Lemma replicated_noop_fields_BlockReads r :
  BlockReads (replicated_noop_fields r) = BlockReads r.
Proof. by destruct r. Qed.

Lemma after_BlockReads_quiet env r1 (sa : ReplicatedEvalResult → bool) :
  emits_only not_ReadOnlyCmdMu
    (rResult ← replicated_stats env r1;
     rResult' ← replicated_triggers env rResult;
     mret (sa rResult, rResult')).
Proof. unfold replicated_triggers. paragraph_emits. Qed.

Lemma handleReplicatedEvalResult_tail_yields
    (b : bool) (res : bool * ReplicatedEvalResult) :
  yields (assert_handled ReplicatedEvalResult_zero res.2
            "unhandled field in ReplicatedEvalResult" ;;
          when b (emit ReadOnlyCmdMu_Unlock) ;; mret res.1)
    (λ _ es, es = if b then [ReadOnlyCmdMu_Unlock] else []).
Proof.
  intros w a w' E. unfold assert_handled in E. run.
  destruct (decide (res.2 ≠ ReplicatedEvalResult_zero)); [discriminate|].
  destruct b; cbn in E; injection E as <- <-; cbn.
  - exists [ReadOnlyCmdMu_Unlock]. auto.
  - exists []. by rewrite app_nil_r.
Qed.

Example handleReplicatedEvalResult_ex_lock :
  trace (final (handleReplicatedEvalResult ex_env ex_remove_self ex_world))
  = [ReadOnlyCmdMu_Lock; Metrics_addMVCCStats enginepb.MVCCStats_zero;
     ReplicaGCQueue_Add; ReadOnlyCmdMu_Unlock].
Proof. vm_compute. reflexivity. Qed.

(** X20.  When the replicated handler returns, the read lock has been
    held for the whole call if the record asked for it (taken before any
    other call, released after every other call, with no other lock
    operation in between) and has not been touched otherwise. *)
Theorem handleReplicatedEvalResult_read_lock (env : Env)
    (r : ReplicatedEvalResult) (w w' : World) (sa : bool) :
  handleReplicatedEvalResult env r w = Done sa w' →
  ∃ es,
    trace w' = trace w ++ es
    ∧ if BlockReads r then
        ∃ mid, es = ReadOnlyCmdMu_Lock :: mid ++ [ReadOnlyCmdMu_Unlock]
               ∧ forallb not_ReadOnlyCmdMu mid = true
      else forallb not_ReadOnlyCmdMu es = true.
Proof.
  revert w sa w'.
  change (yields (handleReplicatedEvalResult env r)
            (λ _ es,
               if BlockReads r then
                 ∃ mid, es = ReadOnlyCmdMu_Lock :: mid ++ [ReadOnlyCmdMu_Unlock]
                        ∧ forallb not_ReadOnlyCmdMu mid = true
               else forallb not_ReadOnlyCmdMu es = true)).
  unfold handleReplicatedEvalResult, handleReplicatedEvalResult_steps.
  cbv zeta.
  eapply (yields_bind _ _
            (λ _ es, ∃ mid,
               es = (if BlockReads r then [ReadOnlyCmdMu_Lock] else []) ++ mid
               ∧ forallb not_ReadOnlyCmdMu mid = true)).
  - eapply yields_bind; [apply replicated_BlockReads_yields|].
    intros r1 es1 [-> ->]. rewrite replicated_noop_fields_BlockReads.
    eapply yields_weaken.
    + apply (yields_block not_ReadOnlyCmdMu _ (λ _, True)); [done|].
      apply (after_BlockReads_quiet env _
               (λ x, bool_decide (x ≠ ReplicatedEvalResult_zero))).
    + intros a es [_ Hok]. cbn beta. eauto.
  - intros res es1 (mid & -> & Hmid).
    eapply yields_weaken; [apply handleReplicatedEvalResult_tail_yields|].
    intros _ es2 ->. cbn beta. destruct (BlockReads r); cbn.
    + exists mid. auto.
    + by rewrite app_nil_r.
Qed.

Lemma handleReplicatedEvalResult_read_lock_witness :
  ∃ es,
    trace (final (handleReplicatedEvalResult ex_env ex_remove_self ex_world))
    = trace ex_world ++ es
    ∧ if BlockReads ex_remove_self then
        ∃ mid, es = ReadOnlyCmdMu_Lock :: mid ++ [ReadOnlyCmdMu_Unlock]
               ∧ forallb not_ReadOnlyCmdMu mid = true
      else forallb not_ReadOnlyCmdMu es = true.
Proof.
  apply (handleReplicatedEvalResult_read_lock ex_env ex_remove_self ex_world
           (final (handleReplicatedEvalResult ex_env ex_remove_self ex_world))
           true).
  vm_compute. reflexivity.
Defined.

(** ** The replica GC queue *)

Lemma replicated_ChangeReplicas_yields env r :
  yields (replicated_ChangeReplicas env r)
    (λ r' es, r' = set_ChangeReplicas None r
              ∧ List.filter is_ReplicaGCQueue_Add es
                = if removes_self env r then [ReplicaGCQueue_Add] else []).
Proof.
  intros w a w' E. unfold replicated_ChangeReplicas, removes_self in *.
  destruct (ChangeReplicas r) as [change|] eqn:Hc; run.
  - destruct (bool_decide (ChangeType change = roachpb.REMOVE_REPLICA)
              && (store_StoreID env
                  =? roachpb.StoreID (storagebase.Replica change)));
      [destruct (replicaGCQueue_Add_fails env)|]; cbn in E;
      injection E as <- <-; cbn; rewrite <- ?app_assoc;
      (eexists; split; [first [reflexivity | symmetry; apply app_nil_r]|]);
      split; reflexivity.
  - injection E as <- <-. exists []. rewrite app_nil_r.
    split; [reflexivity|]. split; [|reflexivity]. already_zero r.
Qed.

Lemma returns_any {A : Type} (m : M A) : returns m (λ _, True).
Proof. done. Qed.

Example handleReplicatedEvalResult_ex_not_self :
  trace (final (handleReplicatedEvalResult
                  (mkEnv 5 (hlc.mkTimestamp 150 0) 150 100 (λ _, false)
                         false false false false false (λ _ _, false)
                         true false false 1000 false)
                  ex_remove_self ex_world))
  = [ReadOnlyCmdMu_Lock; Metrics_addMVCCStats enginepb.MVCCStats_zero;
     ReadOnlyCmdMu_Unlock].
Proof. vm_compute. reflexivity. Qed.

(** X21.  When the replicated handler returns, this replica has been
    added to the replica GC queue exactly once if the record removes a
    replica and that replica is on this store, and not at all otherwise
    (an addition of a replica, a removal elsewhere, no change). *)
Theorem handleReplicatedEvalResult_replicaGC (env : Env)
    (r : ReplicatedEvalResult) (w w' : World) (sa : bool) :
  handleReplicatedEvalResult env r w = Done sa w' →
  ∃ es,
    trace w' = trace w ++ es
    ∧ List.filter is_ReplicaGCQueue_Add es
      = if removes_self env r then [ReplicaGCQueue_Add] else [].
Proof.
  revert w sa w'.
  change (yields (handleReplicatedEvalResult env r)
            (λ _ es,
               List.filter is_ReplicaGCQueue_Add es
               = if removes_self env r then [ReplicaGCQueue_Add] else [])).
  unfold handleReplicatedEvalResult, handleReplicatedEvalResult_steps,
    replicated_triggers.
  cbv zeta.
  eapply (yields_bind _ _
            (λ _ es,
               List.filter is_ReplicaGCQueue_Add es
               = if removes_self env r then [ReplicaGCQueue_Add] else [])).
  - next_yields not_ReplicaGCQueue_Add replicated_BlockReads_returns.
    next_yields not_ReplicaGCQueue_Add replicated_stats_returns.
    eapply (yields_bind _ _
              (λ _ es,
                 List.filter is_ReplicaGCQueue_Add es
                 = if removes_self env r then [ReplicaGCQueue_Add] else [])).
    + next_yields not_ReplicaGCQueue_Add replicated_Split_returns.
      next_yields not_ReplicaGCQueue_Add replicated_Merge_returns.
      next_yields not_ReplicaGCQueue_Add replicated_Frozen_returns.
      next_yields not_ReplicaGCQueue_Add replicated_Desc_returns.
      eapply yields_bind; [apply replicated_ChangeReplicas_yields|].
      intros ? esCR [-> Hgc].
      lazymatch type of Hgc with
      | context [removes_self env ?t] =>
          replace (removes_self env t) with (removes_self env r) in Hgc
            by (destruct r as [? [] ? ? ? ? ? ? ? ? ?]; reflexivity)
      end.
      eapply yields_weaken.
      * apply (yields_block not_ReplicaGCQueue_Add _ (λ _, True));
          [done|paragraph_emits].
      * intros a esRest [_ HokRest]. cbn beta.
        rewrite !List.filter_app, Hgc.
        rewrite !(filter_none is_ReplicaGCQueue_Add) by assumption.
        by rewrite app_nil_r.
    + intros r' esT H3. apply yields_ret.
      rewrite !List.filter_app, app_nil_r, H3.
      by rewrite !(filter_none is_ReplicaGCQueue_Add) by assumption.
  - intros res esS H1.
    eapply yields_weaken.
    + apply (yields_block not_ReplicaGCQueue_Add _ (λ _, True));
        [done|paragraph_emits].
    + intros a esTail [_ HokTail]. cbn beta.
      rewrite List.filter_app, H1.
      rewrite (filter_none is_ReplicaGCQueue_Add) by assumption.
      by rewrite app_nil_r.
Qed.

Lemma handleReplicatedEvalResult_replicaGC_witness :
  ∃ es,
    trace (final (handleReplicatedEvalResult ex_env ex_remove_self ex_world))
    = trace ex_world ++ es
    ∧ List.filter is_ReplicaGCQueue_Add es
      = if removes_self ex_env ex_remove_self
        then [ReplicaGCQueue_Add] else [].
Proof.
  apply (handleReplicatedEvalResult_replicaGC ex_env ex_remove_self ex_world
           (final (handleReplicatedEvalResult ex_env ex_remove_self ex_world))
           true).
  vm_compute. reflexivity.
Defined.

(** ** When the replicated handler returns *)

Lemma completes_bind {A B : Type} I (m : M A) (k : A → M B) :
  completes I m → (∀ a, completes I (k a)) → completes I (m ≫= k).
Proof.
  intros Hm Hk w Hw. destruct (Hm w Hw) as (a & w1 & E & Hw1).
  destruct (Hk a w1 Hw1) as (b & w2 & E2 & Hw2).
  exists b, w2. split; [|exact Hw2].
  unfold mbind, M_bind. rewrite E. exact E2.
Qed.

Lemma completes_ret {A : Type} I (a : A) : completes I (mret a).
Proof. intros w Hw. by exists a, w. Qed.

(** Opening the world and going through every branch of a paragraph. *)
Ltac all_branches :=
  let w := fresh "w" in
  let HL := fresh "HL" in
  let HD := fresh "HD" in
  intros w [HL HD];
  destruct w as [[? [? ? ? ? ? ? ? ? ?] ? ? ?] ? ?];
  cbn in HL, HD;
  unfold initialized; run;
  repeat match goal with
         | H : _ = false |- _ => rewrite H; cbn
         end;
  repeat (first
            [ progress rewrite lookup_insert_eq
            | match goal with
              | |- context [match ?x with _ => _ end] =>
                  lazymatch x with
                  | context [match _ with _ => _ end] => fail
                  | _ => destruct x eqn:?
                  end
              end ]; cbn);
  try discriminate;
  eexists _, _; (split; [reflexivity|]); cbn;
  split; first [assumption|reflexivity].

(** The four answers that [collaborators_succeed] fixes. *)
Ltac use_env Henv :=
  unfold collaborators_succeed in Henv;
  apply andb_prop in Henv as [Henv ?Hraft];
  apply andb_prop in Henv as [Henv ?Hdesc];
  apply andb_prop in Henv as [?Hstats ?Hmerge];
  repeat match goal with
         | H : negb _ = true |- _ => apply negb_true_iff in H
         end.

Lemma replicated_BlockReads_completes r :
  completes initialized (replicated_BlockReads r).
Proof. unfold replicated_BlockReads. all_branches. Qed.

Lemma replicated_stats_completes env r :
  completes initialized (replicated_stats env r).
Proof. unfold replicated_stats. all_branches. Qed.

Lemma replicated_Split_completes env r :
  collaborators_succeed env = true →
  completes initialized (replicated_Split env r).
Proof. intros Henv. use_env Henv. unfold replicated_Split. all_branches. Qed.

Lemma replicated_Merge_completes env r :
  collaborators_succeed env = true →
  completes initialized (replicated_Merge env r).
Proof. intros Henv. use_env Henv. unfold replicated_Merge. all_branches. Qed.

Lemma replicated_Frozen_completes r :
  completes initialized (replicated_Frozen r).
Proof. unfold replicated_Frozen. all_branches. Qed.

Lemma replicated_Desc_completes env r :
  collaborators_succeed env = true →
  completes initialized (replicated_Desc env r).
Proof.
  intros Henv. use_env Henv. unfold replicated_Desc, setDesc. all_branches.
Qed.

Lemma replicated_ChangeReplicas_completes env r :
  completes initialized (replicated_ChangeReplicas env r).
Proof. unfold replicated_ChangeReplicas. all_branches. Qed.

Lemma replicated_Lease_completes env r :
  collaborators_succeed env = true →
  completes initialized (replicated_Lease env r).
Proof.
  intros Henv. use_env Henv.
  unfold replicated_Lease, leasePostApply, maybeTransferRaftLeadership.
  all_branches.
Qed.

Lemma replicated_TruncatedState_completes r :
  completes initialized (replicated_TruncatedState r).
Proof. unfold replicated_TruncatedState. all_branches. Qed.

Lemma replicated_GCThreshold_completes r :
  completes initialized (replicated_GCThreshold r).
Proof. unfold replicated_GCThreshold. all_branches. Qed.

Lemma replicated_TxnSpanGCThreshold_completes r :
  completes initialized (replicated_TxnSpanGCThreshold r).
Proof. unfold replicated_TxnSpanGCThreshold. all_branches. Qed.

Lemma replicated_ComputeChecksum_completes env r :
  completes initialized (replicated_ComputeChecksum env r).
Proof.
  unfold replicated_ComputeChecksum, computeChecksumPostApply,
    gcOldChecksumEntriesLocked, computeChecksumDone.
  all_branches.
Qed.

Lemma replicated_triggers_completes env r :
  collaborators_succeed env = true →
  completes initialized (replicated_triggers env r).
Proof.
  intros Henv. unfold replicated_triggers.
  apply completes_bind; [by apply replicated_Split_completes|intros ?].
  apply completes_bind; [by apply replicated_Merge_completes|intros ?].
  apply completes_bind; [apply replicated_Frozen_completes|intros ?].
  apply completes_bind; [by apply replicated_Desc_completes|intros ?].
  apply completes_bind; [apply replicated_ChangeReplicas_completes|intros ?].
  apply completes_bind; [by apply replicated_Lease_completes|intros ?].
  apply completes_bind; [apply replicated_TruncatedState_completes|intros ?].
  apply completes_bind; [apply replicated_GCThreshold_completes|intros ?].
  apply completes_bind;
    [apply replicated_TxnSpanGCThreshold_completes|intros ?].
  apply replicated_ComputeChecksum_completes.
Qed.

Lemma handleReplicatedEvalResult_steps_completes env r :
  collaborators_succeed env = true →
  completes initialized (handleReplicatedEvalResult_steps env r).
Proof.
  intros Henv. unfold handleReplicatedEvalResult_steps. cbv zeta.
  apply completes_bind; [apply replicated_BlockReads_completes|intros ?].
  apply completes_bind; [apply replicated_stats_completes|intros ?].
  apply completes_bind; [by apply replicated_triggers_completes|intros ?].
  apply completes_ret.
Qed.

Example handleReplicatedEvalResult_ex_stops :
  handleReplicatedEvalResult
    (mkEnv 2 (hlc.mkTimestamp 150 0) 150 100 (λ _, false)
           true false false false false (λ _ _, false)
           true false false 1000 false)
    ex_split_result ex_world_estimates
  = Fatal "unable to write MVCC stats"
      {| replica :=
           on_mu_state (set_Stats (enginepb.mkMVCCStats false 24 0 0 0 0))
                       ex_replica;
         trace := [Metrics_addMVCCStats (enginepb.mkMVCCStats false 4 0 0 0 0);
                   SetMVCCStats 7 (enginepb.mkMVCCStats false 24 0 0 0 0)];
         next_chan := 1 |}.
Proof. vm_compute. reflexivity. Qed.

(** X22.  On a replica that holds a lease and a descriptor, the
    replicated handler returns for every record as long as the engine
    write, the range merge, the descriptor update and the raft group do
    not fail: nothing else in it can stop the process, and the replica
    still holds a lease and a descriptor afterwards. *)
Theorem handleReplicatedEvalResult_completes (env : Env)
    (r : ReplicatedEvalResult) (w : World) :
  collaborators_succeed env = true →
  initialized w →
  ∃ sa w', handleReplicatedEvalResult env r w = Done sa w' ∧ initialized w'.
Proof.
  intros Henv Hw.
  destruct (handleReplicatedEvalResult_steps_completes env r Henv w Hw)
    as ([sa r'] & w1 & E & Hw1).
  pose proof (handleReplicatedEvalResult_steps_returns env r _ _ _ E) as Hz.
  cbn in Hz. subst r'.
  unfold handleReplicatedEvalResult, mbind, M_bind. rewrite E. cbn [snd fst].
  rewrite assert_handled_zero.
  destruct (BlockReads r); cbn; eexists _, _; (split; [reflexivity|]);
    exact Hw1.
Qed.

Lemma handleReplicatedEvalResult_completes_witness :
  ∃ sa w',
    handleReplicatedEvalResult ex_env (Replicated ex_src) ex_world
    = Done sa w'
    ∧ initialized w'.
Proof.
  apply (handleReplicatedEvalResult_completes ex_env (Replicated ex_src)
           ex_world).
  - reflexivity.
  - split; reflexivity.
Defined.

(** ** finish *)

Example finish_ex :
  finish ex_proposal ex_proposalResult ∅
  = Finished [EndCmds_done 9 (Some "reply") None false;
              DoneCh_send 4 ex_proposalResult; DoneCh_close 4]
             (set_doneCh (Some 4) LocalEvalResult_zero) {[4]}.
Proof. vm_compute. reflexivity. Qed.

(** X23.  However [finish] ends, the completion hook has been invoked
    exactly when the record had one, before anything was sent, with the
    reply, error and retry flag of the result; the record has no hook
    afterwards, so finishing the same record again (with whatever
    result, whatever has happened to the channels) never invokes a hook
    a second time. *)
Theorem finish_hook_once (l : LocalEvalResult) (pr pr' : proposalResult.t)
    (closed closed' : gset Z) :
  let o := finish l pr closed in
  (∃ rest,
     finish_calls o
     = match endCmds l with
       | Some cmds =>
           [EndCmds_done cmds (proposalResult.Reply pr)
                         (proposalResult.Err pr)
                         (proposalResult.ShouldRetry pr)]
       | None => []
       end ++ rest
     ∧ List.filter is_EndCmds_done rest = [])
  ∧ endCmds (finish_record o) = None
  ∧ List.filter is_EndCmds_done
      (finish_calls (finish (finish_record o) pr' closed')) = [].
Proof.
  intros o. subst o. unfold finish.
  destruct l as [? ? ? ? ? ec dc ? ? ? ? ? ? ? ?]. cbn.
  destruct ec as [cmds|], dc as [ch|]; cbn;
    repeat (case_decide; cbn);
    (split; [eexists; split; [reflexivity|reflexivity]|]);
    (split; [reflexivity|]); reflexivity.
Qed.

(** X24.  A record that has been finished cannot be finished again: the
    first call closes the channel it sent on, and a second call panics
    on its send, having made no call at all. *)
Theorem finish_twice_panics (l : LocalEvalResult) (pr pr' : proposalResult.t)
    (closed : gset Z) (calls : list FinishCall) (l' : LocalEvalResult)
    (closed' : gset Z) :
  finish l pr closed = Finished calls l' closed' →
  finish l' pr' closed' = Panics [] l'.
Proof.
  unfold finish. destruct l as [? ? ? ? ? ec dc ? ? ? ? ? ? ? ?]. cbn.
  destruct ec as [cmds|], dc as [ch|]; cbn; try discriminate;
    case_decide; try discriminate; intros [= <- <- <-]; cbn;
    (case_decide as Hin; [reflexivity|]); exfalso; apply Hin; set_solver.
Qed.

Lemma finish_twice_panics_witness :
  finish (set_doneCh (Some 4) LocalEvalResult_zero) ex_proposalResult {[4]}
  = Panics [] (set_doneCh (Some 4) LocalEvalResult_zero).
Proof.
  apply (finish_twice_panics ex_proposal ex_proposalResult ex_proposalResult
           ∅ [EndCmds_done 9 (Some "reply") None false;
              DoneCh_send 4 ex_proposalResult; DoneCh_close 4]
           (set_doneCh (Some 4) LocalEvalResult_zero) {[4]}).
  vm_compute. reflexivity.
Defined.

(** ** The merge as its caller sees it *)

Example call_MergeAndDestroy_ex :
  call_MergeAndDestroy (mkMergeCall ex_dst ex_src)
  = (Returned None, mkMergeCall ex_merged ex_src).
Proof. vm_compute. reflexivity. Qed.

(** C3 (as amended).  When a call [dst.MergeAndDestroy(src)] returns nil,
    the record the function holds, its own copy of [src], is the zero
    value when it returns: every field the function folds in has been
    reset in the copy, and the copy had no other field set.  The caller's
    [src] is as it was before the call. *)
Theorem MergeAndDestroy_destroys_copy (dst src : EvalResult)
    (c' : MergeCall) :
  call_MergeAndDestroy (mkMergeCall dst src) = (Returned None, c') →
  ∃ q', MergeAndDestroy dst src = Return None (call_dst c') q'
        ∧ q' = unmerged src
        ∧ q' = EvalResult_zero
        ∧ call_src c' = src.
Proof.
  unfold call_MergeAndDestroy. cbn [call_dst call_src].
  destruct (MergeAndDestroy_outcome dst src)
    as [(msg & p0 & q0 & E & _)|(_ & _ & E)]; rewrite E.
  - discriminate.
  - unfold check_destroyed.
    destruct (decide (unmerged src ≠ EvalResult_zero)) as [Hnz|Hz].
    + discriminate.
    + intros [= <-]. cbn. exists (unmerged src).
      apply dec_stable in Hz. auto.
Qed.

Lemma MergeAndDestroy_destroys_copy_witness :
  ∃ q', MergeAndDestroy ex_dst ex_src = Return None ex_merged q'
        ∧ q' = unmerged ex_src
        ∧ q' = EvalResult_zero
        ∧ ex_src = ex_src.
Proof.
  apply (MergeAndDestroy_destroys_copy ex_dst ex_src
           (mkMergeCall ex_merged ex_src)).
  vm_compute. reflexivity.
Defined.

(** C3 as stated fails: the merge of [ex_src] into [ex_dst] returns nil,
    and the caller's [ex_src], which sets a lease and the split queue
    flag, is not the zero value afterwards. *)
Lemma MergeAndDestroy_caller_src_kept :
  ¬ (∀ (dst src : EvalResult) (c' : MergeCall),
       call_MergeAndDestroy (mkMergeCall dst src) = (Returned None, c') →
       call_src c' = EvalResult_zero).
Proof.
  intros H.
  pose proof (H ex_dst ex_src (mkMergeCall ex_merged ex_src)) as E.
  cbn [call_src] in E.
  assert (Hsrc : ex_src = EvalResult_zero)
    by (apply E; vm_compute; reflexivity).
  vm_compute in Hsrc. discriminate Hsrc.
Qed.

(** ** Checksums: requests and the tasks they launch *)

Example checksum_steps_ex :
  trace (final (checksum_steps (ex_requests ex_env) ex_world))
  = [Store_NewSnapshot; RunAsyncTask_sha512 1 false ex_desc;
     Notify_Close 1; Snapshot_Close;
     Store_NewSnapshot; RunAsyncTask_sha512 2 false ex_desc].
Proof. vm_compute. reflexivity. Qed.

Example checksum_steps_ex_late :
  trace (final (checksum_steps (ex_requests ex_env_late) ex_world))
  = [Store_NewSnapshot; RunAsyncTask_sha512 1 false ex_desc;
     Notify_Close 1; Snapshot_Close;
     Store_NewSnapshot; RunAsyncTask_sha512 2 false ex_desc;
     Store_NewSnapshot; RunAsyncTask_sha512 1 false ex_desc].
Proof. vm_compute. reflexivity. Qed.

Lemma swept_kept now horizon (m : gmap Z replicaChecksum) k c :
  now ≤ horizon →
  m !! k = Some c →
  gcTimestamp c = 0 ∨ horizon ≤ gcTimestamp c →
  swept now m !! k = Some c.
Proof.
  intros Hnow Hk Hgc. apply swept_lookup. split; [exact Hk|].
  destruct Hgc; [left; assumption|right; lia].
Qed.

(** One request not later than [horizon], seen from a fixed id: at most
    one launch for it, none while its entry is kept, and a launch leaves
    the entry kept. *)
Lemma computeChecksumPostApply_kept horizon env args w id :
  timeutil_Now env ≤ horizon →
  let w1 := final (computeChecksumPostApply env args w) in
  ∃ es,
    trace w1 = trace w ++ es
    ∧ (launches id es ≤ 1)%nat
    ∧ (kept horizon id w → launches id es = 0%nat ∧ kept horizon id w1)
    ∧ (launches id es = 1%nat → kept horizon id w1).
Proof.
  intros Hnow w1. subst w1.
  destruct (mu_checksums (replica w) !! roachpb.ChecksumID args)
    as [c|] eqn:Hc; [destruct (started c) eqn:Hs|].
  - rewrite (computeChecksumPostApply_started env args w c Hc Hs). cbn.
    exists []. rewrite app_nil_r. unfold launches. cbn.
    repeat split; try lia; try done; try discriminate.
  - destruct (computeChecksumPostApply_computes env args w)
      as (es & c' & Ht & Hid & Hst & _ & _ & _ & Hoth & Hle & Hz & Hgc).
    { right. eauto. }
    exists es. split; [exact Ht|].
    destruct (decide (id = roachpb.ChecksumID args)) as [->|Hne].
    + split; [exact Hle|]. split.
      * intros (c0 & Hc0 & Hs0 & _). congruence.
      * intros H1. exists c'. auto.
    + rewrite (Hz id Hne). split; [lia|]. split; [|discriminate].
      intros (c0 & Hc0 & Hs0 & Hg0). split; [reflexivity|].
      exists c0. rewrite (Hoth id Hne). split; [|done].
      by apply (swept_kept _ horizon).
  - destruct (computeChecksumPostApply_computes env args w)
      as (es & c' & Ht & Hid & Hst & _ & _ & _ & Hoth & Hle & Hz & Hgc).
    { left. exact Hc. }
    exists es. split; [exact Ht|].
    destruct (decide (id = roachpb.ChecksumID args)) as [->|Hne].
    + split; [exact Hle|]. split.
      * intros (c0 & Hc0 & Hs0 & _). congruence.
      * intros H1. exists c'. auto.
    + rewrite (Hz id Hne). split; [lia|]. split; [|discriminate].
      intros (c0 & Hc0 & Hs0 & Hg0). split; [reflexivity|].
      exists c0. rewrite (Hoth id Hne). split; [|done].
      by apply (swept_kept _ horizon).
Qed.

(** A task that runs to its end launches nothing, and leaves a kept entry
    kept when its deadline is not before [horizon]. *)
Lemma checksum_task_kept horizon env id' digest w id :
  keeps horizon id (TaskRan env id' digest) = true →
  let w1 := final (checksum_task env id' digest w) in
  ∃ es,
    trace w1 = trace w ++ es
    ∧ launches id es = 0%nat
    ∧ (kept horizon id w → kept horizon id w1).
Proof.
  intros Hk w1. subst w1. unfold checksum_task, computeChecksumDone.
  destruct digest as [sha|]; run;
    destruct (mu_checksums (replica w) !! id') as [c|] eqn:Hc; cbn;
    rewrite <- ?app_assoc; cbn;
    (eexists; split; [reflexivity|]); (split; [reflexivity|]);
    intros (c0 & Hc0 & Hs0 & Hg0); unfold kept; cbn;
    try (exists c0; auto; fail);
    (destruct (decide (id' = id)) as [->|Hne];
     [rewrite lookup_insert_eq; rewrite Hc in Hc0; injection Hc0 as ->;
      eexists; split; [reflexivity|]; split; [exact Hs0|]; cbn;
      rewrite Z.eqb_refl in Hk; cbn in Hk; lia
     |rewrite lookup_insert_ne by done; exists c0; auto]).
Qed.

(** One step, seen from a fixed id. *)
Lemma checksum_step_kept horizon id s w :
  keeps horizon id s = true →
  let w1 := final (checksum_step s w) in
  ∃ es,
    trace w1 = trace w ++ es
    ∧ (launches id es ≤ 1)%nat
    ∧ (kept horizon id w → launches id es = 0%nat ∧ kept horizon id w1)
    ∧ (launches id es = 1%nat → kept horizon id w1).
Proof.
  intros Hk w1. subst w1.
  destruct s as [env args|env id' digest]; cbn [checksum_step].
  - apply computeChecksumPostApply_kept. cbn in Hk. lia.
  - destruct (checksum_task_kept horizon env id' digest w id Hk)
      as (es & Ht & Hz & Hkept).
    exists es. split; [exact Ht|]. rewrite Hz.
    split; [lia|]. split; [|discriminate].
    intros Hw. split; [reflexivity|]. apply Hkept, Hw.
Qed.

(** Along a run in which no finished entry of [id] expires, at most one
    computation is launched for [id], and none once its entry is kept. *)
Lemma checksum_steps_launches horizon id steps :
  forallb (keeps horizon id) steps = true →
  ∀ w, ∃ es,
    trace (final (checksum_steps steps w)) = trace w ++ es
    ∧ (launches id es ≤ 1)%nat
    ∧ (kept horizon id w → launches id es = 0%nat).
Proof.
  induction steps as [|s rest IH]; intros Hall w.
  - exists []. cbn. rewrite app_nil_r. unfold launches. cbn.
    repeat split; lia.
  - cbn in Hall. apply andb_true_iff in Hall as [Hs Hrest].
    destruct (checksum_step_kept horizon id s w Hs)
      as (es1 & Ht1 & Hle1 & Hin1 & Hone1).
    cbn [checksum_steps].
    destruct (bind_cases (checksum_step s) (λ _, checksum_steps rest) w)
      as [(a & w1 & E & ->)|(msg & w1 & E & ->)]; rewrite E in *; cbn in *.
    + destruct (IH Hrest w1) as (es2 & Ht2 & Hle2 & Hin2).
      exists (es1 ++ es2). rewrite Ht2, Ht1, app_assoc.
      split; [reflexivity|]. rewrite launches_app. split.
      * destruct (launches id es1) as [|[|n]] eqn:El; [lia| |lia].
        rewrite Hin2; [lia|]. apply Hone1. reflexivity.
      * intros Hin. destruct (Hin1 Hin) as [-> Hin']. rewrite (Hin2 Hin').
        reflexivity.
    + exists es1. split; [exact Ht1|]. split; [exact Hle1|].
      intros Hin. apply Hin1. exact Hin.
Qed.

(** C7 (as amended).  (a) A request that finds the entry of its id
    started returns at once and leaves the world as it was: no snapshot,
    no computation.  (b) A request that finds an entry not yet started
    keeps that entry's notify channel in the started entry it stores, and
    makes no new channel.  (c) Along any run of requests and of tasks
    running to their end, at most one computation is launched for an id,
    as long as no entry of that id, once finished, expires during the
    run: every request is applied by [horizon], and a finished task of
    the id leaves a deadline that is unset or not before [horizon]. *)
Theorem computeChecksumPostApply_once_while_kept :
  (∀ env args w c,
     mu_checksums (replica w) !! roachpb.ChecksumID args = Some c →
     started c = true →
     computeChecksumPostApply env args w = Done tt w)
  ∧ (∀ env args w c,
       mu_checksums (replica w) !! roachpb.ChecksumID args = Some c →
       started c = false →
       let w1 := final (computeChecksumPostApply env args w) in
       ∃ c', mu_checksums (replica w1) !! roachpb.ChecksumID args = Some c'
             ∧ started c' = true ∧ notify c' = notify c
             ∧ next_chan w1 = next_chan w)
  ∧ (∀ horizon id steps w,
       forallb (keeps horizon id) steps = true →
       ∃ es, trace (final (checksum_steps steps w)) = trace w ++ es
             ∧ (launches id es ≤ 1)%nat).
Proof.
  split; [|split].
  - exact computeChecksumPostApply_started.
  - intros env args w c Hc Hs w1.
    destruct (computeChecksumPostApply_computes env args w)
      as (es & c' & _ & Hid & Hst & _ & Hn & Hch & _).
    { right. eauto. }
    rewrite Hc in Hn, Hch. exists c'. auto.
  - intros horizon id steps w Hall.
    destruct (checksum_steps_launches horizon id steps Hall w)
      as (es & Ht & Hle & _).
    eauto.
Qed.

Lemma computeChecksumPostApply_once_while_kept_witness :
  forallb (keeps 150 1) (ex_requests ex_env) = true
  ∧ ∃ es,
      trace (final (checksum_steps (ex_requests ex_env) ex_world))
      = trace ex_world ++ es
      ∧ (launches 1 es ≤ 1)%nat.
Proof.
  split; [reflexivity|].
  apply (proj2 (proj2 computeChecksumPostApply_once_while_kept)
           150 1 (ex_requests ex_env) ex_world).
  reflexivity.
Defined.

(** C7 as stated fails: checksum 1 is requested and its task runs to its
    end, which gives the entry a deadline; a request for another id after
    that deadline collects the entry, and the next request for checksum 1
    launches a second computation. *)
Lemma computeChecksumPostApply_relaunch_after_gc :
  ¬ (∀ (id : Z) (steps : list ChecksumStep) (w : World),
       ∃ es, trace (final (checksum_steps steps w)) = trace w ++ es
             ∧ (launches id es ≤ 1)%nat).
Proof.
  intros H.
  destruct (H 1 (ex_requests ex_env_late) ex_world) as (es & Ht & Hle).
  rewrite checksum_steps_ex_late in Ht. cbn in Ht. subst es.
  vm_compute in Hle. lia.
Qed.
